(** * A model of the Mcast WebSocket client (src/client.ts, src/types.ts,
    src/env.ts)

    The client keeps two connections, a publisher and a subscriber, each with
    its socket, its state, its retry counter and the promise of the attempt
    in flight.  The model has the fields of the class, the methods as
    computations on a world that also holds what the JavaScript run time
    keeps for them (sockets, promises, waiting continuations, timers), and one
    event for each way the outside can enter the code: a call of a public
    method, an event of a socket, a timer, the continuation of an await.

    What the model takes from outside the repository:

    - JSON.parse and JSON.stringify (module JSON) on a part of JSON: the
      numbers are the integers that a double holds exactly (up to 2^53 - 1 in
      absolute value) and the strings have code units below 256.  The parser
      accepts only texts of that part, all of which JavaScript reads to the
      same value; where it answers [None] the text may still be JSON, so that
      answer alone says nothing of the code.  [JSON.begins_no_value] names
      texts that no JSON reader accepts.
    - Numbers (NaN, the infinities, the rationals) where the code compares a
      counter with an option that any number may fill, and the rounding of a
      decimal numeral to a double in parseInt.
    - The listeners object as the own properties that the code has put there
      (a finite map) over the members that every object inherits from
      Object.prototype: a topic named like one of these reads as a function or
      an object, not as an array or undefined ([read_slot]).
    - The WebSocket: the constructor and close may throw, as the environment
      says; send throws on a socket that is still CONNECTING; the error event
      arrives when the socket has left OPEN.
    - The callbacks of the user, which may throw; a message callback may call
      unsubscribe; no callback calls the other methods of the client while it
      runs.

    The configuration (module Config) is apart from the world: the options,
    loadFromEnv over process.env as a finite map, the constructor, the token
    and its header, the URLs of the sockets and the requests over HTTP, each
    of these given the answer that fetch brings.  An object with string keys
    is the list of its properties in order of creation; parseInt and
    encodeURIComponent are modelled for code units below 256. *)

From Stdlib Require Import ZArith Ascii String List Lia DecimalN.
From stdpp Require Import gmap strings list.
Import ListNotations.
Set Warnings "-register-all".

(** * JSON.stringify and JSON.parse *)

Module JSON.
Local Open Scope char_scope.

(** A value of the JSON data model, as far as the model holds it: a number
    is an integer that the run time holds exactly (up to 2^53 - 1 either
    way), a string is a sequence of code units below 256, an object lists
    its own properties in order. *)
Inductive Json : Type :=
| JNull
| JBool (b : bool)
| JNum (z : Z)
| JStr (s : string)
| JArr (elems : list Json)
| JObj (members : list (string * Json)).

(** ** JSON.stringify *)

Fixpoint chars_of_uint (d : Decimal.uint) : list ascii :=
  match d with
  | Decimal.Nil => []
  | Decimal.D0 d => "0" :: chars_of_uint d
  | Decimal.D1 d => "1" :: chars_of_uint d
  | Decimal.D2 d => "2" :: chars_of_uint d
  | Decimal.D3 d => "3" :: chars_of_uint d
  | Decimal.D4 d => "4" :: chars_of_uint d
  | Decimal.D5 d => "5" :: chars_of_uint d
  | Decimal.D6 d => "6" :: chars_of_uint d
  | Decimal.D7 d => "7" :: chars_of_uint d
  | Decimal.D8 d => "8" :: chars_of_uint d
  | Decimal.D9 d => "9" :: chars_of_uint d
  end.

Definition print_number (z : Z) : list ascii :=
  if (z <? 0)%Z
  then "-" :: chars_of_uint (N.to_uint (Z.to_N (- z)))
  else chars_of_uint (N.to_uint (Z.to_N z)).

Definition hex_digit (n : N) : ascii :=
  if (n <? 10)%N then ascii_of_N (48 + n) else ascii_of_N (87 + n).

(** QuoteJSONString, one code unit at a time. *)
Definition escape_char (c : ascii) : list ascii :=
  let n := N_of_ascii c in
  if (n =? 34)%N then ["\"; "034"]
  else if (n =? 92)%N then ["\"; "\"]
  else if (n =? 8)%N then ["\"; "b"]
  else if (n =? 9)%N then ["\"; "t"]
  else if (n =? 10)%N then ["\"; "n"]
  else if (n =? 12)%N then ["\"; "f"]
  else if (n =? 13)%N then ["\"; "r"]
  else if (n <? 32)%N
       then ["\"; "u"; "0"; "0"; hex_digit (n / 16); hex_digit (n mod 16)]
  else [c].

Fixpoint escape (s : string) : list ascii :=
  match s with
  | EmptyString => []
  | String c s' => escape_char c ++ escape s'
  end.

Definition quote (s : string) : list ascii := "034" :: escape s ++ ["034"].

Fixpoint join_comma (parts : list (list ascii)) : list ascii :=
  match parts with
  | [] => []
  | [p] => p
  | p :: rest => p ++ "," :: join_comma rest
  end.

Fixpoint print (v : Json) : list ascii :=
  match v with
  | JNull => ["n"; "u"; "l"; "l"]
  | JBool true => ["t"; "r"; "u"; "e"]
  | JBool false => ["f"; "a"; "l"; "s"; "e"]
  | JNum z => print_number z
  | JStr s => quote s
  | JArr elems => "[" :: join_comma (map print elems) ++ ["]"]
  | JObj members =>
      "{" :: join_comma (map (fun kv => quote (fst kv) ++ ":" :: print (snd kv)) members)
          ++ ["}"]
  end.

Definition stringify (v : Json) : string := string_of_list_ascii (print v).

(** ** JSON.parse *)

Definition is_ws (c : ascii) : bool :=
  let n := N_of_ascii c in
  ((n =? 32) || (n =? 9) || (n =? 10) || (n =? 13))%N.

Fixpoint skip_ws (s : list ascii) : list ascii :=
  match s with
  | c :: r => if is_ws c then skip_ws r else s
  | [] => []
  end.

Definition digit_of (c : ascii) : option (Decimal.uint -> Decimal.uint) :=
  let n := N_of_ascii c in
  if (n =? 48)%N then Some Decimal.D0
  else if (n =? 49)%N then Some Decimal.D1
  else if (n =? 50)%N then Some Decimal.D2
  else if (n =? 51)%N then Some Decimal.D3
  else if (n =? 52)%N then Some Decimal.D4
  else if (n =? 53)%N then Some Decimal.D5
  else if (n =? 54)%N then Some Decimal.D6
  else if (n =? 55)%N then Some Decimal.D7
  else if (n =? 56)%N then Some Decimal.D8
  else if (n =? 57)%N then Some Decimal.D9
  else None.

Fixpoint parse_digits (s : list ascii) : Decimal.uint * list ascii :=
  match s with
  | c :: r =>
      match digit_of c with
      | Some D => let (d, r') := parse_digits r in (D d, r')
      | None => (Decimal.Nil, s)
      end
  | [] => (Decimal.Nil, [])
  end.

(** A fraction or an exponent would make the number a non-integer: such
    input is outside what the model holds. *)
Definition continues_number (s : list ascii) : bool :=
  match s with
  | c :: _ => (c =? ".") || (c =? "e") || (c =? "E")
  | [] => false
  end.

(** The largest integer below which every integer is a number of its own,
    Number.MAX_SAFE_INTEGER. *)
Definition max_safe_integer : Z := 9007199254740991%Z.

(** The digits of an integer: no leading zero, no fraction, no exponent, and
    a value that the run time holds exactly. *)
Definition parse_unsigned (s : list ascii) : option (Z * list ascii) :=
  let (d, r) := parse_digits s in
  match d with
  | Decimal.Nil => None
  | _ =>
      let z := Z.of_N (N.of_uint d) in
      if Decimal.uint_beq (Decimal.unorm d) d && negb (continues_number r)
         && (z <=? max_safe_integer)%Z
      then Some (z, r)
      else None
  end.

Definition parse_number (s : list ascii) : option (Json * list ascii) :=
  match s with
  | c :: r =>
      if c =? "-"
      then match parse_unsigned r with
           | Some (z, r') => Some (JNum (- z), r')
           | None => None
           end
      else match parse_unsigned s with
           | Some (z, r') => Some (JNum z, r')
           | None => None
           end
  | [] => None
  end.

Definition hex_value (c : ascii) : option N :=
  let n := N_of_ascii c in
  if ((48 <=? n) && (n <=? 57))%N then Some (n - 48)%N
  else if ((97 <=? n) && (n <=? 102))%N then Some (n - 87)%N
  else if ((65 <=? n) && (n <=? 70))%N then Some (n - 55)%N
  else None.

(** The code unit written [\uXXXX]; units from 256 on are outside the model. *)
Definition unicode_escape (a b c d : ascii) : option ascii :=
  match hex_value a, hex_value b, hex_value c, hex_value d with
  | Some x3, Some x2, Some x1, Some x0 =>
      let n := (((x3 * 16 + x2) * 16 + x1) * 16 + x0)%N in
      if (n <? 256)%N then Some (ascii_of_N n) else None
  | _, _, _, _ => None
  end.

Definition simple_escape (c : ascii) : option ascii :=
  let n := N_of_ascii c in
  if (n =? 34)%N then Some "034"
  else if (n =? 92)%N then Some "\"
  else if (n =? 47)%N then Some "/"
  else if (n =? 98)%N then Some "008"
  else if (n =? 116)%N then Some "009"
  else if (n =? 110)%N then Some "010"
  else if (n =? 102)%N then Some "012"
  else if (n =? 114)%N then Some "013"
  else None.

(** The characters of a string literal after its opening quote, up to and
    including the closing quote. *)
Fixpoint parse_string_body (s : list ascii) : option (string * list ascii) :=
  match s with
  | [] => None
  | c :: r =>
      if c =? "034" then Some (EmptyString, r)
      else if c =? "\" then
        match r with
        | e :: r1 =>
            if e =? "u" then
              match r1 with
              | h3 :: h2 :: h1 :: h0 :: r2 =>
                  match unicode_escape h3 h2 h1 h0 with
                  | Some u =>
                      match parse_string_body r2 with
                      | Some (str, r3) => Some (String u str, r3)
                      | None => None
                      end
                  | None => None
                  end
              | _ => None
              end
            else
              match simple_escape e with
              | Some u =>
                  match parse_string_body r1 with
                  | Some (str, r3) => Some (String u str, r3)
                  | None => None
                  end
              | None => None
              end
        | [] => None
        end
      else if (N_of_ascii c <? 32)%N then None
      else
        match parse_string_body r with
        | Some (str, r3) => Some (String c str, r3)
        | None => None
        end
  end.

Fixpoint strip_prefix (lit s : list ascii) : option (list ascii) :=
  match lit, s with
  | [], _ => Some s
  | a :: lit', b :: s' => if a =? b then strip_prefix lit' s' else None
  | _ :: _, [] => None
  end.

Definition expect (lit : list ascii) (s : list ascii) (v : Json)
  : option (Json * list ascii) :=
  match strip_prefix lit s with
  | Some r => Some (v, r)
  | None => None
  end.

(** Defining a property that the object already has replaces its value and
    keeps its place. *)
Fixpoint obj_set (k : string) (v : Json) (o : list (string * Json))
  : list (string * Json) :=
  match o with
  | [] => [(k, v)]
  | (k', v') :: o' =>
      if String.eqb k k' then (k, v) :: o' else (k', v') :: obj_set k v o'
  end.

Definition mk_object (members : list (string * Json)) : list (string * Json) :=
  fold_left (fun o kv => obj_set (fst kv) (snd kv) o) members [].

Fixpoint parse_value (fuel : nat) (s : list ascii) : option (Json * list ascii) :=
  match fuel with
  | O => None
  | S fuel' =>
      match skip_ws s with
      | [] => None
      | c :: r =>
          if c =? "n" then expect ["u"; "l"; "l"] r JNull
          else if c =? "t" then expect ["r"; "u"; "e"] r (JBool true)
          else if c =? "f" then expect ["a"; "l"; "s"; "e"] r (JBool false)
          else if c =? "034" then
            match parse_string_body r with
            | Some (str, r') => Some (JStr str, r')
            | None => None
            end
          else if c =? "[" then
            match skip_ws r with
            | c' :: r' =>
                if c' =? "]" then Some (JArr [], r')
                else match parse_elements fuel' r with
                     | Some (l, r'') => Some (JArr l, r'')
                     | None => None
                     end
            | [] => None
            end
          else if c =? "{" then
            match skip_ws r with
            | c' :: r' =>
                if c' =? "}" then Some (JObj [], r')
                else match parse_members fuel' r with
                     | Some (l, r'') => Some (JObj (mk_object l), r'')
                     | None => None
                     end
            | [] => None
            end
          else parse_number (c :: r)
      end
  end
with parse_elements (fuel : nat) (s : list ascii) : option (list Json * list ascii) :=
  match fuel with
  | O => None
  | S fuel' =>
      match parse_value fuel' s with
      | Some (v, r) =>
          match skip_ws r with
          | c :: r' =>
              if c =? "," then
                match parse_elements fuel' r' with
                | Some (l, r'') => Some (v :: l, r'')
                | None => None
                end
              else if c =? "]" then Some ([v], r')
              else None
          | [] => None
          end
      | None => None
      end
  end
with parse_members (fuel : nat) (s : list ascii)
  : option (list (string * Json) * list ascii) :=
  match fuel with
  | O => None
  | S fuel' =>
      match skip_ws s with
      | q :: r =>
          if q =? "034" then
            match parse_string_body r with
            | Some (k, r1) =>
                match skip_ws r1 with
                | colon :: r2 =>
                    if colon =? ":" then
                      match parse_value fuel' r2 with
                      | Some (v, r3) =>
                          match skip_ws r3 with
                          | c :: r4 =>
                              if c =? "," then
                                match parse_members fuel' r4 with
                                | Some (l, r5) => Some ((k, v) :: l, r5)
                                | None => None
                                end
                              else if c =? "}" then Some ([(k, v)], r4)
                              else None
                          | [] => None
                          end
                      | None => None
                      end
                    else None
                | [] => None
                end
            | None => None
            end
          else None
      | [] => None
      end
  end.

(** [JSON.parse text] on the part of JSON that the model holds: texts whose
    numbers are integers up to 2^53 - 1, written without fraction or
    exponent, and whose strings escape no code unit from 0100 on.  On such a
    text [None] is the SyntaxError that JSON.parse throws, and [Some v] the
    value it returns.  Other texts are outside the model: what is stated of a
    frame is stated through the value it parses to, or through
    [begins_no_value] below, never through [None] alone. *)
Definition parse (text : string) : option Json :=
  let s := list_ascii_of_string text in
  match parse_value (S (length s)) s with
  | Some (v, r) => match skip_ws r with [] => Some v | _ :: _ => None end
  | None => None
  end.

(** The values that JSON.stringify writes without loss: numbers are safe
    integers and no object has a property twice. *)
Fixpoint serializable (v : Json) : bool :=
  match v with
  | JNum z => (Z.abs z <=? max_safe_integer)%Z
  | JArr elems => forallb serializable elems
  | JObj members =>
      bool_decide (NoDup (map fst members))
      && forallb (fun kv => serializable (snd kv)) members
  | _ => true
  end.

(** ** What the proof of the round trip speaks of *)

(** What may follow a value inside a document. *)
Definition delim (rest : list ascii) : bool :=
  match rest with
  | [] => true
  | c :: _ => (c =? ",") || (c =? "]") || (c =? "}")
  end.

Definition value_start (c : ascii) : bool :=
  match digit_of c with
  | Some _ => true
  | None => (c =? "-") || (c =? "n") || (c =? "t") || (c =? "f")
            || (c =? "034") || (c =? "[") || (c =? "{")
  end.

(** A text that begins no JSON value, so that JSON.parse throws whatever
    follows: after its white space it is empty, or starts with a character
    that starts no value, or with a letter that does not start the literal it
    would have to be, or with a minus sign and no digit. *)
Definition begins_no_value (text : string) : bool :=
  match skip_ws (list_ascii_of_string text) with
  | [] => true
  | c :: r =>
      if c =? "n" then match strip_prefix ["u"; "l"; "l"] r with Some _ => false | None => true end
      else if c =? "t" then match strip_prefix ["r"; "u"; "e"] r with Some _ => false | None => true end
      else if c =? "f"
      then match strip_prefix ["a"; "l"; "s"; "e"] r with Some _ => false | None => true end
      else if c =? "-"
      then match r with
           | d :: _ => match digit_of d with Some _ => false | None => true end
           | [] => true
           end
      else negb (value_start c)
  end.

Fixpoint need (v : Json) : nat :=
  match v with
  | JArr l => S (fold_right (fun x n => S (need x + n)) 0 l)
  | JObj l => S (fold_right (fun kv n => S (need (snd kv) + n)) 0 l)
  | _ => 1
  end.

Definition parses_back (v : Json) : Prop :=
  forall fuel rest, need v <= fuel -> delim rest = true ->
    parse_value fuel (print v ++ rest) = Some (v, rest).

End JSON.

Import JSON.
Local Open Scope Z_scope.

(** * Numbers

    A number of the language is NaN, an infinity or a finite value; a finite
    value is kept as a fraction, so that every value a double can take is
    there.  The counters of the client start at zero and go up by one: they
    are integers, kept as such (counting by one is exact below 2^53, which
    no run comes near). *)

Inductive Number : Type :=
| NaN
| Infinity (negative : bool)
| Finite (numerator : Z) (denominator : positive).

Definition Int (z : Z) : Number := Finite z 1.

(** [n >= x] and [n > x] for an integer [n]: a comparison with NaN is
    false. *)
Definition at_least (n : Z) (x : Number) : bool :=
  match x with
  | NaN => false
  | Infinity negative => negative
  | Finite a b => a <=? n * Z.pos b
  end.


(** The integer nearest to [n >= 0] among those that a double holds: [n]
    itself below 2^53, and beyond that the nearest integer with 53
    significant bits, the even one of two that are as near. *)
Definition round_natural (n : Z) : Z :=
  if n <? 2 ^ 53 then n
  else
    let k := Z.log2 n - 52 in
    let m := Z.shiftr n k in
    let rest := Z.land n (Z.ones k) in
    let half := Z.shiftl 1 (k - 1) in
    let m' := if (half <? rest) || ((rest =? half) && Z.odd m) then m + 1 else m in
    Z.shiftl m' k.

(** The number that an integer becomes when the run time holds it: the
    nearest double, which is an infinity from 2^1024 on. *)
Definition to_number (z : Z) : Number :=
  let n := round_natural (Z.abs z) in
  if 2 ^ 1024 <=? n then Infinity (z <? 0)
  else Int (if z <? 0 then - n else n).

(** * types.ts *)

Inductive ConnectionState : Type :=
| DISCONNECTED
| CONNECTING
| CONNECTED
| RECONNECTING
| ERROR.

#[global] Instance ConnectionState_eq_dec : EqDecision ConnectionState.
Proof. solve_decision. Defined.

(** The members of the enum ConnectionState, by name. *)
Definition ConnectionState_members : list (string * ConnectionState) :=
  [ ("DISCONNECTED", DISCONNECTED);
    ("CONNECTING", CONNECTING);
    ("CONNECTED", CONNECTED);
    ("RECONNECTING", RECONNECTING);
    ("ERROR", ERROR) ].

(** The string each member stands for. *)
Definition ConnectionState_value (s : ConnectionState) : string :=
  match s with
  | DISCONNECTED => "disconnected"
  | CONNECTING => "connecting"
  | CONNECTED => "connected"
  | RECONNECTING => "reconnecting"
  | ERROR => "error"
  end.

(** The own property [name] of an object given by its properties in order. *)
Fixpoint assoc {A} (name : string) (l : list (string * A)) : option A :=
  match l with
  | [] => None
  | (k, v) :: l' => if String.eqb name k then Some v else assoc name l'
  end.

(** [ConnectionState.NAME] as client.ts writes it: the member of that name,
    or [None] (undefined) when the enum has no such member. *)
Definition ConnectionState_get (name : string) : option ConnectionState :=
  assoc name ConnectionState_members.

Definition TOPIC_ALL : string := "_ALL_".

(** * The listeners object

    [this.listeners] is a plain object (client.ts 720-722): a key that it
    does not hold is looked up in Object.prototype.  These are the names that
    every object inherits from there; each is a function, but for __proto__,
    which is the prototype itself. *)
Definition inherited : list string :=
  ["constructor"; "__defineGetter__"; "__defineSetter__"; "hasOwnProperty";
   "__lookupGetter__"; "__lookupSetter__"; "isPrototypeOf"; "propertyIsEnumerable";
   "toString"; "valueOf"; "__proto__"; "toLocaleString"].

(** What [this.listeners[key]] reads: the array of an own property, a member
    of Object.prototype, or undefined. *)
Inductive Slot (A : Type) : Type :=
| Own (array : list A)
| Inherited
| Undefined.
Arguments Own {A}.
Arguments Inherited {A}.
Arguments Undefined {A}.

Definition read_slot {A} (own : gmap string (list A)) (key : string) : Slot A :=
  match own !! key with
  | Some array => Own array
  | None => if bool_decide (key ∈ inherited) then Inherited else Undefined
  end.

(** * The client and its run-time environment *)

Inductive Role : Type := publisher | subscriber.

#[global] Instance Role_eq_dec : EqDecision Role.
Proof. solve_decision. Defined.

Abbreviation SocketId := nat (only parsing).
Abbreviation PromiseId := nat (only parsing).
(** A MessageCallback and a state-change listener are functions; what the
    client can tell of one is its identity. *)
Abbreviation Callback := nat (only parsing).
Abbreviation Listener := nat (only parsing).

Inductive PromiseState : Type :=
| Pending
| Fulfilled
| Rejected (reason : string).

(** The code that waits for a promise: the rest of an async method after its
    [await], or the handler given to [.catch]. *)
Inductive Kont : Type :=
| K_publish (result : PromiseId) (topic : string) (payload : Json)
| K_subscribe (result : PromiseId) (callback : Callback) (topicArray : list string)
| K_reconnect_catch (r : Role)
| K_disconnect_pub (result : PromiseId)
| K_disconnect_sub (result : PromiseId).

Inductive Timer : Type :=
| T_reconnect (r : Role)
| T_force_close (r : Role) (closed : PromiseId).

(** A WebSocket: [readyState] is 0 CONNECTING, 1 OPEN, 2 CLOSING, 3 CLOSED;
    [s_handlers] is the promise whose resolve and reject the onopen, onclose
    and onerror handlers hold, once they are assigned; [s_closeListeners] are
    the one-shot listeners that disconnect adds, each with the promise it
    resolves. *)
Record Socket : Type := mkSocket {
  s_role : Role;
  readyState : Z;
  s_handlers : option PromiseId;
  s_closeListeners : list PromiseId
}.

(** What one connection role keeps: pubSocket, pubState, pubReconnectAttempts
    and pubConnectPromise, or their sub- counterparts. *)
Record Conn : Type := mkConn {
  socket : option SocketId;
  state : option ConnectionState;
  reconnectAttempts : Z;
  connectPromise : option PromiseId
}.

(** What happens that an observer can see. *)
Inductive Obs : Type :=
| O_socket (r : Role) (s : SocketId)
| O_state (r : Role) (st : option ConnectionState)
| O_listener (l : Listener) (st : option ConnectionState) (r : Role)
| O_callback (cb : Callback) (topic : option Json) (payload : Json)
| O_send (s : SocketId) (frame : string)
| O_close (s : SocketId).

Record World : Type := mkWorld {
  pub : Conn;
  sub : Conn;
  listeners : gmap string (list Callback);
  stateChangeListeners : list Listener;
  isDisconnecting : bool;
  sockets : list Socket;
  promises : list PromiseState;
  reactions : list (PromiseId * Kont);
  timers : list Timer;
  ctor_calls : nat;
  trace : list Obs
}.

(** What a message callback does when called: the calls of unsubscribe it
    makes, and whether it returns or throws.  A call of unsubscribe that
    throws is one the callback gets over; a callback that lets the exception
    pass is one that makes no further call and throws. *)
Record CallbackRun : Type := mkRun {
  cb_unsubscribes : list (string * option Callback);
  cb_throws : option string
}.

(** The options given to the constructor and the behaviour of what the
    client calls but does not define. *)
Record Env : Type := mkEnv {
  autoReconnect : bool;
  maxReconnectAttempts : Number;
  ctor_throws : nat -> option string;
  close_throws : SocketId -> option string;
  callback_body : Callback -> option Json -> Json -> CallbackRun;
  listener_throws : Listener -> option ConnectionState -> Role -> option string
}.

Definition initial_conn : Conn :=
  {| socket := None; state := ConnectionState_get "DISCONNECTED";
     reconnectAttempts := 0; connectPromise := None |}.

Definition initial : World :=
  {| pub := initial_conn; sub := initial_conn; listeners := ∅;
     stateChangeListeners := []; isDisconnecting := false;
     sockets := []; promises := []; reactions := []; timers := [];
     ctor_calls := 0; trace := [] |}.

Definition conn (r : Role) (w : World) : Conn :=
  match r with publisher => pub w | subscriber => sub w end.

Definition pubSocket (w : World) := socket (pub w).
Definition subSocket (w : World) := socket (sub w).
Definition pubState (w : World) := state (pub w).
Definition subState (w : World) := state (sub w).
Definition pubReconnectAttempts (w : World) := reconnectAttempts (pub w).
Definition subReconnectAttempts (w : World) := reconnectAttempts (sub w).
Definition pubConnectPromise (w : World) := connectPromise (pub w).
Definition subConnectPromise (w : World) := connectPromise (sub w).

(** ** Field updates *)

Definition with_socket (v : option SocketId) (c : Conn) : Conn :=
  {| socket := v; state := state c; reconnectAttempts := reconnectAttempts c;
     connectPromise := connectPromise c |}.
Definition with_state (v : option ConnectionState) (c : Conn) : Conn :=
  {| socket := socket c; state := v; reconnectAttempts := reconnectAttempts c;
     connectPromise := connectPromise c |}.
Definition with_reconnectAttempts (v : Z) (c : Conn) : Conn :=
  {| socket := socket c; state := state c; reconnectAttempts := v;
     connectPromise := connectPromise c |}.
Definition with_connectPromise (v : option PromiseId) (c : Conn) : Conn :=
  {| socket := socket c; state := state c; reconnectAttempts := reconnectAttempts c;
     connectPromise := v |}.

Definition set_conn (r : Role) (c : Conn) (w : World) : World :=
  {| pub := match r with publisher => c | subscriber => pub w end;
     sub := match r with publisher => sub w | subscriber => c end;
     listeners := listeners w; stateChangeListeners := stateChangeListeners w;
     isDisconnecting := isDisconnecting w; sockets := sockets w;
     promises := promises w; reactions := reactions w; timers := timers w;
     ctor_calls := ctor_calls w; trace := trace w |}.
Definition set_listeners (v : gmap string (list Callback)) (w : World) : World :=
  {| pub := pub w; sub := sub w; listeners := v;
     stateChangeListeners := stateChangeListeners w;
     isDisconnecting := isDisconnecting w; sockets := sockets w;
     promises := promises w; reactions := reactions w; timers := timers w;
     ctor_calls := ctor_calls w; trace := trace w |}.
Definition set_stateChangeListeners (v : list Listener) (w : World) : World :=
  {| pub := pub w; sub := sub w; listeners := listeners w;
     stateChangeListeners := v;
     isDisconnecting := isDisconnecting w; sockets := sockets w;
     promises := promises w; reactions := reactions w; timers := timers w;
     ctor_calls := ctor_calls w; trace := trace w |}.
Definition set_isDisconnecting (v : bool) (w : World) : World :=
  {| pub := pub w; sub := sub w; listeners := listeners w;
     stateChangeListeners := stateChangeListeners w;
     isDisconnecting := v; sockets := sockets w;
     promises := promises w; reactions := reactions w; timers := timers w;
     ctor_calls := ctor_calls w; trace := trace w |}.
Definition set_sockets (v : list Socket) (w : World) : World :=
  {| pub := pub w; sub := sub w; listeners := listeners w;
     stateChangeListeners := stateChangeListeners w;
     isDisconnecting := isDisconnecting w; sockets := v;
     promises := promises w; reactions := reactions w; timers := timers w;
     ctor_calls := ctor_calls w; trace := trace w |}.
Definition set_promises (v : list PromiseState) (w : World) : World :=
  {| pub := pub w; sub := sub w; listeners := listeners w;
     stateChangeListeners := stateChangeListeners w;
     isDisconnecting := isDisconnecting w; sockets := sockets w;
     promises := v; reactions := reactions w; timers := timers w;
     ctor_calls := ctor_calls w; trace := trace w |}.
Definition set_reactions (v : list (PromiseId * Kont)) (w : World) : World :=
  {| pub := pub w; sub := sub w; listeners := listeners w;
     stateChangeListeners := stateChangeListeners w;
     isDisconnecting := isDisconnecting w; sockets := sockets w;
     promises := promises w; reactions := v; timers := timers w;
     ctor_calls := ctor_calls w; trace := trace w |}.
Definition set_timers (v : list Timer) (w : World) : World :=
  {| pub := pub w; sub := sub w; listeners := listeners w;
     stateChangeListeners := stateChangeListeners w;
     isDisconnecting := isDisconnecting w; sockets := sockets w;
     promises := promises w; reactions := reactions w; timers := v;
     ctor_calls := ctor_calls w; trace := trace w |}.
Definition set_ctor_calls (v : nat) (w : World) : World :=
  {| pub := pub w; sub := sub w; listeners := listeners w;
     stateChangeListeners := stateChangeListeners w;
     isDisconnecting := isDisconnecting w; sockets := sockets w;
     promises := promises w; reactions := reactions w; timers := timers w;
     ctor_calls := v; trace := trace w |}.
Definition set_trace (v : list Obs) (w : World) : World :=
  {| pub := pub w; sub := sub w; listeners := listeners w;
     stateChangeListeners := stateChangeListeners w;
     isDisconnecting := isDisconnecting w; sockets := sockets w;
     promises := promises w; reactions := reactions w; timers := timers w;
     ctor_calls := ctor_calls w; trace := v |}.

(** ** Computations that change the world and may throw *)

Definition M (A : Type) : Type := World -> (A + string) * World.

Definition ret {A} (a : A) : M A := fun w => (inl a, w).
Definition throw {A} (e : string) : M A := fun w => (inr e, w).
Definition bind {A B} (m : M A) (k : A -> M B) : M B :=
  fun w => match m w with
           | (inl a, w') => k a w'
           | (inr e, w') => (inr e, w')
           end.
Definition try_catch {A} (m : M A) (handler : string -> M A) : M A :=
  fun w => match m w with
           | (inl a, w') => (inl a, w')
           | (inr e, w') => handler e w'
           end.
Definition gets {A} (f : World -> A) : M A := fun w => (inl (f w), w).
Definition modify (f : World -> World) : M unit := fun w => (inl tt, f w).

Declare Scope m_scope.
Delimit Scope m_scope with M.
Bind Scope m_scope with M.
Notation "x <- m ;; k" := (bind m (fun x => k))
  (at level 100, m at next level, right associativity) : m_scope.
Notation "m ;; k" := (bind m (fun _ => k))
  (at level 100, right associativity) : m_scope.
Local Open Scope m_scope.

Fixpoint forEach {A} (l : list A) (f : A -> M unit) : M unit :=
  match l with
  | [] => ret tt
  | x :: l' => f x ;; forEach l' f
  end.

Definition exec {A} (m : M A) (w : World) : World := snd (m w).

(** * Reading a parsed message *)

(** [v.name] for a value that JSON.parse returned: reading a property of
    null throws, a value without the property gives undefined ([None]). *)
Definition get_property (v : Json) (name : string) : M (option Json) :=
  match v with
  | JNull => throw "TypeError: Cannot read properties of null"
  | JObj members => ret (assoc name members)
  | _ => ret None
  end.

(** ToString, as a property key or an argument of JSON.parse needs it. *)
Fixpoint ToString (v : Json) : string :=
  match v with
  | JNull => "null"
  | JBool true => "true"
  | JBool false => "false"
  | JNum z => string_of_list_ascii (print_number z)
  | JStr s => s
  | JArr elems =>
      (fix join (l : list Json) : string :=
         match l with
         | [] => ""
         | x :: l' =>
             (match x with JNull => "" | _ => ToString x end)
             +:+ match l' with [] => "" | _ :: _ => "," +:+ join l' end
         end) elems
  | JObj _ => "[object Object]"
  end.

Definition ToString_value (v : option Json) : string :=
  match v with
  | None => "undefined"
  | Some v => ToString v
  end.

(** [x || fallback] for an optional string [x]. *)
Definition or_default (x : option string) (fallback : string) : string :=
  match x with
  | Some s => if String.eqb s "" then fallback else s
  | None => fallback
  end.

(** * client.ts *)

Section Client.

Variable env : Env.

Definition emit (o : Obs) : M unit :=
  modify (fun w => set_trace (trace w ++ [o]) w).

(** Console output is not part of the model. *)
Definition logDebug (message : string) : M unit := ret tt.

Definition call_listener (l : Listener) (st : option ConnectionState) (r : Role)
  : M unit :=
  emit (O_listener l st r) ;;
  match listener_throws env l st r with
  | Some e => throw e
  | None => ret tt
  end.

(** client.ts 1216-1228: every listener is called, and what one throws is
    caught at its call. *)
Definition notifyStateChangeListeners (st : option ConnectionState) (r : Role)
  : M unit :=
  ls <- gets stateChangeListeners ;;
  forEach ls (fun listener =>
    try_catch (call_listener listener st r)
              (fun error => logDebug "Error in state change listener")).

(** updatePublisherState (1196-1199) and updateSubscriberState (1206-1209);
    the trace records the change. *)
Definition updateState (r : Role) (st : option ConnectionState) : M unit :=
  emit (O_state r st) ;;
  modify (fun w => set_conn r (with_state st (conn r w)) w) ;;
  notifyStateChangeListeners st r.

Definition updatePublisherState := updateState publisher.
Definition updateSubscriberState := updateState subscriber.

Definition getPublisherState (w : World) : option ConnectionState := pubState w.
Definition getSubscriberState (w : World) : option ConnectionState := subState w.

(** ** Promises *)

Definition new_promise (st : PromiseState) : M PromiseId :=
  p <- gets (fun w => length (promises w)) ;;
  modify (fun w => set_promises (promises w ++ [st]) w) ;;
  ret p.

(** resolve and reject have an effect on a pending promise only. *)
Definition settle (p : PromiseId) (st : PromiseState) : M unit :=
  modify (fun w =>
    match promises w !! p with
    | Some Pending => set_promises (<[p := st]> (promises w)) w
    | _ => w
    end).

Definition resolve (p : PromiseId) : M unit := settle p Fulfilled.
Definition reject (p : PromiseId) (e : string) : M unit := settle p (Rejected e).

Definition await (p : PromiseId) (k : Kont) : M unit :=
  modify (fun w => set_reactions (reactions w ++ [(p, k)]) w).

Definition setTimeout (t : Timer) : M unit :=
  modify (fun w => set_timers (timers w ++ [t]) w).

(** ** Sockets *)

(** client.ts 1485-1489. *)
Definition isSocketConnected (w : World) (s : option SocketId) : bool :=
  match s with
  | None => false
  | Some id =>
      match sockets w !! id with
      | Some sk => (readyState sk =? 1)%Z
      | None => false
      end
  end.

(** [new WebSocketImpl(url)] *)
Definition construct (r : Role) : M SocketId :=
  n <- gets ctor_calls ;;
  modify (set_ctor_calls (S n)) ;;
  match ctor_throws env n with
  | Some e => throw e
  | None =>
      s <- gets (fun w => length (sockets w)) ;;
      modify (fun w => set_sockets (sockets w ++ [mkSocket r 0 None []]) w) ;;
      emit (O_socket r s) ;;
      ret s
  end.

Definition update_socket (s : SocketId) (f : Socket -> Socket) : M unit :=
  modify (fun w => set_sockets (alter f s (sockets w)) w).

Definition set_connectPromise (r : Role) (v : option PromiseId) : M unit :=
  modify (fun w => set_conn r (with_connectPromise v (conn r w)) w).

Definition set_socket (r : Role) (v : option SocketId) : M unit :=
  modify (fun w => set_conn r (with_socket v (conn r w)) w).

Definition set_reconnectAttempts (r : Role) (v : Z) : M unit :=
  modify (fun w => set_conn r (with_reconnectAttempts v (conn r w)) w).

(** ** Reconnection *)

(** attemptReconnectPublisher (1128-1156) and attemptReconnectSubscriber
    (1161-1189), up to the call of setTimeout; the timer callback is
    [reconnect_timer] below. *)
Definition attemptReconnect (r : Role) : M unit :=
  c <- gets (conn r) ;;
  dis <- gets isDisconnecting ;;
  if at_least (reconnectAttempts c) (maxReconnectAttempts env) || dis
  then logDebug "Max reconnect attempts reached, giving up"
  else
    updateState r (ConnectionState_get "RECONNECTING") ;;
    set_reconnectAttempts r (reconnectAttempts c + 1) ;;
    logDebug "Attempting to reconnect" ;;
    setTimeout (T_reconnect r).

Definition attemptReconnectPublisher := attemptReconnect publisher.
Definition attemptReconnectSubscriber := attemptReconnect subscriber.

(** ** The handlers that connect assigns to a socket *)

(** client.ts 886-893 and 1017-1024. *)
Definition onopen (r : Role) (p : PromiseId) : M unit :=
  updateState r (ConnectionState_get "CONNECTED") ;;
  set_reconnectAttempts r 0 ;;
  logDebug "connected" ;;
  resolve p ;;
  set_connectPromise r None.

(** client.ts 895-921 and 1026-1053. *)
Definition onclose (r : Role) (p : PromiseId) (message : option string) : M unit :=
  st <- gets (fun w => state (conn r w)) ;;
  let wasConnected := bool_decide (st = ConnectionState_get "CONNECTED") in
  updateState r (ConnectionState_get "DISCONNECTED") ;;
  logDebug "disconnected" ;;
  set_connectPromise r None ;;
  dis <- gets isDisconnecting ;;
  (if wasConnected && autoReconnect env && negb dis
   then attemptReconnect r
   else ret tt) ;;
  if negb wasConnected
  then reject p ("WebSocket error: " +:+ or_default message "Denied")
  else ret tt.

(** client.ts 923-942 and 1055-1074: the state is written before it is
    read. *)
Definition onerror (r : Role) (p : PromiseId) (message : option string) : M unit :=
  updateState r (ConnectionState_get "ERROR") ;;
  logDebug "error" ;;
  st <- gets (fun w => state (conn r w)) ;;
  (if negb (bool_decide (st = ConnectionState_get "CONNECTED"))
   then reject p ("WebSocket error: " +:+ or_default message "Unknown error")
   else ret tt) ;;
  set_connectPromise r None.

(** ** The topic registry *)

(** client.ts 1324-1343.  For a topic named like a member of
    Object.prototype the first test finds that member: with a callback,
    filter is called on what is no array; without one, delete finds no
    property to remove. *)
Definition unsubscribe (topic : string) (callback : option Callback) : M unit :=
  regs <- gets listeners ;;
  match read_slot regs topic with
  | Undefined => ret tt
  | Inherited =>
      match callback with
      | Some _ => throw "TypeError: this.listeners[topic].filter is not a function"
      | None => ret tt
      end
  | Own cbs =>
      match callback with
      | Some cb =>
          let kept := filter (fun c => c <> cb) cbs in
          if (length kept =? 0)%nat
          then modify (fun w => set_listeners (delete topic (listeners w)) w)
          else modify (fun w => set_listeners (<[topic := kept]> (listeners w)) w)
      | None => modify (fun w => set_listeners (delete topic (listeners w)) w)
      end
  end.

(** One round of the loop of subscribe (1311-1314): a member of
    Object.prototype is no reason to create an array, and has no push. *)
Definition add_listener (callback : Callback) (topic : string) : M unit :=
  regs <- gets listeners ;;
  match read_slot regs topic with
  | Inherited => throw "TypeError: this.listeners[topic].push is not a function"
  | _ =>
      modify (fun w =>
        set_listeners
          (<[topic := default [] (listeners w !! topic) ++ [callback]]> (listeners w)) w)
  end.

(** [callback(topic, parsedPayload)] *)
Definition call_callback (cb : Callback) (topic : option Json) (payload : Json)
  : M unit :=
  emit (O_callback cb topic payload) ;;
  let run := callback_body env cb topic payload in
  forEach (cb_unsubscribes run)
    (fun tc => try_catch (unsubscribe (fst tc) (snd tc)) (fun error => ret tt)) ;;
  match cb_throws run with
  | Some e => throw e
  | None => ret tt
  end.

(** ** subSocket.onmessage *)

Definition JSON_parse (text : string) : M Json :=
  match JSON.parse text with
  | Some v => ret v
  | None => throw "SyntaxError"
  end.

(** [...(this.listeners[key] ?? [])]: what is neither null nor undefined
    is spread, and a member of Object.prototype is not iterable. *)
Definition spread_listeners (key : string) : M (list Callback) :=
  regs <- gets listeners ;;
  match read_slot regs key with
  | Own cbs => ret cbs
  | Undefined => ret []
  | Inherited => throw "TypeError: this.listeners[message.topic] is not iterable"
  end.

(** client.ts 1077-1114, with [data] for event.data. *)
Definition onmessage (data : string) : M unit :=
  try_catch
    (message <- JSON_parse data ;;
     topic <- get_property message "topic" ;;
     specific <- spread_listeners (ToString_value topic) ;;
     wildcard <- spread_listeners TOPIC_ALL ;;
     let ls := specific ++ wildcard in
     if (0 <? length ls)%nat
     then
       payload <- get_property message "payload" ;;
       match JSON.parse (ToString_value payload) with
       | None => logDebug "Failed to parse message payload"
       | Some parsedPayload =>
           forEach ls (fun callback =>
             try_catch (call_callback callback topic parsedPayload)
                       (fun error => logDebug "Error in message callback"))
       end
     else ret tt)
    (fun error => logDebug "Error processing WebSocket message").

(** ** connectPublisher and connectSubscriber *)

(** The body of the promise that connect creates, inside its try block. *)
Definition connect_executor (r : Role) (p : PromiseId) : M unit :=
  s <- construct r ;;
  set_socket r (Some s) ;;
  logDebug "Attempting to connect" ;;
  sk <- gets (fun w => socket (conn r w)) ;;
  match sk with
  | None =>
      updateState r (ConnectionState_get "ERROR") ;;
      reject p "Failed to create WebSocket"
  | Some s =>
      update_socket s (fun sk => mkSocket (s_role sk) (readyState sk) (Some p)
                                          (s_closeListeners sk))
  end.

(** connectPublisher (834-951) and connectSubscriber (958-1123).  The promise
    field is assigned when the executor has returned, after what its catch
    block did.  The method is async: what the caller gets settles as the
    promise returned here does, and the model gives the caller that promise. *)
Definition connect (r : Role) : M PromiseId :=
  c <- gets (conn r) ;;
  match connectPromise c with
  | Some p => ret p
  | None =>
      connected <- gets (fun w => isSocketConnected w (socket c)) ;;
      if connected then new_promise Fulfilled
      else
        dis <- gets isDisconnecting ;;
        if dis then new_promise (Rejected "Client is disconnecting")
        else
          updateState r (ConnectionState_get "CONNECTING") ;;
          p <- new_promise Pending ;;
          try_catch (connect_executor r p)
                    (fun error => set_connectPromise r None ;; reject p error) ;;
          set_connectPromise r (Some p) ;;
          ret p
  end.

Definition connectPublisher : M PromiseId := connect publisher.
Definition connectSubscriber : M PromiseId := connect subscriber.

(** ** publish, subscribe *)

(** The SerializedMessage of publish, client.ts 1242-1245. *)
Definition publish_message (topic : string) (payload : Json) : Json :=
  JObj [("topic", JStr topic); ("payload", JStr (JSON.stringify payload))].

(** client.ts 1237-1249, up to the await; [publish_resume] is the rest.
    [result] is the promise that the async method returns. *)
Definition publish (topic : string) (payload : Json) : M PromiseId :=
  result <- new_promise Pending ;;
  p <- connectPublisher ;;
  await p (K_publish result topic payload) ;;
  ret result.

(** [socket.send(data)]: on a socket that is still CONNECTING it throws (an
    InvalidStateError in the browser, an Error in ws); otherwise the trace
    records the frame. *)
Definition socket_send (s : SocketId) (frame : string) : M unit :=
  sk <- gets (fun w => sockets w !! s) ;;
  match sk with
  | Some sk =>
      if (readyState sk =? 0)%Z
      then throw "InvalidStateError: WebSocket is not open: readyState 0 (CONNECTING)"
      else emit (O_send s frame)
  | None => emit (O_send s frame)
  end.

(** The rest of publish, 1241-1248: what is thrown there rejects the
    promise of the call. *)
Definition publish_resume (result : PromiseId) (topic : string) (payload : Json)
    (outcome : PromiseState) : M unit :=
  match outcome with
  | Rejected e => reject result e
  | _ =>
      try_catch
        (let message := publish_message topic payload in
         s <- gets pubSocket ;;
         match s with
         | Some s => socket_send s (JSON.stringify message)
         | None => ret tt
         end ;;
         resolve result)
        (fun error => reject result error)
  end.

(** client.ts 1299-1304. *)
Definition topic_array (topics : option (string + list string)) : list string :=
  let topicArray :=
    match topics with
    | None => [TOPIC_ALL]
    | Some (inl topic) => [topic]
    | Some (inr array) => array
    end in
  if bool_decide (TOPIC_ALL ∈ topicArray) then [TOPIC_ALL] else topicArray.

(** client.ts 1295-1316, up to the await; [subscribe_resume] is the rest. *)
Definition subscribe (callback : Callback) (topics : option (string + list string))
  : M PromiseId :=
  result <- new_promise Pending ;;
  let topicArray := topic_array topics in
  p <- connectSubscriber ;;
  await p (K_subscribe result callback topicArray) ;;
  ret result.

(** The rest of subscribe, 1309-1315: what is thrown in the loop ends it
    and rejects the promise of the call. *)
Definition subscribe_resume (result : PromiseId) (callback : Callback)
    (topicArray : list string) (outcome : PromiseState) : M unit :=
  match outcome with
  | Rejected e => reject result e
  | _ =>
      try_catch
        (forEach topicArray (add_listener callback) ;;
         resolve result)
        (fun error => reject result error)
  end.

(** ** disconnect *)

(** [socket.close(1000, ...)]: it may throw; the close event comes later, if
    it comes. *)
Definition socket_close (s : SocketId) : M unit :=
  emit (O_close s) ;;
  match close_throws env s with
  | Some e => throw e
  | None =>
      update_socket s (fun sk =>
        mkSocket (s_role sk)
                 (if (readyState sk <=? 1)%Z then 2 else readyState sk)
                 (s_handlers sk) (s_closeListeners sk))
  end.

(** The part of disconnect that closes the socket of one role, up to its
    await: client.ts 1355-1391 and 1396-1432. *)
Definition disconnect_close (r : Role) (k : Kont) (otherwise : M unit) : M unit :=
  s <- gets (fun w => socket (conn r w)) ;;
  match s with
  | Some _ =>
      updateState r (ConnectionState_get "DISCONNECTING") ;;
      closed <- new_promise Pending ;;
      s' <- gets (fun w => socket (conn r w)) ;;
      match s' with
      | Some id =>
          update_socket id (fun sk =>
            mkSocket (s_role sk) (readyState sk) (s_handlers sk)
                     (s_closeListeners sk ++ [closed])) ;;
          setTimeout (T_force_close r closed)
      | None => resolve closed
      end ;;
      try_catch
        (s'' <- gets (fun w => socket (conn r w)) ;;
         match s'' with
         | Some id => socket_close id
         | None => ret tt
         end)
        (fun err =>
           logDebug "Error closing socket" ;;
           set_socket r None ;;
           resolve closed) ;;
      await closed k
  | None => otherwise
  end.

(** client.ts 1436-1440. *)
Definition disconnect_finish (result : PromiseId) : M unit :=
  set_connectPromise publisher None ;;
  set_connectPromise subscriber None ;;
  logDebug "Disconnected from server" ;;
  resolve result.

Definition disconnect_sub (result : PromiseId) : M unit :=
  disconnect_close subscriber (K_disconnect_sub result) (disconnect_finish result).

Definition disconnect_pub (result : PromiseId) : M unit :=
  disconnect_close publisher (K_disconnect_pub result) (disconnect_sub result).

(** client.ts 1350-1441. *)
Definition disconnect : M PromiseId :=
  result <- new_promise Pending ;;
  modify (set_isDisconnecting true) ;;
  disconnect_pub result ;;
  ret result.

Definition disconnect_pub_resume (result : PromiseId) : M unit :=
  set_socket publisher None ;;
  disconnect_sub result.

Definition disconnect_sub_resume (result : PromiseId) : M unit :=
  set_socket subscriber None ;;
  disconnect_finish result.

(** The one-shot close listener of disconnect (1361-1364, 1402-1405): it
    removes itself from the socket that the role has at that time. *)
Definition close_listener (r : Role) (closed : PromiseId) : M unit :=
  s <- gets (fun w => socket (conn r w)) ;;
  match s with
  | Some id =>
      update_socket id (fun sk =>
        mkSocket (s_role sk) (readyState sk) (s_handlers sk)
                 (filter (fun c => c <> closed) (s_closeListeners sk)))
  | None => ret tt
  end ;;
  resolve closed.

(** The timer of disconnect that stops waiting for the close event
    (1368-1376, 1409-1417). *)
Definition force_close (r : Role) (closed : PromiseId) : M unit :=
  s <- gets (fun w => socket (conn r w)) ;;
  match s with
  | Some _ =>
      logDebug "socket didn't close properly, forcing null" ;;
      set_socket r None
  | None => ret tt
  end ;;
  resolve closed.

(** ** onStateChange *)

Definition onStateChange (listener : Listener) : M unit :=
  modify (fun w => set_stateChangeListeners (stateChangeListeners w ++ [listener]) w).

Definition removeStateChangeListener (listener : Listener) : M unit :=
  modify (fun w =>
    set_stateChangeListeners
      (filter (fun l => l <> listener) (stateChangeListeners w)) w).

(** * The event loop *)

Inductive Event : Type :=
| E_publish (topic : string) (payload : Json)
| E_subscribe (callback : Callback) (topics : option (string + list string))
| E_unsubscribe (topic : string) (callback : option Callback)
| E_disconnect
| E_onStateChange (listener : Listener)
| E_removeStateChangeListener (listener : Listener)
| E_open (s : SocketId)
| E_close (s : SocketId) (message : option string)
| E_error (s : SocketId) (message : option string)
| E_message (s : SocketId) (data : string)
| E_timer (i : nat)
| E_react (i : nat).

(** The timer callback of attemptReconnect (1146-1155, 1179-1188). *)
Definition reconnect_timer (r : Role) : M unit :=
  dis <- gets isDisconnecting ;;
  if negb dis
  then p <- connect r ;; await p (K_reconnect_catch r)
  else ret tt.

(** The handler given to [.catch] in that callback. *)
Definition reconnect_catch (r : Role) (outcome : PromiseState) : M unit :=
  match outcome with
  | Rejected err =>
      logDebug "Failed to reconnect" ;;
      attemptReconnect r
  | _ => ret tt
  end.

Definition run_timer (t : Timer) : M unit :=
  match t with
  | T_reconnect r => reconnect_timer r
  | T_force_close r closed => force_close r closed
  end.

Definition run_reaction (k : Kont) (outcome : PromiseState) : M unit :=
  match k with
  | K_publish result topic payload => publish_resume result topic payload outcome
  | K_subscribe result callback topicArray =>
      subscribe_resume result callback topicArray outcome
  | K_reconnect_catch r => reconnect_catch r outcome
  | K_disconnect_pub result => disconnect_pub_resume result
  | K_disconnect_sub result => disconnect_sub_resume result
  end.

(** An event of the socket [s]: the transport has changed its readyState,
    then the handler assigned to the socket runs.  The transport reports an
    error when it has closed the connection or is about to: the socket is no
    longer OPEN nor CONNECTING then (CLOSED by the standard, CLOSING in ws;
    the client tells neither from the other). *)
Definition socket_event (s : SocketId) (ready : option Z)
    (handler : Socket -> PromiseId -> M unit) : M unit :=
  sk <- gets (fun w => sockets w !! s) ;;
  match sk with
  | None => ret tt
  | Some sk =>
      match ready with
      | Some n =>
          update_socket s (fun sk => mkSocket (s_role sk) n (s_handlers sk)
                                              (s_closeListeners sk))
      | None => ret tt
      end ;;
      match s_handlers sk with
      | Some p => handler sk p
      | None => ret tt
      end
  end.

Definition handle (e : Event) : M unit :=
  match e with
  | E_publish topic payload => publish topic payload ;; ret tt
  | E_subscribe callback topics => subscribe callback topics ;; ret tt
  | E_unsubscribe topic callback => unsubscribe topic callback
  | E_disconnect => disconnect ;; ret tt
  | E_onStateChange listener => onStateChange listener
  | E_removeStateChangeListener listener => removeStateChangeListener listener
  | E_open s => socket_event s (Some 1) (fun sk p => onopen (s_role sk) p)
  | E_close s message =>
      socket_event s (Some 3) (fun sk p => onclose (s_role sk) p message) ;;
      sk <- gets (fun w => sockets w !! s) ;;
      match sk with
      | Some sk => forEach (s_closeListeners sk) (close_listener (s_role sk))
      | None => ret tt
      end
  | E_error s message =>
      socket_event s (Some 3) (fun sk p => onerror (s_role sk) p message)
  | E_message s data =>
      socket_event s None (fun sk p =>
        match s_role sk with
        | subscriber => onmessage data
        | publisher => ret tt
        end)
  | E_timer i =>
      t <- gets (fun w => timers w !! i) ;;
      match t with
      | Some t =>
          modify (fun w => set_timers (delete i (timers w)) w) ;;
          run_timer t
      | None => ret tt
      end
  | E_react i =>
      rk <- gets (fun w => reactions w !! i) ;;
      match rk with
      | Some (p, k) =>
          st <- gets (fun w => promises w !! p) ;;
          match st with
          | Some Pending | None => ret tt
          | Some outcome =>
              modify (fun w => set_reactions (delete i (reactions w)) w) ;;
              run_reaction k outcome
          end
      | None => ret tt
      end
  end.

Definition step (w : World) (e : Event) : World := exec (handle e) w.

Definition run (es : list Event) (w : World) : World := fold_left step es w.

End Client.

(** * Configuration: types.ts, env.ts and the configuration part of client.ts

    The options, loadFromEnv, the constructor, the token and its header, the
    requests over HTTP and the URLs of the sockets. *)

Module Config.


(** ** What the code takes from the language *)

(** [!!x] for an optional string. *)
Definition truthy (x : option string) : bool :=
  match x with
  | Some s => negb (String.eqb s "")
  | None => false
  end.

(** [o[k] = v] on an object given by its properties in order of creation. *)
Fixpoint set_property {A} (k : string) (v : A) (o : list (string * A))
  : list (string * A) :=
  match o with
  | [] => [(k, v)]
  | (k', v') :: o' =>
      if String.eqb k k' then (k, v) :: o' else (k', v') :: set_property k v o'
  end.

Definition digit_value (c : ascii) : option N :=
  let n := N_of_ascii c in
  if ((48 <=? n) && (n <=? 57))%N then Some (n - 48)%N else None.

Fixpoint digits_value (acc : N) (s : string) : option N :=
  match s with
  | EmptyString => Some acc
  | String c r =>
      match digit_value c with
      | Some d => digits_value (10 * acc + d)%N r
      | None => None
      end
  end.

(** A key that is an array index: the decimal form, without a leading
    zero, of an integer below 2^32 - 1. *)
Definition array_index (k : string) : option N :=
  match k with
  | EmptyString => None
  | String c r =>
      if Ascii.eqb c "0" && negb (String.eqb r "") then None
      else match digits_value 0 k with
           | Some n => if (n <? 4294967295)%N then Some n else None
           | None => None
           end
  end.

Fixpoint insert_indexed {A} (n : N) (kv : string * A) (l : list (N * (string * A)))
  : list (N * (string * A)) :=
  match l with
  | [] => [(n, kv)]
  | (m, kv') :: l' =>
      if (n <? m)%N then (n, kv) :: l else (m, kv') :: insert_indexed n kv l'
  end.

(** Object.entries: the properties whose keys are array indices come
    first, by ascending index, then the others in order of creation. *)
Definition entries {A} (o : list (string * A)) : list (string * A) :=
  let indexed :=
    fold_left (fun acc kv =>
                 match array_index (fst kv) with
                 | Some n => insert_indexed n kv acc
                 | None => acc
                 end) o [] in
  map snd indexed
  ++ filter (fun kv => array_index (fst kv) = None) o.

(** [{...o}]: a new object with the properties of [o], created in the
    order in which Object.entries lists them. *)
Definition spread {A} (o : list (string * A)) : list (string * A) :=
  fold_left (fun acc kv => set_property (fst kv) (snd kv) acc) (entries o) [].

(** [s.replace(pattern, replacement)] for a string pattern: the first
    occurrence is replaced ([replacement] holds no dollar sign here). *)
Fixpoint replace (pattern replacement s : string) : string :=
  if String.prefix pattern s
  then replacement
       +:+ String.substring (String.length pattern)
                            (String.length s - String.length pattern) s
  else match s with
       | EmptyString => EmptyString
       | String c r => String c (replace pattern replacement r)
       end.

(** Array.prototype.join *)
Fixpoint join (sep : string) (l : list string) : string :=
  match l with
  | [] => ""
  | [x] => x
  | x :: l' => x +:+ sep +:+ join sep l'
  end.

(** *** parseInt(text, 10) *)

Definition is_white (c : ascii) : bool :=
  let n := N_of_ascii c in
  ((n =? 9) || (n =? 10) || (n =? 11) || (n =? 12) || (n =? 13)
   || (n =? 32) || (n =? 160))%N.

Fixpoint trim_start (s : string) : string :=
  match s with
  | String c r => if is_white c then trim_start r else s
  | EmptyString => EmptyString
  end.

(** The decimal digits that [s] starts with, as the number they write
    after [acc]; [None] when it starts with none. *)
Fixpoint leading_digits (acc : option N) (s : string) : option N :=
  match s with
  | String c r =>
      match digit_value c with
      | Some d => leading_digits (Some (10 * default 0%N acc + d)%N) r
      | None => acc
      end
  | EmptyString => acc
  end.

(** The integer that the leading digits write, as a number: beyond 2^53
    the nearest double (as Node computes it; the standard lets an
    implementation read no more than twenty digits). *)
Definition parseInt (text : string) : Number :=
  let s := trim_start text in
  let '(negative, s) :=
    match s with
    | String "-" r => (true, r)
    | String "+" r => (false, r)
    | _ => (false, s)
    end in
  match leading_digits None s with
  | None => NaN
  | Some n => to_number (if negative then - Z.of_N n else Z.of_N n)
  end.

(** *** encodeURIComponent, for code units below 256 *)

Definition unreserved (c : ascii) : bool :=
  let n := N_of_ascii c in
  ((65 <=? n) && (n <=? 90) || (97 <=? n) && (n <=? 122) || (48 <=? n) && (n <=? 57)
   || (n =? 45) || (n =? 95) || (n =? 46) || (n =? 33) || (n =? 126)
   || (n =? 42) || (n =? 39) || (n =? 40) || (n =? 41))%N.

Definition hex_upper (n : N) : ascii :=
  if (n <? 10)%N then ascii_of_N (48 + n) else ascii_of_N (55 + n).

Definition percent (byte : N) : list ascii :=
  ["%"; hex_upper (byte / 16); hex_upper (byte mod 16)]%char.

(** A code unit from 128 on is written as the two bytes of its UTF-8 form. *)
Definition encode_unit (c : ascii) : list ascii :=
  let n := N_of_ascii c in
  if unreserved c then [c]
  else if (n <? 128)%N then percent n
  else percent (192 + n / 64) ++ percent (128 + n mod 64).

Definition encodeURIComponent (s : string) : string :=
  string_of_list_ascii (flat_map encode_unit (list_ascii_of_string s)).

(** ** types.ts *)

Module Options.
(** McastOptions *)
Record McastOptions : Type := mkOptions {
  authToken : string;
  channel : string;
  topics : option (list string);
  headers : option (list (string * string));
  autoReconnect : option bool;
  maxReconnectAttempts : option Number;
  reconnectDelay : option Number;
  debug : option bool
}.
End Options.

Module Account.
(** AccountResponse; the expiry date is kept as the text that carries it. *)
Record AccountResponse : Type := mkAccount {
  clientId : string;
  channel : option string;
  token : option string;
  tokenExpiresAt : option string;
  clientName : option string;
  clientGroup : option string
}.
End Account.

(** What fetch is called with, and what the code reads of its answer;
    [json] is the outcome of [response.json()], typed as the caller casts
    it. *)
Record Request : Type := mkRequest {
  url : string;
  method : string;
  request_headers : list (string * string);
  body : string
}.

Record Response (A : Type) : Type := mkResponse {
  ok : bool;
  status : Z;
  statusText : string;
  json : A + string
}.
Arguments ok {A}.
Arguments status {A}.
Arguments statusText {A}.
Arguments json {A}.

(** ** env.ts *)

(** loadFromEnv over [process.env]. *)
Definition loadFromEnv (env : gmap string string) : Options.McastOptions + string :=
  let authToken := env !! "MCAST_AUTH_TOKEN" in
  let channel := env !! "MCAST_CHANNEL" in
  if negb (truthy authToken)
  then inr "MCAST_AUTH_TOKEN environment variable is required"
  else if negb (truthy channel)
  then inr "MCAST_CHANNEL environment variable is required"
  else
    let debug := bool_decide (env !! "MCAST_DEBUG" = Some "true") in
    let autoReconnect := negb (bool_decide (env !! "MCAST_AUTO_RECONNECT" = Some "false")) in
    let maxReconnectAttempts :=
      parseInt (or_default (env !! "MCAST_MAX_RECONNECT_ATTEMPTS") "5") in
    let reconnectDelay :=
      parseInt (or_default (env !! "MCAST_RECONNECT_DELAY") "3000") in
    inl {| Options.authToken := default "" authToken;
           Options.channel := default "" channel;
           Options.topics := None;
           Options.headers := None;
           Options.autoReconnect := Some autoReconnect;
           Options.maxReconnectAttempts := Some maxReconnectAttempts;
           Options.reconnectDelay := Some reconnectDelay;
           Options.debug := Some debug |}.

(** ** client.ts: the fields that hold the configuration *)

Module Fields.
Record McastClient : Type := mkClient {
  baseUrl : string;
  authToken : string;
  channel : string;
  headers : list (string * string);
  autoReconnect : bool;
  maxReconnectAttempts : Number;
  reconnectDelay : Number;
  debug : bool;
  rootTopics : list string
}.
End Fields.

Import Fields.

(** The value that the Authorization header gets for a token. *)
Definition bearer (token : string) : string :=
  if negb (String.prefix "Bearer " token) then "Bearer " +:+ token else token.

(** client.ts 744-783. *)
Definition constructor (options : Options.McastOptions) : McastClient :=
  let authToken := Options.authToken options in
  let rootTopics := default [] (Options.topics options) in
  let rootTopics :=
    if bool_decide (TOPIC_ALL ∈ rootTopics) then [TOPIC_ALL] else rootTopics in
  let headers := spread (default [] (Options.headers options)) in
  let headers :=
    if negb (truthy (assoc "Authorization" headers))
    then set_property "Authorization" (bearer authToken) headers
    else headers in
  {| baseUrl := "https://chanban-112482603531.us-east4.run.app";
     authToken := authToken;
     channel := Options.channel options;
     headers := headers;
     autoReconnect := default true (Options.autoReconnect options);
     maxReconnectAttempts := default (Int 5) (Options.maxReconnectAttempts options);
     reconnectDelay := default (Int 3000) (Options.reconnectDelay options);
     debug := default false (Options.debug options);
     rootTopics := rootTopics |}.

(** client.ts 790-798. *)
Definition updateAuthToken (token : string) (c : McastClient) : McastClient :=
  {| baseUrl := baseUrl c;
     authToken := token;
     channel := channel c;
     headers := set_property "Authorization"
                  (if String.prefix "Bearer " token then token
                   else "Bearer " +:+ token)
                  (headers c);
     autoReconnect := autoReconnect c;
     maxReconnectAttempts := maxReconnectAttempts c;
     reconnectDelay := reconnectDelay c;
     debug := debug c;
     rootTopics := rootTopics c |}.

(** The headers of a request: Content-Type, then the headers of the client
    laid over it. *)
Definition post_headers (c : McastClient) : list (string * string) :=
  fold_left (fun acc kv => set_property (fst kv) (snd kv) acc)
            (entries (headers c)) [("Content-Type", "application/json")].

Definition http_error {A} (response : Response A) : string :=
  "HTTP error: " +:+ string_of_list_ascii (print_number (status response))
  +:+ " " +:+ statusText response.

Definition rotateToken_request (c : McastClient) : Request :=
  {| url := baseUrl c +:+ "/rotate-token";
     method := "POST";
     request_headers := post_headers c;
     body := "{}" |}.

(** client.ts 805-827, given the answer to its request. *)
Definition rotateToken (response : Response Account.AccountResponse) (c : McastClient)
  : (Account.AccountResponse + string) * McastClient :=
  if negb (ok response) then (inr (http_error response), c)
  else
    match json response with
    | inr e => (inr e, c)
    | inl accountInfo =>
        (inl accountInfo,
         match Account.token accountInfo with
         | Some token =>
             if negb (String.eqb token "") then updateAuthToken token c else c
         | None => c
         end)
    end.

Definition publishHttp_request (topic : string) (payload : Json) (c : McastClient)
  : Request :=
  let message := publish_message topic payload in
  {| url := baseUrl c +:+ "/pub?channel=" +:+ encodeURIComponent (channel c);
     method := "POST";
     request_headers := post_headers c;
     body := JSON.stringify message |}.

(** client.ts 1258-1286, given the answer to its request. *)
Definition publishHttp {A} (response : Response A) : A + string :=
  if negb (ok response) then inr (http_error response)
  else json response.

(** client.ts 1496-1506. *)
Definition getWebSocketBaseUrl (c : McastClient) : string :=
  if String.prefix "https://" (baseUrl c)
  then replace "https://" "wss://" (baseUrl c)
  else if String.prefix "http://" (baseUrl c)
  then replace "http://" "ws://" (baseUrl c)
  else "ws://" +:+ baseUrl c.

(** The query parameters that connectPublisher and connectSubscriber make
    of the headers (client.ts 856-863, 980-988). *)
Definition queryParams (c : McastClient) : string :=
  join "&" (map (fun kv => encodeURIComponent (fst kv) +:+ "="
                           +:+ encodeURIComponent (snd kv))
                (entries (headers c))).

(** The URL that connectPublisher opens (client.ts 868-870). *)
Definition publisher_url (c : McastClient) : string :=
  getWebSocketBaseUrl c +:+ "/pub-ws?channel=" +:+ encodeURIComponent (channel c)
  +:+ "&" +:+ queryParams c.

(** The URL that connectSubscriber opens (client.ts 990-1001). *)
Definition subscriber_url (c : McastClient) : string :=
  let params := queryParams c in
  let params :=
    if (0 <? length (rootTopics c))%nat
    then params +:+ "&topics=" +:+ join "," (map encodeURIComponent (rootTopics c))
    else params in
  getWebSocketBaseUrl c +:+ "/sub?channel=" +:+ encodeURIComponent (channel c)
  +:+ "&" +:+ params.

(** The parameters of the query, as the template strings write them. *)
Definition header_param (kv : string * string) : string :=
  encodeURIComponent (fst kv) +:+ "=" +:+ encodeURIComponent (snd kv).

Definition channel_param (c : McastClient) : string :=
  "channel=" +:+ encodeURIComponent (channel c).

(** ** What a reader of the URL does *)

(** The parts of [s] that the separator keeps apart. *)
Fixpoint split_on (sep : ascii) (s : string) : list string :=
  match s with
  | EmptyString => [EmptyString]
  | String c r =>
      if Ascii.eqb c sep then EmptyString :: split_on sep r
      else match split_on sep r with
           | x :: l => String c x :: l
           | [] => [String c EmptyString]
           end
  end.

(** A character that encodeURIComponent writes: an unreserved one, the
    percent sign or a hexadecimal digit. *)
Definition written (c : ascii) : bool :=
  let n := N_of_ascii c in
  unreserved c || (n =? 37)%N || (65 <=? n)%N && (n <=? 70)%N.

Fixpoint all_chars (P : ascii -> bool) (s : string) : bool :=
  match s with
  | EmptyString => true
  | String c r => P c && all_chars P r
  end.

(** The value of the digits of [d] written after [acc]. *)
Fixpoint uint_value (acc : N) (d : Decimal.uint) : N :=
  match d with
  | Decimal.Nil => acc
  | Decimal.D0 l => uint_value (10 * acc + 0) l
  | Decimal.D1 l => uint_value (10 * acc + 1) l
  | Decimal.D2 l => uint_value (10 * acc + 2) l
  | Decimal.D3 l => uint_value (10 * acc + 3) l
  | Decimal.D4 l => uint_value (10 * acc + 4) l
  | Decimal.D5 l => uint_value (10 * acc + 5) l
  | Decimal.D6 l => uint_value (10 * acc + 6) l
  | Decimal.D7 l => uint_value (10 * acc + 7) l
  | Decimal.D8 l => uint_value (10 * acc + 8) l
  | Decimal.D9 l => uint_value (10 * acc + 9) l
  end%N.

(** The decimal numeral of an integer. *)
Definition numeral (z : Z) : string := string_of_list_ascii (print_number z).

Definition other_than (sep : ascii) (c : ascii) : bool := negb (Ascii.eqb c sep).

(** ** Examples *)

(** Options with a header of the caller's and two root topics. *)
Definition some_options : Options.McastOptions :=
  {| Options.authToken := "secret";
     Options.channel := "news & views";
     Options.topics := Some ["a,b"; "c"];
     Options.headers := Some [("X-Trace", "1=2")];
     Options.autoReconnect := None;
     Options.maxReconnectAttempts := None;
     Options.reconnectDelay := None;
     Options.debug := None |}.

(** An environment whose number of retries is no number. *)
Definition some_environment : gmap string string :=
  <["MCAST_AUTH_TOKEN" := "secret"]>
    (<["MCAST_CHANNEL" := "news"]>
       (<["MCAST_MAX_RECONNECT_ATTEMPTS" := "many"]> ∅)).

End Config.

(** * The words of the statements *)

(** A computation keeps a relation between the world it starts in and the
    world it leaves. *)
Definition keeps_at (R : World -> World -> Prop) {A} (m : M A) (w : World) : Prop :=
  R w (snd (m w)).

Definition keeps (R : World -> World -> Prop) {A} (m : M A) : Prop :=
  forall w, keeps_at R m w.

Definition extends (Q : Obs -> bool) (w w' : World) : Prop :=
  exists new, trace w' = trace w ++ new /\ forallb Q new = true.

Definition calm (o : Obs) : bool :=
  match o with
  | O_state _ (Some CONNECTING) | O_state _ (Some RECONNECTING) | O_socket _ _ => false
  | _ => true
  end.

Definition shut (w w' : World) : Prop :=
  isDisconnecting w = true ->
  isDisconnecting w' = true
  /\ ctor_calls w' = ctor_calls w
  /\ length (sockets w') = length (sockets w)
  /\ extends calm w w'
  /\ forall r, T_reconnect r ∈ timers w' -> T_reconnect r ∈ timers w.

Definition notified (st : option ConnectionState) (r : Role) (w : World) : list Obs :=
  map (fun l => O_listener l st r) (stateChangeListeners w).

Definition updated (r : Role) (st : option ConnectionState) (w : World) : World :=
  set_trace (trace w ++ O_state r st :: notified st r w)
            (set_conn r (with_state st (conn r w)) w).

Definition reconnecting (r : Role) (w : World) : World :=
  let w1 := updated r (ConnectionState_get "RECONNECTING") w in
  set_timers (timers w1 ++ [T_reconnect r])
    (set_conn r (with_reconnectAttempts (reconnectAttempts (conn r w) + 1) (conn r w1)) w1).

Definition bounded (max : Z) (w : World) : Prop :=
  forall r, 0 <= reconnectAttempts (conn r w) <= max.

Definition stays_bounded (max : Z) (w w' : World) : Prop :=
  bounded max w -> bounded max w'.

(** The counter of a role goes down on no event but the open of its socket. *)
Definition counts_up (r : Role) (w w' : World) : Prop :=
  reconnectAttempts (conn r w) <= reconnectAttempts (conn r w').

Definition quiet (r : Role) (o : Obs) : bool :=
  match o with
  | O_state r' (Some CONNECTING) | O_state r' (Some RECONNECTING) | O_socket r' _ =>
      negb (bool_decide (r' = r))
  | _ => true
  end.

Definition spent_in (env : Env) (r : Role) (w : World) : Prop :=
  at_least (reconnectAttempts (conn r w)) (maxReconnectAttempts env) = true
  /\ (T_reconnect r ∉ timers w).

Definition spent (env : Env) (r : Role) (w w' : World) : Prop :=
  spent_in env r w ->
  reconnectAttempts (conn r w') = reconnectAttempts (conn r w)
  /\ (T_reconnect r ∉ timers w')
  /\ extends (quiet r) w w'.


Definition settled (w : World) (p : PromiseId) (o : PromiseState) : Prop :=
  promises w !! p = Some o /\ o <> Pending.

Definition stable (w w' : World) : Prop :=
  (length (promises w) <= length (promises w'))%nat
  /\ forall p o, settled w p o -> settled w' p o.

Definition untouched (w w' : World) : Prop :=
  listeners w' = listeners w /\ reactions w' = reactions w.

Definition idle (r : Role) (w : World) : Prop :=
  connectPromise (conn r w) = None
  /\ isSocketConnected w (socket (conn r w)) = false
  /\ isDisconnecting w = false.

(** The continuation that a call of publish or subscribe leaves waiting,
    [q] being the promise the call returns. *)
Definition request (r : Role) (e : Event) (q : PromiseId) : option Kont :=
  match r, e with
  | publisher, E_publish topic payload => Some (K_publish q topic payload)
  | subscriber, E_subscribe callback topics =>
      Some (K_subscribe q callback (topic_array topics))
  | _, _ => None
  end.



(** The registry after [unsubscribe topic callback]. *)
Definition unsubscribed (topic : string) (callback : option Callback)
    (regs : gmap string (list Callback)) : gmap string (list Callback) :=
  match regs !! topic with
  | None => regs
  | Some cbs =>
      match callback with
      | Some cb =>
          let kept := filter (fun c => c <> cb) cbs in
          if (length kept =? 0)%nat then delete topic regs else <[topic := kept]> regs
      | None => delete topic regs
      end
  end.

Definition called (topic : option Json) (payload : Json) (cb : Callback) : Obs :=
  O_callback cb topic payload.

(** The callbacks registered for the topic of a message, then those
    registered for every topic. *)
Definition listeners_for (w : World) (topic : option Json) : list Callback :=
  default [] (listeners w !! ToString_value topic)
  ++ default [] (listeners w !! TOPIC_ALL).

(** A frame that carries an envelope: an object whose payload is JSON text. *)
Definition envelope (data : string) (topic : option Json) (payload : Json) : Prop :=
  exists members text,
    JSON.parse data = Some (JObj members)
    /\ assoc "topic" members = topic
    /\ assoc "payload" members = Some (JStr text)
    /\ JSON.parse text = Some payload.

(** The callbacks that a stretch of the trace shows as called, in order. *)
Definition invoked (new : list Obs) : list Callback :=
  omap (fun o => match o with O_callback cb _ _ => Some cb | _ => None end) new.

Definition registered (callback : Callback) (topicArray : list string)
    (regs : gmap string (list Callback)) : gmap string (list Callback) :=
  fold_left (fun regs topic => <[topic := default [] (regs !! topic) ++ [callback]]> regs)
            topicArray regs.

Section Words.
Variable env : Env.


(** The registry after the callback has run. *)
Definition ran (topic : option Json) (payload : Json)
    (regs : gmap string (list Callback)) (cb : Callback)
  : gmap string (list Callback) :=
  fold_left (fun regs tc => unsubscribed (fst tc) (snd tc) regs)
            (cb_unsubscribes (callback_body env cb topic payload)) regs.

End Words.

(** What a step leaves as it was when it starts and stops no retry and
    writes no state: the timers, the trace, the retry counters, the states. *)
Definition rests (w w' : World) : Prop :=
  timers w' = timers w /\ trace w' = trace w
  /\ forall r, reconnectAttempts (conn r w') = reconnectAttempts (conn r w)
               /\ state (conn r w') = state (conn r w).

(** The promise field of the role, once cleared, is still clear. *)
Definition cleared (r : Role) (w w' : World) : Prop :=
  connectPromise (conn r w) = None -> connectPromise (conn r w') = None.

(** [message.payload] for a parsed message that is not null. *)
Definition payload_of (message : Json) : option Json :=
  match message with
  | JObj members => assoc "payload" members
  | _ => None
  end.

(** Text that JSON.parse throws on: one that begins no JSON value, or what
    an object reads as when taken for a string. *)
Definition unreadable (text : string) : bool :=
  begins_no_value text || String.eqb text "[object Object]".

(** A frame from which nothing is delivered: text that begins no JSON
    value, the JSON null, or a value whose payload, read as a string, is
    unreadable: a missing payload (undefined), an object, an empty array,
    text that begins no JSON value. *)
Definition undeliverable (data : string) : Prop :=
  begins_no_value data = true
  \/ exists message,
       JSON.parse data = Some message
       /\ (message = JNull
           \/ unreadable (ToString_value (payload_of message)) = true).

(** The names of a list up to the first that is inherited and not a
    property of the registry: the rounds that the loop of subscribe gets
    through. *)
Fixpoint pushed (regs : gmap string (list Callback)) (topicArray : list string)
  : list string :=
  match topicArray with
  | [] => []
  | t :: ts =>
      match read_slot regs t with
      | Inherited => []
      | _ => t :: pushed regs ts
      end
  end.

(** No round of the loop of subscribe throws. *)
Definition all_pushed (regs : gmap string (list Callback)) (topicArray : list string)
  : Prop :=
  forall t, t ∈ topicArray -> read_slot regs t <> Inherited.

(** The socket once the transport has set its readyState. *)
Definition in_state (n : Z) (sk : Socket) : Socket :=
  mkSocket (s_role sk) n (s_handlers sk) (s_closeListeners sk).

(** [socket.send] does not throw on the socket of the publisher. *)
Definition can_send (w : World) : Prop :=
  forall s sk, pubSocket w = Some s -> sockets w !! s = Some sk -> readyState sk <> 0.


(** The topics that a caller of subscribe names. *)
Definition named (topics : option (string + list string)) : list string :=
  match topics with
  | None => [TOPIC_ALL]
  | Some (inl topic) => [topic]
  | Some (inr array) => array
  end.

(** No topic of the registry has an empty list. *)
Definition tidy (regs : gmap string (list Callback)) : Prop :=
  forall topic, regs !! topic <> Some [].

Definition stays_tidy (w w' : World) : Prop :=
  tidy (listeners w) -> tidy (listeners w').

(** What is recorded is no call of the listener. *)
Definition not_to (l : Listener) (o : Obs) : bool :=
  match o with
  | O_listener l' _ _ => negb (bool_decide (l' = l))
  | _ => true
  end.

(** A listener that is not registered stays so and is not called. *)
Definition forgets (l : Listener) (w w' : World) : Prop :=
  l ∉ stateChangeListeners w ->
  (l ∉ stateChangeListeners w') /\ extends (not_to l) w w'.

(** The state of a role that the trace shows last, if it shows one. *)
Definition last_state (r : Role) (tr : list Obs) : option (option ConnectionState) :=
  fold_left (fun acc o =>
               match o with
               | O_state r' st => if decide (r' = r) then Some st else acc
               | _ => acc
               end) tr None.

(** The state that the getter of the role returns is the one announced
    last, or DISCONNECTED when none was. *)
Definition announced (w : World) : Prop :=
  forall r, state (conn r w) = default (Some DISCONNECTED) (last_state r (trace w)).

Definition stays_announced (w w' : World) : Prop := announced w -> announced w'.

(** No retry is pending or was announced, and no retry was counted. *)
Definition retry_free (w : World) : Prop :=
  (forall r, T_reconnect r ∉ timers w)
  /\ (forall p r, (p, K_reconnect_catch r) ∉ reactions w)
  /\ (forall r, reconnectAttempts (conn r w) = 0)
  /\ (forall r, O_state r (Some RECONNECTING) ∉ trace w).

Definition stays_retry_free (w w' : World) : Prop := retry_free w -> retry_free w'.

Definition untouched_sockets (w w' : World) : Prop := sockets w' = sockets w.

(** A promise that is not pending is not pending afterwards. *)
Definition stays_settled (c : PromiseId) (w w' : World) : Prop :=
  promises w !! c <> Some Pending -> promises w' !! c <> Some Pending.

(** What is left of the callbacks of a topic when one is taken out. *)
Definition cleaned (callback : Callback) (cbs : option (list Callback))
  : option (list Callback) :=
  match cbs with
  | None => None
  | Some l =>
      match filter (fun c => c <> callback) l with
      | [] => None
      | kept => Some kept
      end
  end.

(** * Runs of the client *)

(** The defaults of the constructor (autoReconnect, five retries), a
    transport whose constructor and close never throw, and callbacks that
    return. *)
Definition example_env : Env :=
  {| autoReconnect := true;
     maxReconnectAttempts := Int 5;
     ctor_throws := fun _ => None;
     close_throws := fun _ => None;
     callback_body := fun _ _ _ => mkRun [] None;
     listener_throws := fun _ _ _ => None |}.



Definition a_payload : Json := JObj [("id", JNum 1); ("text", JStr "hello")].

(** publish, its socket opens, the message is sent. *)
Definition connected_publisher : list Event :=
  [E_publish "news" a_payload; E_open 0; E_react 0].

(** Three callbacks subscribe: 7 and 8 to topic "a", 9 to every topic. *)
Definition three_subscribers : list Event :=
  [E_subscribe 7 (Some (inl "a")); E_subscribe 8 (Some (inl "a")); E_subscribe 9 None;
   E_open 0; E_react 0; E_react 0; E_react 0].

(** A first attempt fails with an error event; the caller publishes again
    at once; the close event of the first socket arrives; publish is called
    once more while the second socket is still connecting. *)
Definition stale_close : list Event :=
  [E_publish "news" a_payload; E_error 0 None;
   E_publish "news" a_payload; E_close 0 None;
   E_publish "news" a_payload].

(** An open socket reports an error and then closes. *)
Definition error_then_close : list Event :=
  connected_publisher ++ [E_error 0 (Some "ECONNRESET"); E_close 0 None].

(** disconnect on an open publisher whose socket emits no close event:
    the timer of disconnect fires and disconnect goes on. *)
Definition disconnect_timed_out : list Event :=
  connected_publisher ++ [E_disconnect; E_timer 0; E_react 0].

(** The same when the close event arrives. *)
Definition disconnect_closed : list Event :=
  connected_publisher ++ [E_disconnect; E_close 0 None; E_react 0].


(** autoReconnect switched off. *)
Definition manual_env : Env :=
  {| autoReconnect := false;
     maxReconnectAttempts := Int 5;
     ctor_throws := fun _ => None;
     close_throws := fun _ => None;
     callback_body := fun _ _ _ => mkRun [] None;
     listener_throws := fun _ _ _ => None |}.


(** A frame with a topic and no payload. *)
Definition no_payload_frame : string := JSON.stringify (JObj [("topic", JStr "a")]).

(** A frame with a payload and no topic. *)
Definition no_topic_frame : string :=
  JSON.stringify (JObj [("payload", JStr (JSON.stringify a_payload))]).





(** A transport whose constructor throws at its first call only. *)
Definition stalled_env : Env :=
  {| autoReconnect := true;
     maxReconnectAttempts := Int 5;
     ctor_throws := fun n => if (n =? 0)%nat then Some "SecurityError" else None;
     close_throws := fun _ => None;
     callback_body := fun _ _ _ => mkRun [] None;
     listener_throws := fun _ _ _ => None |}.

(** publish fails on the constructor and its caller is told; callback 9
    subscribes and its socket opens; disconnect is called and waits for that
    socket to close. *)
Definition shutting_down : list Event :=
  [E_publish "news" a_payload; E_react 0;
   E_subscribe 9 None; E_open 0; E_react 0;
   E_disconnect].

(** Callback 9 listens to every topic on an open socket; then publish is
    called with the topic, its socket opens and the message is sent. *)
Definition wildcard_subscriber : list Event :=
  [E_subscribe 9 None; E_open 0; E_react 0].

Definition published (topic : string) : list Event :=
  wildcard_subscriber ++ [E_publish topic a_payload; E_open 1; E_react 0].

(** * JSON.parse reads back what JSON.stringify writes *)

Module JSONFacts.
Import JSON.
Local Open Scope nat_scope.
Local Open Scope char_scope.

Section Json_induction.
Variable P : Json -> Prop.
Hypothesis Hnull : P JNull.
Hypothesis Hbool : forall b, P (JBool b).
Hypothesis Hnum : forall z, P (JNum z).
Hypothesis Hstr : forall s, P (JStr s).
Hypothesis Harr : forall l, Forall P l -> P (JArr l).
Hypothesis Hobj : forall l, Forall (fun kv => P (snd kv)) l -> P (JObj l).

Fixpoint Json_nested_ind (v : Json) : P v :=
  match v with
  | JNull => Hnull
  | JBool b => Hbool b
  | JNum z => Hnum z
  | JStr s => Hstr s
  | JArr l =>
      Harr l ((fix go (l : list Json) : Forall P l :=
                 match l with
                 | [] => @List.Forall_nil _ P
                 | x :: l' => @List.Forall_cons _ P x l' (Json_nested_ind x) (go l')
                 end) l)
  | JObj l =>
      Hobj l ((fix go (l : list (string * Json)) : Forall (fun kv => P (snd kv)) l :=
                 match l with
                 | [] => @List.Forall_nil _ _
                 | kv :: l' =>
                     @List.Forall_cons _ (fun kv => P (snd kv)) kv l'
                       (Json_nested_ind (snd kv)) (go l')
                 end) l)
  end.
End Json_induction.

Ltac each_char c := destruct c as [[] [] [] [] [] [] [] []].

Lemma delim_no_digit c rest : delim (c :: rest) = true -> digit_of c = None.
Proof. each_char c; simpl; intros H; try discriminate H; reflexivity. Qed.

Lemma delim_no_continue rest : delim rest = true -> continues_number rest = false.
Proof.
  destruct rest as [|c rest]; [reflexivity|].
  each_char c; simpl; intros H; try discriminate H; reflexivity.
Qed.

Lemma delim_skip_ws rest : delim rest = true -> skip_ws rest = rest.
Proof.
  destruct rest as [|c rest]; [reflexivity|].
  each_char c; simpl; intros H; try discriminate H; reflexivity.
Qed.

Lemma value_start_skip_ws c r : value_start c = true -> skip_ws (c :: r) = c :: r.
Proof. each_char c; simpl; intros H; try discriminate H; reflexivity. Qed.

Lemma parse_digits_chars d rest :
  match rest with [] => True | c :: _ => digit_of c = None end ->
  parse_digits (chars_of_uint d ++ rest) = (d, rest).
Proof.
  intros Hrest.
  induction d; simpl; rewrite ?IHd; try reflexivity.
  destruct rest as [|c rest]; [reflexivity|]. simpl. now rewrite Hrest.
Qed.

Lemma uint_beq_refl d : Decimal.uint_beq d d = true.
Proof. induction d; simpl; auto. Qed.

Lemma to_uint_normal n : Decimal.unorm (N.to_uint n) = N.to_uint n.
Proof. rewrite <- (DecimalN.Unsigned.to_of (N.to_uint n)), DecimalN.Unsigned.of_to. reflexivity. Qed.

Lemma to_uint_not_nil n : N.to_uint n <> Decimal.Nil.
Proof.
  destruct n as [|p]; simpl; [discriminate|].
  apply DecimalPos.Unsigned.to_uint_nonnil.
Qed.

Lemma parse_unsigned_print n rest :
  (Z.of_N n <= max_safe_integer)%Z ->
  delim rest = true ->
  parse_unsigned (chars_of_uint (N.to_uint n) ++ rest) = Some (Z.of_N n, rest).
Proof.
  intros Hsafe Hrest. unfold parse_unsigned.
  rewrite parse_digits_chars.
  2:{ destruct rest; [exact I|]. eapply delim_no_digit; eauto. }
  pose proof (to_uint_not_nil n) as Hnil.
  cbv zeta.
  rewrite to_uint_normal, uint_beq_refl, (delim_no_continue _ Hrest),
    DecimalN.Unsigned.of_to.
  apply Z.leb_le in Hsafe. rewrite Hsafe.
  destruct (N.to_uint n); try reflexivity. congruence.
Qed.

Lemma chars_of_uint_head d :
  d <> Decimal.Nil ->
  exists c r, chars_of_uint d = c :: r /\ is_Some (digit_of c).
Proof. destruct d; intros H; try congruence; simpl; eexists _, _; split; eauto. Qed.

Lemma digit_not_minus c : is_Some (digit_of c) -> (c =? "-") = false.
Proof. each_char c; simpl; intros [x H]; try discriminate H; reflexivity. Qed.

Lemma digit_value_start c : is_Some (digit_of c) -> value_start c = true.
Proof. unfold value_start. intros [x ->]. reflexivity. Qed.

Lemma parse_number_print z rest :
  (Z.abs z <= max_safe_integer)%Z ->
  delim rest = true ->
  parse_number (print_number z ++ rest) = Some (JNum z, rest).
Proof.
  intros Hsafe Hrest. unfold print_number.
  destruct (Z.ltb_spec z 0) as [Hneg|Hpos].
  - simpl. rewrite parse_unsigned_print by (try assumption; lia).
    do 3 f_equal. lia.
  - destruct (chars_of_uint_head _ (to_uint_not_nil (Z.to_N z))) as (c & r & Heq & Hd).
    assert (Z.of_N (Z.to_N z) <= max_safe_integer)%Z as Hn by lia.
    pose proof (parse_unsigned_print (Z.to_N z) rest Hn Hrest) as Hp.
    rewrite Heq in *. simpl. rewrite (digit_not_minus _ Hd).
    simpl in Hp. rewrite Hp. do 3 f_equal. lia.
Qed.

Lemma print_number_head z :
  exists c r, print_number z = c :: r /\ value_start c = true
              /\ (c =? "n") = false /\ (c =? "t") = false /\ (c =? "f") = false
              /\ (c =? "034") = false /\ (c =? "[") = false /\ (c =? "{") = false.
Proof.
  unfold print_number. destruct (z <? 0)%Z.
  - eexists _, _. split; [reflexivity|]. repeat split; reflexivity.
  - destruct (chars_of_uint_head _ (to_uint_not_nil (Z.to_N z))) as (c & r & Heq & Hd).
    exists c, r. split; [assumption|].
    split; [now apply digit_value_start|].
    destruct Hd as [x Hx]. revert Hx. clear.
    each_char c; simpl; intros Hx; try discriminate Hx; repeat split; reflexivity.
Qed.

(** ** Strings *)

Lemma parse_escape_char c r :
  parse_string_body (escape_char c ++ r)
  = match parse_string_body r with
    | Some (str, r') => Some (String c str, r')
    | None => None
    end.
Proof. each_char c; reflexivity. Qed.

Lemma parse_string_escape s rest :
  parse_string_body (escape s ++ "034" :: rest) = Some (s, rest).
Proof.
  induction s as [|c s IH]; simpl; [reflexivity|].
  rewrite <- app_assoc, parse_escape_char, IH. reflexivity.
Qed.

(** ** Values *)

Lemma print_head v : exists c r, print v = c :: r /\ value_start c = true.
Proof.
  destruct v as [| [] | z | s | l | l]; simpl; try (eexists _, _; split; reflexivity).
  destruct (print_number_head z) as (c & r & -> & H & _). eauto.
Qed.

Lemma value_start_not_close c : value_start c = true -> (c =? "]") = false.
Proof. each_char c; simpl; intros H; try discriminate H; reflexivity. Qed.

Lemma parse_value_array fuel r :
  parse_value (S fuel) ("[" :: r)
  = match skip_ws r with
    | c' :: r' =>
        if c' =? "]" then Some (JArr [], r')
        else match parse_elements fuel r with
             | Some (l, r'') => Some (JArr l, r'')
             | None => None
             end
    | [] => None
    end.
Proof. reflexivity. Qed.

Lemma parse_value_object fuel r :
  parse_value (S fuel) ("{" :: r)
  = match skip_ws r with
    | c' :: r' =>
        if c' =? "}" then Some (JObj [], r')
        else match parse_members fuel r with
             | Some (l, r'') => Some (JObj (mk_object l), r'')
             | None => None
             end
    | [] => None
    end.
Proof. reflexivity. Qed.

Lemma parse_value_string fuel s rest :
  parse_value (S fuel) (quote s ++ rest)
  = match parse_string_body (escape s ++ "034" :: rest) with
    | Some (str, r') => Some (JStr str, r')
    | None => None
    end.
Proof. unfold quote. cbn [app]. rewrite <- app_assoc. reflexivity. Qed.

Lemma parse_value_number fuel z rest :
  parse_value (S fuel) (print_number z ++ rest) = parse_number (print_number z ++ rest).
Proof.
  destruct (print_number_head z) as (c & r & -> & Hs & Hn & Ht & Hf & Hq & Ha & Ho).
  cbn [parse_value app]. rewrite (value_start_skip_ws _ _ Hs).
  now rewrite Hn, Ht, Hf, Hq, Ha, Ho.
Qed.

Ltac at_delim :=
  rewrite delim_skip_ws by reflexivity;
  repeat match goal with
         | |- context [Ascii.eqb ?a ?b] =>
             let v := eval vm_compute in (Ascii.eqb a b) in
             change (Ascii.eqb a b) with v
         end;
  cbv iota.

Lemma parse_elements_print l :
  l <> [] -> Forall parses_back l ->
  forall fuel rest,
    fold_right (fun x n => S (need x + n)) 0 l <= fuel ->
    parse_elements fuel (join_comma (map print l) ++ "]" :: rest) = Some (l, rest).
Proof.
  induction l as [|v l IH]; [congruence|].
  intros _ HF fuel rest Hfuel.
  apply Forall_cons in HF as [Hv Hl].
  cbn [fold_right] in Hfuel.
  destruct fuel as [|fuel]; [lia|].
  destruct l as [|v' l'].
  - cbn [map join_comma parse_elements].
    rewrite Hv by (reflexivity || lia). now at_delim.
  - change (join_comma (map print (v :: v' :: l')))
      with (print v ++ "," :: join_comma (map print (v' :: l'))).
    rewrite <- app_assoc. cbn [parse_elements app].
    rewrite Hv by (reflexivity || lia). at_delim.
    rewrite IH; [reflexivity|congruence|assumption|lia].
Qed.

Lemma parse_members_step fuel k r :
  parse_members (S fuel) (quote k ++ r)
  = match parse_string_body (escape k ++ "034" :: r) with
    | Some (k, r1) =>
        match skip_ws r1 with
        | colon :: r2 =>
            if colon =? ":" then
              match parse_value fuel r2 with
              | Some (v, r3) =>
                  match skip_ws r3 with
                  | c :: r4 =>
                      if c =? "," then
                        match parse_members fuel r4 with
                        | Some (l, r5) => Some ((k, v) :: l, r5)
                        | None => None
                        end
                      else if c =? "}" then Some ([(k, v)], r4)
                      else None
                  | [] => None
                  end
              | None => None
              end
            else None
        | [] => None
        end
    | None => None
    end.
Proof. unfold quote. cbn [app]. rewrite <- app_assoc. reflexivity. Qed.

Lemma skip_ws_colon r : skip_ws (":" :: r) = ":" :: r.
Proof. reflexivity. Qed.

Lemma parse_members_print (l : list (string * Json)) :
  l <> [] -> Forall (fun kv => parses_back (snd kv)) l ->
  forall fuel rest,
    fold_right (fun kv n => S (need (snd kv) + n)) 0 l <= fuel ->
    parse_members fuel
      (join_comma (map (fun kv => quote (fst kv) ++ ":" :: print (snd kv)) l)
         ++ "}" :: rest)
    = Some (l, rest).
Proof.
  induction l as [|[k v] l IH]; [congruence|].
  intros _ HF fuel rest Hfuel.
  apply Forall_cons in HF as [Hv Hl]. cbn [snd] in Hv.
  cbn [fold_right snd] in Hfuel.
  destruct fuel as [|fuel]; [lia|].
  destruct l as [|kv' l'].
  - cbn [map join_comma fst snd]. rewrite <- app_assoc.
    rewrite parse_members_step, parse_string_escape. cbn [app].
    rewrite skip_ws_colon.
    change (Ascii.eqb ":" ":") with true. cbv iota.
    rewrite Hv by (reflexivity || lia). now at_delim.
  - change (join_comma (map (fun kv => quote (fst kv) ++ ":" :: print (snd kv))
                          ((k, v) :: kv' :: l')))
      with ((quote k ++ ":" :: print v) ++ "," ::
            join_comma (map (fun kv => quote (fst kv) ++ ":" :: print (snd kv))
                          (kv' :: l'))).
    rewrite <- !app_assoc.
    rewrite parse_members_step, parse_string_escape. cbn [app].
    rewrite skip_ws_colon.
    change (Ascii.eqb ":" ":") with true. cbv iota.
    rewrite <- ?app_assoc. cbn [app].
    rewrite Hv by (reflexivity || lia). at_delim.
    rewrite IH; [reflexivity|congruence|assumption|lia].
Qed.

Lemma obj_set_fresh k v o :
  k ∉ map fst o -> obj_set k v o = o ++ [(k, v)].
Proof.
  induction o as [|[k' v'] o IH]; simpl; intros Hk; [reflexivity|].
  apply not_elem_of_cons in Hk as [Hne Hk].
  destruct (String.eqb_spec k k'); [congruence|].
  now rewrite IH.
Qed.

Lemma mk_object_nodup l : NoDup (map fst l) -> mk_object l = l.
Proof.
  unfold mk_object.
  enough (forall acc, NoDup (map fst (acc ++ l)) ->
            fold_left (fun o kv => obj_set (fst kv) (snd kv) o) l acc = acc ++ l) as H.
  { intros Hl. now rewrite (H []). }
  induction l as [|[k v] l IH]; intros acc Hnd; simpl.
  - now rewrite app_nil_r.
  - rewrite obj_set_fresh.
    + rewrite IH; rewrite <- app_assoc; [reflexivity|assumption].
    + rewrite map_app in Hnd. apply NoDup_app in Hnd as (_ & Hdis & _).
      intros Hin. apply (Hdis k Hin). simpl. left.
Qed.

Theorem parse_print v : serializable v = true -> parses_back v.
Proof.
  induction v as [| b | z | s | l IH | l IH] using Json_nested_ind;
    intros Hser fuel rest Hfuel Hrest; (destruct fuel as [|fuel]; [simpl in Hfuel; lia|]).
  - reflexivity.
  - destruct b; reflexivity.
  - cbn [print]. rewrite parse_value_number.
    apply parse_number_print; [|assumption].
    cbn [serializable] in Hser. now apply Z.leb_le in Hser.
  - cbn [print]. now rewrite parse_value_string, parse_string_escape.
  - cbn [print app]. rewrite <- app_assoc. cbn [app]. rewrite parse_value_array.
    destruct l as [|v l]; [reflexivity|].
    cbn [serializable] in Hser. cbn [need] in Hfuel.
    assert (Forall parses_back (v :: l)) as HF.
    { rewrite Forall_forall in IH |- *. intros x Hx. apply IH; [assumption|].
      rewrite forallb_forall in Hser. apply Hser. now apply list_elem_of_In. }
    rewrite parse_elements_print by (congruence || assumption || lia).
    destruct (print_head v) as (c & r & Hc & Hs).
    assert (exists Y, join_comma (map print (v :: l)) ++ "]" :: rest = c :: Y) as [Y ->].
    { destruct l; cbn [map join_comma]; rewrite Hc; [|rewrite <- app_assoc]; eexists; reflexivity. }
    rewrite (value_start_skip_ws _ _ Hs), (value_start_not_close _ Hs). reflexivity.
  - cbn [print app]. rewrite <- app_assoc. cbn [app]. rewrite parse_value_object.
    destruct l as [|[k v] l]; [reflexivity|].
    cbn [serializable] in Hser. apply andb_true_iff in Hser as [Hnd Hser].
    apply bool_decide_eq_true in Hnd. cbn [need] in Hfuel.
    assert (Forall (fun kv => parses_back (snd kv)) ((k, v) :: l)) as HF.
    { rewrite Forall_forall in IH |- *. intros x Hx. apply IH; [assumption|].
      rewrite forallb_forall in Hser. apply Hser. now apply list_elem_of_In. }
    rewrite parse_members_print by (congruence || assumption || lia).
    rewrite mk_object_nodup by assumption.
    assert (exists Y, join_comma (map (fun kv => quote (fst kv) ++ ":" :: print (snd kv))
                                  ((k, v) :: l)) ++ "}" :: rest = "034" :: Y) as [Y ->].
    { destruct l; cbn [map join_comma fst]; unfold quote; cbn [app]; eexists; reflexivity. }
    reflexivity.
Qed.

Lemma need_elements (l : list Json) :
  Forall (fun v => need v <= length (print v)) l ->
  fold_right (fun x n => S (need x + n)) 0 l <= S (length (join_comma (map print l))).
Proof.
  induction l as [|x l IH]; intros HF; cbn [fold_right]; [lia|].
  apply Forall_cons in HF as [Hx Hl]. specialize (IH Hl).
  destruct l as [|y l'].
  - cbn [map join_comma fold_right]. lia.
  - change (join_comma (map print (x :: y :: l')))
      with (print x ++ "," :: join_comma (map print (y :: l'))).
    rewrite length_app. cbn [length]. lia.
Qed.

Lemma need_members (l : list (string * Json)) :
  Forall (fun kv => need (snd kv) <= length (print (snd kv))) l ->
  fold_right (fun kv n => S (need (snd kv) + n)) 0 l
  <= S (length (join_comma (map (fun kv => quote (fst kv) ++ ":" :: print (snd kv)) l))).
Proof.
  induction l as [|x l IH]; intros HF; cbn [fold_right]; [lia|].
  apply Forall_cons in HF as [Hx Hl]. specialize (IH Hl).
  destruct l as [|y l'].
  - cbn [map join_comma fold_right]. rewrite ?length_app. cbn [length]. lia.
  - change (join_comma (map (fun kv => quote (fst kv) ++ ":" :: print (snd kv))
                          (x :: y :: l')))
      with ((quote (fst x) ++ ":" :: print (snd x)) ++ "," ::
            join_comma (map (fun kv => quote (fst kv) ++ ":" :: print (snd kv))
                          (y :: l'))).
    rewrite !length_app. cbn [length]. rewrite ?length_app. cbn [length]. lia.
Qed.

Lemma need_le_length v : need v <= length (print v).
Proof.
  induction v as [| b | z | s | l IH | l IH] using Json_nested_ind.
  - simpl. lia.
  - destruct b; simpl; lia.
  - destruct (print_number_head z) as (c & r & Hz & _).
    cbn [need print]. rewrite Hz. simpl. lia.
  - simpl. lia.
  - cbn [need print length]. rewrite length_app. cbn [length].
    pose proof (need_elements l IH). lia.
  - cbn [need print length]. rewrite length_app. cbn [length].
    pose proof (need_members l IH). lia.
Qed.

(** [JSON.parse (JSON.stringify v)] gives [v] back. *)
Theorem parse_stringify v : serializable v = true -> parse (stringify v) = Some v.
Proof.
  intros Hser. unfold parse, stringify.
  rewrite list_ascii_of_string_of_list_ascii.
  pose proof (parse_print v Hser (S (length (print v))) [] ) as H.
  rewrite app_nil_r in H. rewrite H; [reflexivity| |reflexivity].
  pose proof (need_le_length v). lia.
Qed.

(** A text that begins no value is refused. *)
Lemma begins_no_value_parse text : begins_no_value text = true -> parse text = None.
Proof.
  unfold begins_no_value, parse.
  generalize (list_ascii_of_string text). intros s. cbn [parse_value].
  destruct (skip_ws s) as [|c r]; [reflexivity|].
  each_char c; cbn [Ascii.eqb Bool.eqb andb value_start digit_of N_of_ascii N_of_digits
                    N.add N.mul N.eqb Pos.eqb negb orb];
    try (intros H; discriminate H).
  all: try (unfold expect; destruct (strip_prefix _ r); [intros H; discriminate H|reflexivity]).
  all: try (intros _; reflexivity).
  unfold parse_number. cbn [Ascii.eqb Bool.eqb]. unfold parse_unsigned.
  destruct r as [|d r]; [reflexivity|]. cbn [parse_digits].
  destruct (digit_of d); [intros H; discriminate H|reflexivity].
Qed.

End JSONFacts.

Local Open Scope m_scope.

(** * How computations run *)

Section Keeps.
Context (R : World -> World -> Prop) `{!Reflexive R, !Transitive R}.

Lemma keeps_ret {A} (a : A) : keeps R (ret a).
Proof. intros w. unfold keeps_at. reflexivity. Qed.

Lemma keeps_throw {A} e : keeps R (@throw A e).
Proof. intros w. unfold keeps_at. reflexivity. Qed.

Lemma keeps_gets {A} (f : World -> A) : keeps R (gets f).
Proof. intros w. unfold keeps_at. reflexivity. Qed.

Lemma keeps_logDebug s : keeps R (logDebug s).
Proof. intros w. unfold keeps_at. reflexivity. Qed.

Lemma keeps_bind {A B} (m : M A) (k : A -> M B) :
  keeps R m -> (forall a, keeps R (k a)) -> keeps R (bind m k).
Proof.
  intros Hm Hk w. specialize (Hm w). unfold keeps_at, bind in *.
  destruct (m w) as [[a|e] w1]; cbn in *; [|assumption].
  etransitivity; [eassumption|]. apply Hk.
Qed.

Lemma keeps_try_catch {A} (m : M A) (h : string -> M A) :
  keeps R m -> (forall e, keeps R (h e)) -> keeps R (try_catch m h).
Proof.
  intros Hm Hh w. specialize (Hm w). unfold keeps_at, try_catch in *.
  destruct (m w) as [[a|e] w1]; cbn in *; [assumption|].
  etransitivity; [eassumption|]. apply Hh.
Qed.

Lemma keeps_forEach {A} (l : list A) (f : A -> M unit) :
  (forall x, keeps R (f x)) -> keeps R (forEach l f).
Proof.
  intros Hf. induction l as [|x l IH]; cbn [forEach].
  - apply keeps_ret.
  - apply keeps_bind; [apply Hf|intros _; apply IH].
Qed.

Lemma keeps_modify (f : World -> World) :
  (forall w, R w (f w)) -> keeps R (modify f).
Proof. intros Hf w. apply Hf. Qed.

(** What a computation reads from the world it runs in is known. *)
Lemma keeps_at_gets {A B} (f : World -> A) (k : A -> M B) w :
  keeps_at R (k (f w)) w -> keeps_at R (bind (gets f) k) w.
Proof. intros H. exact H. Qed.

Lemma keeps_at_bind {A B} (m : M A) (k : A -> M B) w :
  keeps_at R m w -> (forall a, keeps R (k a)) -> keeps_at R (bind m k) w.
Proof.
  intros Hm Hk. unfold keeps_at, bind in *.
  destruct (m w) as [[a|e] w1]; cbn in *; [|assumption].
  etransitivity; [eassumption|]. apply Hk.
Qed.
End Keeps.

Create HintDb client_ops discriminated.
#[global] Hint Unfold
  emit call_listener notifyStateChangeListeners updateState
  updatePublisherState updateSubscriberState new_promise settle resolve reject
  await setTimeout update_socket set_connectPromise set_socket
  set_reconnectAttempts onopen onclose onerror unsubscribe add_listener
  call_callback JSON_parse get_property spread_listeners onmessage socket_send
  publish publish_resume subscribe
  subscribe_resume socket_close disconnect_close disconnect_finish
  disconnect_sub disconnect_pub disconnect disconnect_pub_resume
  disconnect_sub_resume close_listener force_close onStateChange
  removeStateChangeListener reconnect_catch run_timer run_reaction
  socket_event connectPublisher connectSubscriber
  attemptReconnectPublisher attemptReconnectSubscriber : client_ops.

Create HintDb client_guarded discriminated.
#[global] Hint Unfold
  attemptReconnect connect connect_executor construct reconnect_timer
  : client_guarded.

(** Takes a computation apart; [known] closes the goals about operations
    that read the world before they act, [prim] those about one update. *)
Ltac keeps_go known prim :=
  repeat (intros; first
    [ solve [known]
    | match goal with
      | |- Reflexive _ => exact _
      | |- Transitive _ => exact _
      end
    | apply keeps_ret | apply keeps_throw | apply keeps_gets | apply keeps_logDebug
    | apply keeps_bind | apply keeps_try_catch | apply keeps_forEach
    | apply keeps_modify; intros; prim
    | match goal with
      | |- keeps _ (match ?x with _ => _ end) => destruct x
      | |- keeps _ (let _ := _ in _) => cbv zeta
      end
    | progress autounfold with client_ops ]).

(** The same, for a relation that every operation keeps whatever it reads. *)
Ltac keeps_all prim :=
  repeat (intros; first
    [ match goal with
      | |- Reflexive _ => exact _
      | |- Transitive _ => exact _
      end
    | apply keeps_ret | apply keeps_throw | apply keeps_gets | apply keeps_logDebug
    | apply keeps_bind | apply keeps_try_catch | apply keeps_forEach
    | apply keeps_modify; intros; prim
    | match goal with
      | |- keeps _ (match ?x with _ => _ end) => destruct x
      | |- keeps _ (let _ := _ in _) => cbv zeta
      end
    | progress autounfold with client_ops client_guarded ]).

(** * Extending the trace *)

Lemma extends_refl Q w : extends Q w w.
Proof. exists []. now rewrite app_nil_r. Qed.

Lemma extends_trans Q a b c : extends Q a b -> extends Q b c -> extends Q a c.
Proof.
  intros (n1 & H1 & Q1) (n2 & H2 & Q2). exists (n1 ++ n2). split.
  - now rewrite H2, H1, app_assoc.
  - rewrite forallb_app. now rewrite Q1, Q2.
Qed.

Lemma extends_same Q w w' : trace w' = trace w -> extends Q w w'.
Proof. intros H. exists []. now rewrite app_nil_r. Qed.

Lemma extends_one Q w w' o : trace w' = trace w ++ [o] -> Q o = true -> extends Q w w'.
Proof. intros H HQ. exists [o]. split; [assumption|]. cbn. now rewrite HQ. Qed.

(** * While the client is disconnecting *)

#[global] Instance shut_refl : Reflexive shut.
Proof. intros w H. repeat split; auto using extends_refl. Qed.

#[global] Instance shut_trans : Transitive shut.
Proof.
  intros a b c Hab Hbc Ha.
  destruct (Hab Ha) as (Hb & Hc1 & Hs1 & He1 & Ht1).
  destruct (Hbc Hb) as (Hc & Hc2 & Hs2 & He2 & Ht2).
  repeat split; try congruence; eauto using extends_trans.
Qed.

Ltac shut_close :=
  repeat split; cbn;
  try assumption; try reflexivity;
  try (rewrite ?length_alter, ?length_insert; reflexivity);
  try (apply extends_same; reflexivity);
  try (eapply extends_one; [cbn; reflexivity | reflexivity]);
  try (intros ? ?; assumption);
  try (intros ? [?|?%list_elem_of_singleton]%elem_of_app; [assumption|discriminate]);
  try (intros ? ?%list_elem_of_delete_inv; assumption).

Ltac shut_prim :=
  idtac;
  match goal with
  | |- shut ?w _ =>
      let H := fresh in
      intros H; destruct w; cbn in *; repeat case_match; shut_close
  end.

Section Shut.
Variable env : Env.

Lemma shut_attemptReconnect r : keeps shut (attemptReconnect env r).
Proof.
  intros w Hd. unfold attemptReconnect, bind, gets. cbn.
  rewrite Hd, orb_true_r. cbn. now apply shut_refl.
Qed.

Lemma shut_connect r : keeps shut (connect env r).
Proof.
  intros w Hd. unfold connect, bind, gets. cbn.
  destruct (connectPromise (conn r w)); [now apply shut_refl|].
  destruct (isSocketConnected w (socket (conn r w))).
  - destruct w; cbn in *. shut_close.
  - rewrite Hd. destruct w; cbn in *. shut_close.
Qed.

Lemma shut_reconnect_timer r : keeps shut (reconnect_timer env r).
Proof.
  intros w Hd. unfold reconnect_timer, bind, gets. cbn.
  rewrite Hd. cbn. now apply shut_refl.
Qed.

Lemma shut_handle e : keeps shut (handle env e).
Proof.
  (destruct e; cbn [handle];
    keeps_go ltac:(first [apply shut_attemptReconnect | apply shut_connect
                         | apply shut_reconnect_timer]) shut_prim).
Qed.

End Shut.

(** * State changes in closed form *)

Section Closed.
Variable env : Env.

Lemma forEach_listeners st r ls w :
  forEach ls (fun listener =>
      try_catch (call_listener env listener st r)
                (fun error => logDebug "Error in state change listener")) w
  = (inl tt, set_trace (trace w ++ map (fun l => O_listener l st r) ls) w).
Proof.
  revert w. induction ls as [|l ls IH]; intros w.
  - cbn. rewrite app_nil_r. now destruct w.
  - cbn [forEach map]. unfold bind at 1.
    assert (try_catch (call_listener env l st r)
              (fun _ => logDebug "Error in state change listener") w
            = (inl tt, set_trace (trace w ++ [O_listener l st r]) w)) as ->.
    { unfold try_catch, call_listener, bind, emit, modify.
      destruct (listener_throws env l st r); reflexivity. }
    rewrite IH. cbn. now rewrite <- app_assoc.
Qed.

Lemma updateState_eq r st w : updateState env r st w = (inl tt, updated r st w).
Proof.
  unfold updateState, notifyStateChangeListeners, bind, emit, modify, gets.
  cbn. rewrite forEach_listeners. cbn. unfold updated, notified.
  rewrite <- app_assoc. reflexivity.
Qed.

Lemma attemptReconnect_eq r w :
  attemptReconnect env r w
  = (inl tt,
     if at_least (reconnectAttempts (conn r w)) (maxReconnectAttempts env)
        || isDisconnecting w
     then w else reconnecting r w).
Proof.
  unfold attemptReconnect, bind, gets. cbv beta iota.
  destruct (at_least (reconnectAttempts (conn r w)) (maxReconnectAttempts env)
            || isDisconnecting w); [reflexivity|].
  rewrite updateState_eq. reflexivity.
Qed.

Lemma set_listeners_same w : set_listeners (listeners w) w = w.
Proof. now destruct w. Qed.

(** Registering under one topic changes what is read under no other, and
    leaves an array where it is read again. *)
Lemma read_slot_insert (regs : gmap string (list Callback)) t cbs t' :
  read_slot regs t <> Inherited ->
  (read_slot (<[t := cbs]> regs) t' = Inherited <-> read_slot regs t' = Inherited).
Proof.
  intros Ht. unfold read_slot in *. destruct (decide (t = t')) as [->|Hne].
  - rewrite lookup_insert_eq. split; [discriminate|intros H; contradiction].
  - rewrite lookup_insert_ne by exact Hne. reflexivity.
Qed.

Lemma pushed_insert (regs : gmap string (list Callback)) t cbs ts :
  read_slot regs t <> Inherited -> pushed (<[t := cbs]> regs) ts = pushed regs ts.
Proof.
  intros Ht. induction ts as [|t' ts IH]; [reflexivity|]. cbn [pushed].
  pose proof (read_slot_insert regs t cbs t' Ht) as [H1 H2].
  destruct (read_slot regs t') eqn:Hr, (read_slot (<[t := cbs]> regs) t') eqn:Hr';
    try reflexivity; try (now rewrite IH);
    try (now discriminate (H1 eq_refl)); try (now discriminate (H2 eq_refl)).
Qed.

Lemma all_pushed_eq regs ts : all_pushed regs ts <-> pushed regs ts = ts.
Proof.
  unfold all_pushed. induction ts as [|t ts IH]; cbn [pushed].
  - split; [reflexivity|]. intros _ t Ht. now apply elem_of_nil in Ht.
  - split.
    + intros H. destruct (read_slot regs t) eqn:Hr.
      * f_equal. apply IH. intros t' Ht'. apply H. now right.
      * exfalso. apply (H t); [now left|exact Hr].
      * f_equal. apply IH. intros t' Ht'. apply H. now right.
    + intros H t' Ht'. destruct (read_slot regs t) eqn:Hr; try discriminate H;
        injection H as H; apply elem_of_cons in Ht' as [->|Ht'];
        try (rewrite Hr; discriminate); now apply IH.
Qed.

(** The loop of subscribe registers the callback under the topics up to the
    first that is inherited, and throws there. *)
Lemma forEach_add_listener_eq callback topicArray w :
  exists result,
    forEach topicArray (add_listener callback) w
    = (result,
       set_listeners
         (registered callback (pushed (listeners w) topicArray) (listeners w)) w)
    /\ (all_pushed (listeners w) topicArray -> result = inl tt)
    /\ (~ all_pushed (listeners w) topicArray -> exists e, result = inr e).
Proof.
  revert w. induction topicArray as [|t ts IH]; intros w; cbn [forEach pushed].
  - exists (inl tt). cbn. rewrite set_listeners_same. split; [reflexivity|].
    split; [reflexivity|]. intros H. exfalso. apply H. intros t Ht.
    now apply elem_of_nil in Ht.
  - unfold bind at 1, add_listener at 1, bind at 1, gets at 1. cbv beta iota.
    destruct (read_slot (listeners w) t) eqn:Hr.
    + unfold modify at 1. cbv beta iota.
      match goal with |- context [forEach ts _ ?u] => destruct (IH u) as (res & -> & H1 & H2) end.
      cbn [listeners set_listeners]. rewrite pushed_insert by (rewrite Hr; discriminate).
      exists res. split; [reflexivity|]. split.
      * intros H. apply H1. intros t' Ht'. cbn [listeners set_listeners].
        rewrite read_slot_insert by (rewrite Hr; discriminate).
        apply H. now right.
      * intros H. apply H2. intros H'. apply H. intros t' Ht'.
        apply elem_of_cons in Ht' as [->|Ht']; [rewrite Hr; discriminate|].
        specialize (H' t' Ht'). cbn [listeners set_listeners] in H'.
        now rewrite read_slot_insert in H' by (rewrite Hr; discriminate).
    + eexists. split.
      { unfold throw, registered. cbn [fold_left]. rewrite set_listeners_same. reflexivity. }
      split.
      * intros H. exfalso. apply (H t); [now left|exact Hr].
      * intros _. eauto.
    + unfold modify at 1. cbv beta iota.
      match goal with |- context [forEach ts _ ?u] => destruct (IH u) as (res & -> & H1 & H2) end.
      cbn [listeners set_listeners]. rewrite pushed_insert by (rewrite Hr; discriminate).
      exists res. split; [reflexivity|]. split.
      * intros H. apply H1. intros t' Ht'. cbn [listeners set_listeners].
        rewrite read_slot_insert by (rewrite Hr; discriminate).
        apply H. now right.
      * intros H. apply H2. intros H'. apply H. intros t' Ht'.
        apply elem_of_cons in Ht' as [->|Ht']; [rewrite Hr; discriminate|].
        specialize (H' t' Ht'). cbn [listeners set_listeners] in H'.
        now rewrite read_slot_insert in H' by (rewrite Hr; discriminate).
Qed.

Lemma forEach_add_listener_pushed callback topicArray w :
  all_pushed (listeners w) topicArray ->
  forEach topicArray (add_listener callback) w
  = (inl tt, set_listeners (registered callback topicArray (listeners w)) w).
Proof.
  intros H. destruct (forEach_add_listener_eq callback topicArray w) as (res & -> & H1 & _).
  rewrite (H1 H). apply all_pushed_eq in H. now rewrite H.
Qed.


End Closed.



(** * The retry counter *)

#[global] Instance stays_bounded_refl max : Reflexive (stays_bounded max).
Proof. intros w H. exact H. Qed.

#[global] Instance stays_bounded_trans max : Transitive (stays_bounded max).
Proof. intros a b c Hab Hbc Ha. auto. Qed.



Section Bounded.
Variable env : Env.
Variable max : Z.
Hypothesis max_integer : maxReconnectAttempts env = Int max.
Hypothesis max_nonneg : 0 <= max.



End Bounded.

#[global] Instance counts_up_refl r : Reflexive (counts_up r).
Proof. intros w. unfold counts_up. lia. Qed.

#[global] Instance counts_up_trans r : Transitive (counts_up r).
Proof. intros a b c. unfold counts_up. lia. Qed.


Section Counter.
Variable env : Env.






End Counter.

(** * When the retries of a role are used up *)

#[global] Instance spent_refl env r : Reflexive (spent env r).
Proof. intros w [H1 H2]. repeat split; auto using extends_refl. Qed.

#[global] Instance spent_trans env r : Transitive (spent env r).
Proof.
  intros a b c Hab Hbc [Ha1 Ha2].
  destruct (Hab (conj Ha1 Ha2)) as (Hb1 & Hb2 & Hb3).
  destruct Hbc as (Hc1 & Hc2 & Hc3); [split; [now rewrite Hb1|assumption]|].
  repeat split; [lia|assumption|eauto using extends_trans].
Qed.




Section Spent.
Variable env : Env.






End Spent.

(** * Promises settle once *)

#[global] Instance stable_refl : Reflexive stable.
Proof. intros w. split; [lia|auto]. Qed.

#[global] Instance stable_trans : Transitive stable.
Proof. intros a b c [H1 H2] [H3 H4]. split; [lia|auto]. Qed.

Lemma stable_push w st :
  stable w (set_promises (promises w ++ [st]) w).
Proof.
  split; unfold settled; cbn [promises set_promises]; [rewrite length_app; lia|].
  intros p o [H1 H2]. split; [|assumption]. now apply lookup_app_l_Some.
Qed.

Lemma stable_settle w p st :
  stable w (match promises w !! p with
            | Some Pending => set_promises (<[p := st]> (promises w)) w
            | _ => w
            end).
Proof.
  destruct (promises w !! p) as [[| |e]|] eqn:Hp; try reflexivity.
  split; unfold settled; cbn [promises set_promises]; [rewrite length_insert; lia|].
  intros q o [H1 H2]. split; [|assumption].
  destruct (decide (p = q)) as [->|Hne].
  - assert (Some o = Some Pending) as Ho by (rewrite <- H1; exact Hp).
    now inversion Ho.
  - now rewrite list_lookup_insert_ne.
Qed.

Ltac stable_prim :=
  idtac;
  match goal with
  | |- stable ?w _ =>
      first [ apply stable_push | apply stable_settle
            | destruct w; unfold stable, settled; cbn; repeat case_match;
              split; [lia|auto] ]
  end.

Lemma stable_handle env e : keeps stable (handle env e).
Proof. destruct e; cbn [handle]; keeps_all stable_prim.
Qed.

(** * What leaves the topic registry and the waiting continuations alone *)

#[global] Instance untouched_refl : Reflexive untouched.
Proof. intros w. split; reflexivity. Qed.

#[global] Instance untouched_trans : Transitive untouched.
Proof. intros a b c [H1 H2] [H3 H4]. split; congruence. Qed.

Ltac untouched_prim :=
  idtac;
  match goal with
  | |- untouched ?w _ =>
      unfold untouched; destruct w; cbn; repeat case_match; split; reflexivity
  end.

Lemma untouched_connect env r : keeps untouched (connect env r).
Proof. keeps_all untouched_prim. Qed.

Section SingleFlight.
Variable env : Env.

Lemma connect_inflight r w p :
  connectPromise (conn r w) = Some p -> connect env r w = (inl p, w).
Proof. intros H. unfold connect, bind, gets. cbv beta iota. now rewrite H. Qed.

Lemma connect_idle r w :
  idle r w ->
  exists w',
    connect env r w = (inl (length (promises w)), w')
    /\ connectPromise (conn r w') = Some (length (promises w))
    /\ ctor_calls w' = S (ctor_calls w)
    /\ reactions w' = reactions w
    /\ (length (promises w') = S (length (promises w)))%nat
    /\ match ctor_throws env (ctor_calls w) with
       | Some _ => sockets w' = sockets w
       | None =>
           length (sockets w') = S (length (sockets w))
           /\ socket (conn r w') = Some (length (sockets w))
           /\ promises w' !! length (promises w) = Some Pending
       end.
Proof.
  intros (Hp & Hc & Hd). unfold connect, bind, gets. cbv beta iota.
  rewrite Hp, Hc, Hd. rewrite updateState_eq.
  unfold new_promise, try_catch, connect_executor, construct, bind, gets, modify.
  unfold update_socket, reject, settle, modify, ret, throw.
  destruct w as [pb sb ls scl dis sks ps rs ts n tr], r; cbn in *;
    (destruct (ctor_throws env n) eqn:Hct; cbn;
     rewrite ?list_lookup_middle by reflexivity;
     eexists; (split; [reflexivity|]); cbn;
     rewrite ?length_insert, ?length_alter, ?length_app; cbn;
     repeat split; try lia; try reflexivity;
     now apply list_lookup_middle).
Qed.

Lemma connect_constructor_throws r w e :
  idle r w -> ctor_throws env (ctor_calls w) = Some e ->
  let p := length (promises w) in
  let w' := snd (connect env r w) in
  fst (connect env r w) = inl p
  /\ connectPromise (conn r w') = Some p
  /\ promises w' = promises w ++ [Rejected e]
  /\ state (conn r w') = Some CONNECTING
  /\ socket (conn r w') = socket (conn r w)
  /\ sockets w' = sockets w
  /\ ctor_calls w' = S (ctor_calls w)
  /\ reactions w' = reactions w
  /\ timers w' = timers w.
Proof.
  intros (Hp & Hc & Hd) He. cbv zeta. unfold connect, bind, gets. cbv beta iota.
  rewrite Hp, Hc, Hd. rewrite updateState_eq.
  unfold new_promise, try_catch, connect_executor, construct, bind, gets, modify.
  unfold set_connectPromise, reject, settle, modify, ret, throw.
  destruct w as [pb sb ls scl dis sks ps rs ts n tr], r; cbn in *;
    rewrite He; cbn; rewrite list_lookup_middle by reflexivity; cbn;
    rewrite insert_app_r_alt by lia; rewrite Nat.sub_diag; cbn;
    repeat split; reflexivity.
Qed.

Lemma connect_constructs r w :
  idle r w -> ctor_throws env (ctor_calls w) = None ->
  let p := length (promises w) in
  let w' := snd (connect env r w) in
  fst (connect env r w) = inl p
  /\ connectPromise (conn r w') = Some p
  /\ promises w' = promises w ++ [Pending]
  /\ state (conn r w') = Some CONNECTING
  /\ socket (conn r w') = Some (length (sockets w))
  /\ sockets w' = sockets w ++ [mkSocket r 0 (Some p) []]
  /\ ctor_calls w' = S (ctor_calls w)
  /\ reactions w' = reactions w
  /\ timers w' = timers w.
Proof.
  intros (Hp & Hc & Hd) He. cbv zeta. unfold connect, bind, gets. cbv beta iota.
  rewrite Hp, Hc, Hd. rewrite updateState_eq.
  unfold new_promise, try_catch, connect_executor, construct, bind, gets, modify.
  unfold update_socket, set_socket, set_connectPromise, emit, logDebug, modify, ret, throw.
  destruct w as [pb sb ls scl dis sks ps rs ts n tr], r; cbn in *;
    rewrite He; cbn;
    rewrite alter_app_r_alt by lia; rewrite Nat.sub_diag; cbn;
    repeat split; reflexivity.
Qed.


Lemma step_request r e w k :
  request r e (length (promises w)) = Some k ->
  step env w e
  = (let w0 := set_promises (promises w ++ [Pending]) w in
     let w1 := snd (connect env r w0) in
     match fst (connect env r w0) with
     | inl p => set_reactions (reactions w1 ++ [(p, k)]) w1
     | inr _ => w1
     end).
Proof.
  destruct r, e; cbn [request]; intros H; try discriminate H;
    injection H as <-; unfold step, exec; cbn [handle];
    unfold publish, subscribe, connectPublisher, connectSubscriber,
      new_promise, await, bind, gets, modify, ret; cbn [fst snd];
    match goal with |- context [connect env ?r ?w0] =>
      destruct (connect env r w0) as [[p|err] w1] end; reflexivity.
Qed.

Lemma connect_returns r w : exists p, fst (connect env r w) = inl p.
Proof.
  destruct (connectPromise (conn r w)) as [p|] eqn:Hp.
  { exists p. now rewrite (connect_inflight r w p Hp). }
  destruct (isSocketConnected w (socket (conn r w))) eqn:Hc.
  { unfold connect, bind, gets. cbv beta iota. rewrite Hp, Hc. cbn. eauto. }
  destruct (isDisconnecting w) eqn:Hd.
  { unfold connect, bind, gets. cbv beta iota. rewrite Hp, Hc, Hd. cbn. eauto. }
  destruct (connect_idle r w) as (w' & -> & _); [now repeat split|]. cbn. eauto.
Qed.

Lemma idle_push r w st : idle r w -> idle r (set_promises (promises w ++ [st]) w).
Proof. intros H. destruct w, r; exact H. Qed.



Lemma settle_returns q st u : settle q st u = (inl tt, snd (settle q st u)).
Proof. reflexivity. Qed.

Lemma settle_pending q st u :
  promises u !! q = Some Pending ->
  promises (snd (settle q st u)) !! q = Some st.
Proof.
  intros Hq. unfold settle, modify. cbn [snd]. rewrite Hq. cbn [promises set_promises].
  apply list_lookup_insert_eq. eapply lookup_lt_Some; eassumption.
Qed.


(** The rest of subscribe settles the promise of the call: with the
    rejection of the attempt, with what the loop throws, or by resolving. *)
Lemma subscribe_resume_settles q callback topicArray o u :
  o <> Pending -> promises u !! q = Some Pending ->
  let u' := snd (subscribe_resume q callback topicArray o u) in
  promises u' !! q <> Some Pending
  /\ (forall e, o = Rejected e -> promises u' !! q = Some (Rejected e))
  /\ (o = Fulfilled -> all_pushed (listeners u) topicArray ->
      promises u' !! q = Some Fulfilled).
Proof.
  intros Ho Hq. cbv zeta. destruct o as [| |e]; [congruence| |].
  - cbn [subscribe_resume]. unfold try_catch, bind.
    destruct (forEach_add_listener_eq callback topicArray u) as (res & -> & H1 & H2).
    set (u1 := set_listeners _ u).
    assert (promises u1 !! q = Some Pending) as Hq1 by exact Hq.
    destruct res as [[]|err].
    + unfold resolve. rewrite settle_returns. cbv beta iota. cbn [snd].
      rewrite (settle_pending q _ u1 Hq1).
      split; [discriminate|]. split; [discriminate|]. reflexivity.
    + unfold reject. rewrite (settle_pending q _ u1 Hq1).
      split; [discriminate|]. split; [discriminate|].
      intros _ Hall. discriminate (H1 Hall).
  - cbn [subscribe_resume]. unfold reject. rewrite (settle_pending q _ u Hq).
    split; [discriminate|]. split; [intros e' [= ->]; reflexivity|discriminate].
Qed.



End SingleFlight.

Section Runs.
Variable env : Env.

Lemma run_keeps (R : World -> World -> Prop) `{!Reflexive R, !Transitive R} :
  (forall e, keeps R (handle env e)) -> forall es w, R w (run env es w).
Proof.
  intros H es. induction es as [|e es IH]; intros w; cbn [run fold_left].
  - reflexivity.
  - etransitivity; [apply (H e w)|apply IH].
Qed.

(** ** The retry counter *)






(** ** Shutdown *)

Lemma connect_shut r w :
  isDisconnecting w = true ->
  connectPromise (conn r w) = None ->
  isSocketConnected w (socket (conn r w)) = false ->
  connect env r w
  = (inl (length (promises w)),
     set_promises (promises w ++ [Rejected "Client is disconnecting"]) w).
Proof.
  intros Hd Hp Hc. unfold connect, bind, gets. cbv beta iota.
  rewrite Hp, Hc, Hd. reflexivity.
Qed.

(** Once isDisconnecting is set, a call of connectPublisher or
    connectSubscriber that finds no promise in the field of the role and no
    open socket returns a promise already rejected with "Client is
    disconnecting" and changes nothing else; and whatever events follow, the
    flag stays set, the WebSocket constructor is not called, no socket is
    added, no role moves to CONNECTING or RECONNECTING, and no reconnect
    timer is added. *)
Theorem shutdown_blocks w :
  isDisconnecting w = true ->
  (forall r,
     connectPromise (conn r w) = None ->
     isSocketConnected w (socket (conn r w)) = false ->
     connect env r w
     = (inl (length (promises w)),
        set_promises (promises w ++ [Rejected "Client is disconnecting"]) w))
  /\ (forall es,
        let w' := run env es w in
        isDisconnecting w' = true
        /\ ctor_calls w' = ctor_calls w
        /\ length (sockets w') = length (sockets w)
        /\ extends calm w w'
        /\ forall r, T_reconnect r ∈ timers w' -> T_reconnect r ∈ timers w).
Proof.
  intros Hd. split.
  - intros r. now apply connect_shut.
  - intros es. exact (run_keeps shut (shut_handle env) es w Hd).
Qed.

End Runs.

(** * Dispatch *)

Lemma not_inherited (t : string) :
  bool_decide (t ∈ inherited) = false -> t ∉ inherited.
Proof. intros H. now apply bool_decide_eq_false in H. Qed.

Lemma wildcard_not_inherited : TOPIC_ALL ∉ inherited.
Proof. apply not_inherited. vm_compute. reflexivity. Qed.

Lemma read_slot_own {A} (own : gmap string (list A)) key array :
  own !! key = Some array -> read_slot own key = Own array.
Proof. intros H. unfold read_slot. now rewrite H. Qed.

Lemma read_slot_named {A} (own : gmap string (list A)) key :
  key ∉ inherited -> read_slot own key <> Inherited.
Proof.
  intros H. unfold read_slot. destruct (own !! key); [discriminate|].
  rewrite bool_decide_eq_false_2 by exact H. discriminate.
Qed.

Lemma read_slot_inherited {A} (own : gmap string (list A)) key :
  read_slot own key = Inherited <-> own !! key = None /\ key ∈ inherited.
Proof.
  unfold read_slot. destruct (own !! key).
  - split; [discriminate|intros [H _]; discriminate H].
  - destruct (decide (key ∈ inherited)) as [Hin|Hin].
    + rewrite bool_decide_eq_true_2 by exact Hin. tauto.
    + rewrite bool_decide_eq_false_2 by exact Hin. split; [discriminate|tauto].
Qed.

Section Dispatch.
Variable env : Env.

(** unsubscribe changes the registry in one way, whether it returns or
    throws. *)
Lemma unsubscribe_eq topic callback w :
  snd (unsubscribe topic callback w)
  = set_listeners (unsubscribed topic callback (listeners w)) w.
Proof.
  unfold unsubscribe, unsubscribed, read_slot, bind, gets, modify, ret, throw.
  cbv beta iota zeta.
  destruct (listeners w !! topic) as [cbs|].
  - destruct callback as [cb|]; [|reflexivity].
    destruct (length (filter (fun c => c <> cb) cbs) =? 0)%nat; reflexivity.
  - destruct (bool_decide (topic ∈ inherited)); [destruct callback|];
      cbn [snd]; now rewrite set_listeners_same.
Qed.

Lemma unsubscribe_returns topic callback w :
  read_slot (listeners w) topic <> Inherited ->
  unsubscribe topic callback w
  = (inl tt, set_listeners (unsubscribed topic callback (listeners w)) w).
Proof.
  intros H. rewrite <- unsubscribe_eq. revert H.
  unfold unsubscribe, read_slot, bind, gets, modify, ret, throw.
  cbv beta iota zeta.
  destruct (listeners w !! topic) as [cbs|].
  - intros _. destruct callback as [cb|]; [|reflexivity].
    destruct (length (filter (fun c => c <> cb) cbs) =? 0)%nat; reflexivity.
  - destruct (bool_decide (topic ∈ inherited)); [intros H; now contradiction H|reflexivity].
Qed.

Lemma unsubscribe_caught topic callback w :
  try_catch (unsubscribe topic callback) (fun error => ret tt) w
  = (inl tt, set_listeners (unsubscribed topic callback (listeners w)) w).
Proof.
  rewrite <- unsubscribe_eq. unfold try_catch.
  destruct (unsubscribe topic callback w) as [[[]|e] w']; reflexivity.
Qed.

Lemma forEach_unsubscribe us w :
  forEach us (fun tc => try_catch (unsubscribe (fst tc) (snd tc)) (fun error => ret tt)) w
  = (inl tt,
     set_listeners
       (fold_left (fun regs tc => unsubscribed (fst tc) (snd tc) regs) us (listeners w)) w).
Proof.
  revert w. induction us as [|[t c] us IH]; intros w; cbn [forEach fold_left].
  - cbn. now rewrite set_listeners_same.
  - unfold bind. rewrite unsubscribe_caught, IH. reflexivity.
Qed.

Lemma call_callback_eq cb topic payload w :
  call_callback env cb topic payload w
  = (match cb_throws (callback_body env cb topic payload) with
     | Some e => inr e
     | None => inl tt
     end,
     set_trace (trace w ++ [called topic payload cb])
       (set_listeners (ran env topic payload (listeners w) cb) w)).
Proof.
  unfold call_callback, bind, emit, modify. cbv beta iota zeta.
  rewrite forEach_unsubscribe.
  destruct (cb_throws _); reflexivity.
Qed.

(** The loop over the listeners of a message: every one of them is called,
    in the order of the list, whether or not an earlier one threw. *)
Lemma forEach_callbacks ls topic payload w :
  forEach ls (fun callback =>
      try_catch (call_callback env callback topic payload)
                (fun error => logDebug "Error in message callback")) w
  = (inl tt,
     set_trace (trace w ++ map (called topic payload) ls)
       (set_listeners (fold_left (ran env topic payload) ls (listeners w)) w)).
Proof.
  revert w. induction ls as [|cb ls IH]; intros w; cbn [forEach fold_left map].
  - cbn. rewrite app_nil_r. now destruct w.
  - unfold bind at 1, try_catch at 1. rewrite call_callback_eq.
    destruct (cb_throws _); cbn [logDebug ret]; rewrite IH; cbn;
      now rewrite <- app_assoc.
Qed.

Lemma spread_listeners_eq key w :
  read_slot (listeners w) key <> Inherited ->
  spread_listeners key w = (inl (default [] (listeners w !! key)), w).
Proof.
  unfold spread_listeners, read_slot, bind, gets, ret, throw. cbv beta iota.
  destruct (listeners w !! key); [reflexivity|].
  destruct (bool_decide (key ∈ inherited)); [intros H; now contradiction H|reflexivity].
Qed.

Lemma spread_listeners_throws key w :
  read_slot (listeners w) key = Inherited ->
  exists e, spread_listeners key w = (inr e, w).
Proof.
  unfold spread_listeners, bind, gets, ret, throw. cbv beta iota.
  intros ->. eauto.
Qed.

Lemma onmessage_envelope data topic payload w :
  envelope data topic payload ->
  read_slot (listeners w) (ToString_value topic) <> Inherited ->
  onmessage env data w
  = (inl tt,
     set_trace (trace w ++ map (called topic payload) (listeners_for w topic))
       (set_listeners
          (fold_left (ran env topic payload) (listeners_for w topic) (listeners w)) w)).
Proof.
  intros (members & text & Hparse & Htopic & Hpayload & Htext) Hslot.
  unfold onmessage, try_catch, bind at 1, JSON_parse. rewrite Hparse.
  unfold ret at 1. unfold bind at 1, get_property at 1, ret at 1.
  rewrite Htopic. unfold bind at 1. rewrite (spread_listeners_eq _ w Hslot).
  unfold bind at 1.
  rewrite (spread_listeners_eq TOPIC_ALL w (read_slot_named _ _ wildcard_not_inherited)).
  fold (listeners_for w topic).
  destruct (Nat.ltb_spec 0 (length (listeners_for w topic))) as [Hlen|Hlen].
  - unfold bind at 1, get_property, ret at 1.
    rewrite Hpayload. cbn [ToString_value ToString]. rewrite Htext.
    pose proof (forEach_callbacks (listeners_for w topic) topic payload w) as H.
    unfold try_catch in H. rewrite H. reflexivity.
  - destruct (listeners_for w topic); [|cbn in Hlen; lia].
    cbn. rewrite app_nil_r. now destruct w.
Qed.

(** For a topic named like a member of Object.prototype, and not a
    property of the registry, the handler throws where it spreads, catches
    that and calls nobody. *)
Lemma onmessage_inherited data topic payload w :
  envelope data topic payload ->
  read_slot (listeners w) (ToString_value topic) = Inherited ->
  onmessage env data w = (inl tt, w).
Proof.
  intros (members & text & Hparse & Htopic & Hpayload & Htext) Hslot.
  unfold onmessage, try_catch, bind at 1, JSON_parse. rewrite Hparse.
  unfold ret at 1. unfold bind at 1, get_property at 1, ret at 1.
  rewrite Htopic. unfold bind at 1.
  destruct (spread_listeners_throws _ w Hslot) as [e ->]. reflexivity.
Qed.


(** subSocket.onmessage is what runs on a message event. *)
Lemma message_event w s sk p data :
  sockets w !! s = Some sk -> s_role sk = subscriber -> s_handlers sk = Some p ->
  step env w (E_message s data) = snd (onmessage env data w).
Proof.
  intros Hs Hr Hp. unfold step, exec. cbn [handle].
  unfold socket_event, bind, gets. cbv beta iota. rewrite Hs, Hp, Hr. reflexivity.
Qed.

Lemma invoked_called topic payload ls : invoked (map (called topic payload) ls) = ls.
Proof. induction ls as [|c ls IH]; [reflexivity|]. cbn. unfold invoked in IH. now rewrite IH. Qed.

(** C6. When an envelope for a specific topic is dispatched, the
    callbacks registered for the topic are called, then those registered for
    the wildcard topic, each as many times as it is registered there and in
    the order of registration. *)
Theorem dispatch_order w data t payload specific wildcard :
  t <> TOPIC_ALL ->
  envelope data (Some (JStr t)) payload ->
  listeners w !! t = Some specific ->
  listeners w !! TOPIC_ALL = Some wildcard ->
  exists new,
    trace (snd (onmessage env data w)) = trace w ++ new
    /\ new = map (called (Some (JStr t)) payload) (specific ++ wildcard)
    /\ invoked new = specific ++ wildcard
    /\ forall cb,
         length (filter (fun c => c = cb) (invoked new))
         = (length (filter (fun c => c = cb) specific)
            + length (filter (fun c => c = cb) wildcard))%nat.
Proof.
  intros Hne Henv Hs Hw.
  rewrite (onmessage_envelope _ _ _ _ Henv)
    by (cbn [ToString_value ToString]; rewrite (read_slot_own _ _ _ Hs); discriminate).
  cbn [snd trace set_trace].
  unfold listeners_for. cbn [ToString_value ToString]. rewrite Hs, Hw. cbn [default].
  eexists. split; [reflexivity|]. split; [reflexivity|].
  rewrite invoked_called. split; [reflexivity|].
  intros cb. now rewrite filter_app, length_app.
Qed.


End Dispatch.

(** * The envelope on the wire *)

Section RoundTrip.
Variable env : Env.
Import JSONFacts.

Lemma publish_message_serializable topic payload :
  serializable (publish_message topic payload) = true.
Proof.
  unfold publish_message. cbn [serializable map fst snd forallb andb].
  rewrite andb_true_r. apply bool_decide_eq_true.
  apply NoDup_cons. split; [|apply NoDup_singleton].
  intros H%list_elem_of_singleton. discriminate H.
Qed.

Lemma publish_frame_envelope topic payload :
  serializable payload = true ->
  envelope (JSON.stringify (publish_message topic payload)) (Some (JStr topic)) payload.
Proof.
  intros Hser. exists [("topic", JStr topic); ("payload", JStr (JSON.stringify payload))],
    (JSON.stringify payload).
  split; [apply parse_stringify, publish_message_serializable|].
  split; [reflexivity|]. split; [reflexivity|].
  now apply parse_stringify.
Qed.

Lemma socket_send_eq s frame w :
  (forall sk, sockets w !! s = Some sk -> readyState sk <> 0) ->
  socket_send s frame w = (inl tt, set_trace (trace w ++ [O_send s frame]) w).
Proof.
  intros H. unfold socket_send, bind, gets, emit, modify. cbv beta iota.
  destruct (sockets w !! s) as [sk|]; [|reflexivity].
  destruct (Z.eqb_spec (readyState sk) 0) as [Hz|Hz]; [|reflexivity].
  now contradiction (H sk eq_refl).
Qed.

Lemma publish_resume_sends result topic payload w s :
  pubSocket w = Some s -> can_send w ->
  trace (snd (publish_resume result topic payload Fulfilled w))
  = trace w ++ [O_send s (JSON.stringify (publish_message topic payload))].
Proof.
  intros Hs Hcan. unfold publish_resume, try_catch, bind at 1, gets at 1.
  cbv beta iota zeta. rewrite Hs. unfold bind.
  rewrite socket_send_eq by (intros sk; now apply Hcan).
  unfold resolve. rewrite settle_returns. cbn [snd].
  unfold settle, modify. cbn [snd]. cbn [promises set_trace].
  now destruct (promises w !! result) as [[]|].
Qed.

(** What publish sends for a topic and a serializable payload is a frame
    from which subSocket.onmessage rebuilds that payload: when the topic is
    not named like a member of Object.prototype, every callback registered
    for the topic or for the wildcard is called with the topic and with a
    payload equal to the one published. *)
Lemma envelope_round_trip topic payload :
  serializable payload = true ->
  let frame := JSON.stringify (publish_message topic payload) in
  (forall w result s,
     pubSocket w = Some s -> can_send w ->
     trace (snd (publish_resume result topic payload Fulfilled w))
     = trace w ++ [O_send s frame])
  /\ (forall w,
        topic ∉ inherited ->
        trace (snd (onmessage env frame w))
        = trace w ++ map (called (Some (JStr topic)) payload)
                       (default [] (listeners w !! topic)
                        ++ default [] (listeners w !! TOPIC_ALL)))
  /\ (forall w s sk p,
        sockets w !! s = Some sk -> s_role sk = subscriber -> s_handlers sk = Some p ->
        step env w (E_message s frame) = snd (onmessage env frame w)).
Proof.
  intros Hser. cbv zeta. split; [|split].
  - intros w result s Hs Hcan. now apply publish_resume_sends.
  - intros w Hnamed.
    rewrite (onmessage_envelope env _ _ _ w (publish_frame_envelope topic payload Hser))
      by now apply read_slot_named.
    reflexivity.
  - intros w s sk p. apply message_event.
Qed.

End RoundTrip.

(** * subscribe *)

Section Subscribe.
Variable env : Env.

Lemma react_pending w i p k :
  reactions w !! i = Some (p, k) -> promises w !! p = Some Pending ->
  step env w (E_react i) = w.
Proof.
  intros Hi Hp. unfold step, exec. cbn [handle]. unfold bind, gets.
  cbv beta iota. now rewrite Hi, Hp.
Qed.

Lemma react_settled w i p k o :
  reactions w !! i = Some (p, k) -> promises w !! p = Some o -> o <> Pending ->
  step env w (E_react i)
  = snd (run_reaction env k o (set_reactions (delete i (reactions w)) w)).
Proof.
  intros Hi Hp Ho. unfold step, exec. cbn [handle]. unfold bind, gets, modify.
  cbv beta iota. rewrite Hi, Hp. destruct o; [congruence|reflexivity..].
Qed.

(** The registry after the rest of subscribe has run on a fulfilled
    attempt: the callback is under the topics up to the first that is
    inherited. *)
Lemma subscribe_resume_registers q callback topicArray u :
  listeners (snd (subscribe_resume q callback topicArray Fulfilled u))
  = registered callback (pushed (listeners u) topicArray) (listeners u).
Proof.
  cbn [subscribe_resume]. unfold try_catch, bind.
  destruct (forEach_add_listener_eq callback topicArray u) as (res & -> & _).
  destruct res as [[]|err]; unfold resolve, reject, settle, modify; cbn [snd];
    cbn [promises set_listeners]; now destruct (promises u !! q) as [[]|].
Qed.

(** What connectSubscriber returns to a call of subscribe, [w0] being the
    world in which the promise of the call has been made. *)
Lemma connect_connected r w :
  connectPromise (conn r w) = None -> isSocketConnected w (socket (conn r w)) = true ->
  connect env r w
  = (inl (length (promises w)), set_promises (promises w ++ [Fulfilled]) w).
Proof.
  intros Hp Hc. unfold connect, bind, gets. cbv beta iota. rewrite Hp, Hc. reflexivity.
Qed.

(** C10. A call of subscribe registers nothing by itself: it leaves its
    continuation waiting for the promise of the connection of the
    subscriber.  That promise is the one of the attempt in flight when
    there is one; on a client that is idle it is the promise of a new
    attempt, pending while the socket made for it is connecting and held by
    the handlers of that socket (or rejected at once with what the
    constructor threw).  While the promise is pending the continuation does
    not run; when it is rejected the continuation leaves the registry as it
    is and rejects the promise of the call with the same error; only when it
    is fulfilled is the callback appended, under each topic up to the first
    that the registry cannot hold. *)
Theorem subscribe_atomic w callback topics :
  let q := length (promises w) in
  let topicArray := topic_array topics in
  let k := K_subscribe q callback topicArray in
  let w1 := step env w (E_subscribe callback topics) in
  listeners w1 = listeners w
  /\ exists p,
       reactions w1 = reactions w ++ [(p, k)]
       /\ (forall p0, subConnectPromise w = Some p0 ->
             p = p0 /\ ctor_calls w1 = ctor_calls w /\ sockets w1 = sockets w
             /\ promises w1 = promises w ++ [Pending])
       /\ (idle subscriber w ->
             p = S q
             /\ subConnectPromise w1 = Some p
             /\ ctor_calls w1 = S (ctor_calls w)
             /\ match ctor_throws env (ctor_calls w) with
                | None =>
                    promises w1 = promises w ++ [Pending; Pending]
                    /\ sockets w1 = sockets w ++ [mkSocket subscriber 0 (Some p) []]
                    /\ subSocket w1 = Some (length (sockets w))
                | Some e =>
                    promises w1 = promises w ++ [Pending; Rejected e]
                    /\ sockets w1 = sockets w
                end)
       /\ (subConnectPromise w = None ->
           isSocketConnected w (subSocket w) = true ->
           p = S q /\ promises w1 = promises w ++ [Pending; Fulfilled]
           /\ ctor_calls w1 = ctor_calls w)
       /\ (subConnectPromise w = None ->
           isSocketConnected w (subSocket w) = false -> isDisconnecting w = true ->
           p = S q
           /\ promises w1 = promises w ++ [Pending; Rejected "Client is disconnecting"]
           /\ ctor_calls w1 = ctor_calls w)
       /\ forall w2 i,
            reactions w2 !! i = Some (p, k) ->
            (promises w2 !! p = Some Pending -> step env w2 (E_react i) = w2)
            /\ (forall e,
                  promises w2 !! p = Some (Rejected e) ->
                  listeners (step env w2 (E_react i)) = listeners w2
                  /\ (promises w2 !! q = Some Pending ->
                      promises (step env w2 (E_react i)) !! q = Some (Rejected e)))
            /\ (promises w2 !! p = Some Fulfilled ->
                listeners (step env w2 (E_react i))
                = registered callback (pushed (listeners w2) topicArray) (listeners w2)
                /\ (all_pushed (listeners w2) topicArray ->
                    listeners (step env w2 (E_react i))
                    = registered callback topicArray (listeners w2)
                    /\ (promises w2 !! q = Some Pending ->
                        promises (step env w2 (E_react i)) !! q = Some Fulfilled))).
Proof.
  cbv zeta.
  assert (request subscriber (E_subscribe callback topics) (length (promises w))
          = Some (K_subscribe (length (promises w)) callback (topic_array topics)))
    as Hreq by reflexivity.
  rewrite (step_request env _ _ _ _ Hreq). cbv zeta.
  set (w0 := set_promises (promises w ++ [Pending]) w).
  assert (length (promises w ++ [Pending]) = S (length (promises w))) as Hlen
    by (rewrite length_app; cbn; lia).
  destruct (untouched_connect env subscriber w0) as [Hl Hr].
  cbn [listeners reactions set_promises] in Hl, Hr.
  destruct (connect_returns env subscriber w0) as [p Hp].
  rewrite Hp. cbn [listeners reactions set_reactions]. split; [assumption|].
  exists p. split; [now rewrite Hr|].
  assert (forall l u, ctor_calls (set_reactions l u) = ctor_calls u
                      /\ sockets (set_reactions l u) = sockets u
                      /\ promises (set_reactions l u) = promises u
                      /\ conn subscriber (set_reactions l u) = conn subscriber u) as Hset
    by (intros l u; now destruct u).
  split; [|split; [|split; [|split]]].
  - intros p0 Hp0.
    assert (connectPromise (conn subscriber w0) = Some p0) as Hp0' by exact Hp0.
    rewrite (connect_inflight env subscriber w0 p0 Hp0') in Hp |- *.
    cbn [fst snd] in *. injection Hp as <-.
    destruct (Hset (reactions w0 ++ [(p0, K_subscribe (length (promises w)) callback
                                            (topic_array topics))]) w0) as (-> & -> & -> & _).
    repeat split; reflexivity.
  - intros Hidle.
    assert (idle subscriber w0) as Hidle0 by (apply idle_push; exact Hidle).
    assert (ctor_calls w0 = ctor_calls w) as Hcalls by reflexivity.
    unfold subConnectPromise, subSocket.
    destruct (ctor_throws env (ctor_calls w)) as [e|] eqn:Hct.
    + destruct (connect_constructor_throws env subscriber w0 e Hidle0 Hct)
        as (H1 & H2 & H3 & H4 & H5 & H6 & H7 & H8 & H9).
      rewrite H1 in Hp. injection Hp as <-.
      match goal with |- context [set_reactions ?l ?u] =>
        destruct (Hset l u) as (-> & -> & -> & Hc) end.
      change (sub (set_reactions ?l ?u)) with (conn subscriber (set_reactions l u)).
      rewrite Hc, H2, H3, H6, H7. subst w0. cbn [promises set_promises sockets ctor_calls].
      rewrite Hlen, <- app_assoc. repeat split; reflexivity.
    + destruct (connect_constructs env subscriber w0 Hidle0 Hct)
        as (H1 & H2 & H3 & H4 & H5 & H6 & H7 & H8 & H9).
      rewrite H1 in Hp. injection Hp as <-.
      match goal with |- context [set_reactions ?l ?u] =>
        destruct (Hset l u) as (-> & -> & -> & Hc) end.
      change (sub (set_reactions ?l ?u)) with (conn subscriber (set_reactions l u)).
      rewrite Hc, H2, H3, H5, H6, H7. subst w0. cbn [promises set_promises sockets ctor_calls].
      rewrite Hlen, <- app_assoc. repeat split; reflexivity.
  - intros Hnone Hopen.
    assert (connectPromise (conn subscriber w0) = None) as Hnone0 by exact Hnone.
    assert (isSocketConnected w0 (socket (conn subscriber w0)) = true) as Hopen0
      by (subst w0; destruct w; exact Hopen).
    rewrite (connect_connected subscriber w0 Hnone0 Hopen0) in Hp |- *.
    cbn [fst snd] in *. injection Hp as <-.
    match goal with |- context [set_reactions ?l ?u] =>
      destruct (Hset l u) as (-> & _ & -> & _) end.
    subst w0. cbn [promises set_promises ctor_calls]. rewrite Hlen, <- app_assoc.
    repeat split; reflexivity.
  - intros Hnone Hclosed Hdis.
    assert (connectPromise (conn subscriber w0) = None) as Hnone0 by exact Hnone.
    assert (isSocketConnected w0 (socket (conn subscriber w0)) = false) as Hclosed0
      by (subst w0; destruct w; exact Hclosed).
    assert (isDisconnecting w0 = true) as Hdis0 by exact Hdis.
    rewrite (connect_shut env subscriber w0 Hdis0 Hnone0 Hclosed0) in Hp |- *.
    cbn [fst snd] in *. injection Hp as <-.
    match goal with |- context [set_reactions ?l ?u] =>
      destruct (Hset l u) as (-> & _ & -> & _) end.
    subst w0. cbn [promises set_promises ctor_calls]. rewrite Hlen, <- app_assoc.
    repeat split; reflexivity.
  - intros w2 i Hi. split; [|split].
    + intros Hpend. eapply react_pending; eassumption.
    + intros e He. rewrite (react_settled _ _ _ _ _ Hi He) by discriminate.
      cbn [run_reaction subscribe_resume]. unfold reject, settle, modify. cbn [snd].
      cbn [promises set_reactions].
      split; [now destruct (promises w2 !! length (promises w)) as [[]|]|].
      intros Hq. rewrite Hq. cbn.
      apply list_lookup_insert_eq. eapply lookup_lt_Some; eassumption.
    + intros Hf. rewrite (react_settled _ _ _ _ _ Hi Hf) by discriminate.
      cbn [run_reaction]. set (u := set_reactions _ w2).
      pose proof (subscribe_resume_registers (length (promises w)) callback
                    (topic_array topics) u) as Hreg.
      subst u. cbn [listeners set_reactions] in Hreg.
      split; [exact Hreg|]. intros Hall. split.
      * rewrite Hreg. apply all_pushed_eq in Hall. now rewrite Hall.
      * intros Hq.
        apply (subscribe_resume_settles (length (promises w)) callback
                 (topic_array topics) Fulfilled
                 (set_reactions (delete i (reactions w2)) w2));
          [discriminate|exact Hq|reflexivity|exact Hall].
Qed.

End Subscribe.

(** * Events of a socket in any world *)

#[global] Instance rests_refl : Reflexive rests.
Proof. intros w. repeat split; reflexivity. Qed.

#[global] Instance rests_trans : Transitive rests.
Proof.
  intros a b c (H1 & H2 & H3) (H4 & H5 & H6).
  split; [congruence|]. split; [congruence|].
  intros r. destruct (H3 r), (H6 r). split; congruence.
Qed.

#[global] Instance cleared_refl r : Reflexive (cleared r).
Proof. intros w H. exact H. Qed.

#[global] Instance cleared_trans r : Transitive (cleared r).
Proof. intros a b c Hab Hbc Ha. auto. Qed.

Ltac rests_prim :=
  unfold rests;
  (split; [reflexivity|split; [reflexivity|intros []; split; reflexivity]]).

Ltac cleared_prim :=
  unfold cleared; intros Hc;
  repeat case_match;
  repeat match goal with r : Role |- _ => destruct r end;
  first [exact Hc | reflexivity].

Section SocketEvents.
Variable env : Env.

(** ** An error, then the close *)

Lemma state_updated r st w : state (conn r (updated r st w)) = st.
Proof. now destruct r, w. Qed.

Lemma alter_in_state n s sk (sks : list Socket) :
  sks !! s = Some sk ->
  alter (fun sk => mkSocket (s_role sk) n (s_handlers sk) (s_closeListeners sk)) s sks
  !! s = Some (in_state n sk).
Proof. intros Hs. rewrite list_lookup_alter, Hs. now rewrite decide_True. Qed.

Lemma step_error s sk p m w :
  sockets w !! s = Some sk -> s_handlers sk = Some p ->
  let r := s_role sk in
  step env w (E_error s m)
  = exec (reject p ("WebSocket error: " +:+ or_default m "Unknown error") ;;
          set_connectPromise r None)
         (updated r (Some ERROR)
            (set_sockets
               (alter (fun sk => mkSocket (s_role sk) 3 (s_handlers sk)
                                          (s_closeListeners sk)) s (sockets w)) w)).
Proof.
  intros Hs Hp r. unfold step, exec. cbn [handle]. unfold socket_event, bind, gets.
  cbv beta iota. rewrite Hs, Hp. unfold update_socket, modify at 1. cbv beta iota.
  unfold onerror, bind, gets. cbv beta iota. rewrite updateState_eq. cbv beta iota.
  unfold logDebug, ret. cbv beta iota. fold r. rewrite state_updated.
  reflexivity.
Qed.

Lemma error_overwrites_connected s sk p m w :
  sockets w !! s = Some sk -> s_handlers sk = Some p ->
  let w' := step env w (E_error s m) in
  state (conn (s_role sk) w') = Some ERROR
  /\ sockets w' !! s = Some (in_state 3 sk)
  /\ stateChangeListeners w' = stateChangeListeners w
  /\ isDisconnecting w' = isDisconnecting w
  /\ trace w' = trace w ++ O_state (s_role sk) (Some ERROR)
                        :: notified (Some ERROR) (s_role sk) w
  /\ timers w' = timers w
  /\ forall r, reconnectAttempts (conn r w') = reconnectAttempts (conn r w).
Proof.
  intros Hs Hp. cbv zeta. rewrite (step_error s sk p m w Hs Hp). cbv zeta.
  unfold exec, bind, reject, settle, set_connectPromise, modify. cbn [fst snd].
  pose proof (alter_in_state 3 s sk (sockets w) Hs) as Ha.
  destruct (s_role sk), w; cbn in *; repeat case_match; cbn; repeat split;
    try reflexivity; try exact Ha; try (intros []; reflexivity);
    unfold notified; cbn; now rewrite <- app_assoc.
Qed.

Lemma step_close_not_connected s sk p m w :
  sockets w !! s = Some sk -> s_handlers sk = Some p ->
  state (conn (s_role sk) w) <> Some CONNECTED ->
  let r := s_role sk in
  step env w (E_close s m)
  = exec (set_connectPromise r None ;;
          reject p ("WebSocket error: " +:+ or_default m "Denied") ;;
          forEach (s_closeListeners sk) (close_listener r))
         (updated r (Some DISCONNECTED)
            (set_sockets
               (alter (fun sk => mkSocket (s_role sk) 3 (s_handlers sk)
                                          (s_closeListeners sk)) s (sockets w)) w)).
Proof.
  intros Hs Hp Hst r. unfold step, exec. cbn [handle].
  unfold socket_event, bind at 1 2 3, gets at 1. cbv beta iota. rewrite Hs.
  unfold update_socket at 1, modify at 1. cbv beta iota. rewrite Hp.
  unfold onclose, bind at 1, gets at 1. cbv beta iota.
  set (w1 := set_sockets _ w).
  assert (state (conn r w1) = state (conn r w)) as Hst1 by now destruct r, w.
  fold r. rewrite Hst1.
  rewrite bool_decide_eq_false_2 by exact Hst.
  cbn [andb negb]. unfold bind at 1. rewrite updateState_eq. cbv beta iota.
  unfold logDebug, ret, bind, gets. cbv beta iota.
  unfold set_connectPromise, reject, settle, modify. cbv beta iota.
  cbn [ConnectionState_get assoc ConnectionState_members String.eqb Ascii.eqb Bool.eqb].
  match goal with
  | |- context [sockets ?v !! s] =>
      assert (sockets v !! s
              = Some (mkSocket (s_role sk) 3 (s_handlers sk) (s_closeListeners sk))) as ->
  end.
  { match goal with
    | |- sockets ?v !! s = _ => assert (sockets v = sockets w1) as ->
    end.
    { destruct r, w1; cbn; repeat case_match; reflexivity. }
    subst w1. cbn [sockets set_sockets]. rewrite list_lookup_alter, Hs.
    now rewrite decide_True. }
  reflexivity.
Qed.

Lemma rests_close_listener r closed : keeps rests (close_listener r closed).
Proof.
  keeps_all ltac:(idtac; repeat case_match; rests_prim).
Qed.

Lemma rests_set_connectPromise r v : keeps rests (set_connectPromise r v).
Proof.
  keeps_all ltac:(idtac; destruct r; rests_prim).
Qed.

Lemma rests_reject p e : keeps rests (reject p e).
Proof.
  keeps_all ltac:(idtac; repeat case_match; rests_prim).
Qed.

(** An error event and then the close event of a socket, whatever the
    state of the role was: no timer is set, the counters stay, and the
    states recorded are ERROR and DISCONNECTED. *)
Lemma close_after_error s sk p m m' w :
  sockets w !! s = Some sk -> s_handlers sk = Some p ->
  let r := s_role sk in
  let w' := run env [E_error s m; E_close s m'] w in
  timers w' = timers w
  /\ (forall r', reconnectAttempts (conn r' w') = reconnectAttempts (conn r' w))
  /\ state (conn r w') = Some DISCONNECTED
  /\ trace w' = trace w ++ O_state r (Some ERROR) :: notified (Some ERROR) r w
                        ++ O_state r (Some DISCONNECTED)
                           :: notified (Some DISCONNECTED) r w.
Proof.
  intros Hs Hp r w'. subst w'. cbn [run fold_left].
  destruct (error_overwrites_connected s sk p m w Hs Hp)
    as (H1 & H2 & H3 & H4 & H5 & H6 & H7).
  fold (step env w (E_error s m)). set (w1 := step env w (E_error s m)) in *.
  fold (step env w1 (E_close s m')).
  rewrite (step_close_not_connected s (in_state 3 sk) p m' w1);
    [|exact H2|exact Hp|cbn [in_state s_role]; congruence].
  cbv zeta. cbn [in_state s_role s_closeListeners]. fold r. fold r in H1, H5.
  match goal with
  | |- context [exec ?c ?u] =>
      assert (rests u (exec c u)) as (R1 & R2 & R3);
        [|set (w2 := exec c u) in *; set (w0 := u) in *]
  end.
  { apply (keeps_bind rests).
    - apply rests_set_connectPromise.
    - intros _. apply (keeps_bind rests).
      + apply rests_reject.
      + intros _. apply (keeps_forEach rests). apply rests_close_listener. }
  assert (timers w0 = timers w1) as T0 by (subst w0; now destruct r, w1).
  assert (forall r', reconnectAttempts (conn r' w0) = reconnectAttempts (conn r' w1)) as A0
    by (intros r'; subst w0; now destruct r, r', w1).
  assert (trace w0 = trace w1 ++ O_state r (Some DISCONNECTED)
                                 :: notified (Some DISCONNECTED) r w1) as Tr0
    by (subst w0; now destruct r, w1).
  split; [congruence|].
  split; [intros r'; destruct (R3 r') as [-> _]; rewrite A0; apply H7|].
  split; [destruct (R3 r) as [_ ->]; subst w0; apply state_updated|].
  rewrite R2, Tr0, H5, <- app_assoc. cbn [app]. unfold notified. rewrite H3.
  reflexivity.
Qed.

(** ** The handlers of a socket that the role no longer uses

    Whatever socket an open, close or error event belongs to, the one the
    role uses or an older one, its handler clears the promise field of the
    role. *)

Lemma cleared_attemptReconnect r r' : keeps (cleared r) (attemptReconnect env r').
Proof. keeps_all cleared_prim. Qed.

Lemma cleared_close_listener r r' closed : keeps (cleared r) (close_listener r' closed).
Proof. keeps_all cleared_prim. Qed.

(** The open, close or error handler of a socket clears the promise field
    of its role, whether or not the role still uses that socket. *)
Lemma handlers_clear_promise s sk p w e :
  sockets w !! s = Some sk -> s_handlers sk = Some p ->
  (exists m, e = E_open s \/ e = E_close s m \/ e = E_error s m) ->
  connectPromise (conn (s_role sk) (step env w e)) = None.
Proof.
  intros Hs Hp (m & [->|[->| ->]]).
  - unfold step, exec. cbn [handle]. unfold socket_event, bind at 1 2, gets at 1.
    cbv beta iota. rewrite Hs, Hp. unfold update_socket, modify at 1. cbv beta iota.
    unfold onopen, bind. rewrite updateState_eq. cbv beta iota.
    unfold set_reconnectAttempts, logDebug, ret, resolve, settle, set_connectPromise, modify.
    cbv beta iota. cbn [snd]. now destruct (s_role sk).
  - unfold step, exec. cbn [handle]. unfold socket_event, bind at 1 2 3, gets at 1.
    cbv beta iota. rewrite Hs. unfold update_socket at 1, modify at 1. cbv beta iota.
    rewrite Hp. set (w1 := set_sockets _ w).
    unfold onclose, bind at 1, gets at 1. cbv beta iota.
    unfold bind at 1. rewrite updateState_eq. cbv beta iota.
    unfold logDebug at 1, bind at 1, ret at 1. cbv beta iota.
    unfold bind at 1, set_connectPromise at 1, modify at 1. cbv beta iota.
    set (w2 := set_conn _ _ _).
    assert (connectPromise (conn (s_role sk) w2) = None) as Hw2
      by (subst w2; now destruct (s_role sk)).
    clearbody w2. generalize (bool_decide (state (conn (s_role sk) w1) = ConnectionState_get "CONNECTED")).
    intros wasConnected. clear w1.
    match goal with
    | |- context [match ?c w2 with _ => _ end] =>
        assert (keeps (cleared (s_role sk)) c) as Hk
    end.
    { keeps_go ltac:(apply cleared_attemptReconnect) cleared_prim. }
    specialize (Hk w2). unfold keeps_at in Hk.
    match goal with
    | |- context [match ?c w2 with _ => _ end] => destruct (c w2) as [[[]|err] w3]
    end; cbn [snd] in *; [|auto].
    unfold bind, gets. cbv beta iota.
    destruct (sockets w3 !! s) as [sk3|]; [|cbn; auto].
    pose proof (keeps_forEach (cleared (s_role sk)) (s_closeListeners sk3)
                  (close_listener (s_role sk3))
                  (cleared_close_listener _ _) w3) as Hl.
    apply Hl. auto.
  - rewrite (step_error s sk p m w Hs Hp). cbv zeta.
    unfold exec, bind, reject, settle, set_connectPromise, modify. cbn [fst snd].
    now destruct (s_role sk).
Qed.

(** ** disconnect when the close event does not come

    Neither the timer of disconnect nor its last steps write a state. *)

Lemma rests_force_close r closed : keeps rests (force_close r closed).
Proof. keeps_all ltac:(idtac; repeat case_match; destruct r; rests_prim). Qed.

Lemma rests_disconnect_finish result : keeps rests (disconnect_finish result).
Proof.
  keeps_all ltac:(idtac; repeat case_match; rests_prim).
Qed.

Lemma force_close_keeps_state i r closed w :
  timers w !! i = Some (T_force_close r closed) ->
  forall r', state (conn r' (step env w (E_timer i))) = state (conn r' w).
Proof.
  intros Hi r'. unfold step, exec. cbn [handle]. unfold bind at 1, gets at 1.
  cbv beta iota. rewrite Hi. unfold bind, modify at 1. cbv beta iota.
  cbn [run_timer].
  destruct (rests_force_close r closed (set_timers (delete i (timers w)) w))
    as (_ & _ & H).
  destruct (H r') as [_ ->]. now destruct r', w.
Qed.

End SocketEvents.

(** C1. The guard of connectPublisher does not hold across the events of
    an older socket: after an error event has cleared pubConnectPromise, a
    new attempt is started, the close event of the old socket clears the
    promise of the new attempt, and the next publish constructs a third
    socket while the second is still connecting; the two calls wait for two
    different pending promises. *)
Theorem stale_close_starts_second_attempt :
  let w := run example_env stale_close initial in
  ctor_calls w = 3%nat
  /\ sockets w !! 1%nat = Some (mkSocket publisher 0 (Some 3%nat) [])
  /\ sockets w !! 2%nat = Some (mkSocket publisher 0 (Some 5%nat) [])
  /\ promises w !! 3%nat = Some Pending
  /\ promises w !! 5%nat = Some Pending
  /\ reactions w = [(1%nat, K_publish 0 "news" a_payload);
                    (3%nat, K_publish 2 "news" a_payload);
                    (5%nat, K_publish 4 "news" a_payload)]
  /\ pubConnectPromise w = Some 5%nat.
Proof. vm_compute. repeat split; reflexivity. Qed.


(** C3. When the socket emits no close event, disconnect resolves
    through its timer and the publisher is left in the state written at the
    start of disconnect, which is not DISCONNECTED; when the close event
    arrives, onclose has set DISCONNECTED. *)
Theorem disconnect_timeout_leaves_state :
  let w := run example_env disconnect_timed_out initial in
  promises w !! 2%nat = Some Fulfilled
  /\ pubSocket w = None
  /\ getPublisherState w = ConnectionState_get "DISCONNECTING"
  /\ getPublisherState w <> Some DISCONNECTED
  /\ getSubscriberState w = Some DISCONNECTED
  /\ getPublisherState (run example_env disconnect_closed initial) = Some DISCONNECTED.
Proof. vm_compute. repeat split; try reflexivity. discriminate. Qed.

(** C5. After an open socket has reported an error, its close event
    schedules no reconnection: onerror has overwritten CONNECTED with ERROR,
    so onclose finds that the role was not connected.  The promise of the
    attempt stays fulfilled.  Without the error event the same close does
    schedule one. *)
Theorem close_after_error_does_not_reconnect :
  let w := run example_env error_then_close initial in
  promises w !! 1%nat = Some Fulfilled
  /\ timers w = []
  /\ pubReconnectAttempts w = 0
  /\ getPublisherState w = Some DISCONNECTED
  /\ trace w = [O_state publisher (Some CONNECTING); O_socket publisher 0;
                O_state publisher (Some CONNECTED);
                O_send 0 (JSON.stringify (publish_message "news" a_payload));
                O_state publisher (Some ERROR);
                O_state publisher (Some DISCONNECTED)]
  /\ (let w' := run example_env (connected_publisher ++ [E_close 0 None]) initial in
      timers w' = [T_reconnect publisher]
      /\ getPublisherState w' = Some RECONNECTING).
Proof. vm_compute. repeat split; reflexivity. Qed.

(** C9. The enum of types.ts has five members and none is named
    DISCONNECTING: what disconnect writes as the state of a role with a
    socket is undefined, which is no connection state. *)
Theorem enum_has_no_disconnecting :
  map fst ConnectionState_members
  = ["DISCONNECTED"; "CONNECTING"; "CONNECTED"; "RECONNECTING"; "ERROR"]
  /\ (forall s : ConnectionState, In s (map snd ConnectionState_members))
  /\ ConnectionState_get "DISCONNECTING" = None
  /\ (let w := run example_env (connected_publisher ++ [E_disconnect]) initial in
      getPublisherState w = None
      /\ last (trace w) = Some (O_close 0)
      /\ O_state publisher None ∈ trace w
      /\ forall s : ConnectionState, getPublisherState w <> Some s).
Proof.
  split; [reflexivity|]. split; [intros []; cbn; tauto|]. split; [reflexivity|].
  vm_compute. repeat split; try reflexivity; try discriminate.
  do 4 apply list_elem_of_further. apply list_elem_of_here.
Qed.

(** C4. A promise rejected by a throwing constructor stays in
    pubConnectPromise, and connectPublisher looks at that field before it
    looks at isDisconnecting: a publish made while disconnect waits for the
    subscriber socket to close is answered with the error of the
    constructor, not with "Client is disconnecting".  The subscriber, whose
    field is empty, is answered with "Client is disconnecting".  No socket
    is constructed in either case. *)
Theorem stale_rejection_answers_during_shutdown :
  let w := run stalled_env shutting_down initial in
  isDisconnecting w = true
  /\ pubSocket w = None
  /\ pubConnectPromise w = Some 1%nat
  /\ promises w !! 1%nat = Some (Rejected "SecurityError")
  /\ fst (connectPublisher stalled_env w) = inl 1%nat
  /\ (let w' := run stalled_env [E_publish "late" a_payload; E_react 1] w in
      promises w' !! 6%nat = Some (Rejected "SecurityError")
      /\ ctor_calls w' = ctor_calls w)
  /\ (let w' := run stalled_env [E_subscribe 8 None; E_react 1] w in
      promises w' !! 6%nat = Some (Rejected "Client is disconnecting")
      /\ ctor_calls w' = ctor_calls w).
Proof. vm_compute. repeat split; reflexivity. Qed.

(** C8. A message published under a topic named like a member of
    Object.prototype does not come back: publish sends the frame, and when
    the frame arrives the handler reads listeners["constructor"], finds the
    function that every object inherits, fails to spread it and drops the
    message, so the callback that listens to every topic is not called.  The
    same payload under the topic "news" is delivered to it.  A subscription
    to the topic "constructor" itself is rejected. *)
Theorem topic_named_like_a_member_is_lost :
  let frame := JSON.stringify (publish_message "constructor" a_payload) in
  let w := run example_env (published "constructor") initial in
  last (trace w) = Some (O_send 1 frame)
  /\ listeners w !! TOPIC_ALL = Some [9%nat]
  /\ step example_env w (E_message 0 frame) = w
  /\ (let frame' := JSON.stringify (publish_message "news" a_payload) in
      let w' := run example_env (published "news") initial in
      last (trace w') = Some (O_send 1 frame')
      /\ trace (step example_env w' (E_message 0 frame'))
         = trace w' ++ [O_callback 9 (Some (JStr "news")) a_payload])
  /\ (let w' := run example_env [E_subscribe 7 (Some (inl "constructor")); E_react 0] w in
      promises w' !! 4%nat
      = Some (Rejected "TypeError: this.listeners[topic].push is not a function")
      /\ listeners w' = listeners w).
Proof. vm_compute. repeat split; reflexivity. Qed.
(** * More of the client *)

Ltac head_of t :=
  lazymatch t with
  | ?f _ => head_of f
  | _ => t
  end.

(** Takes a computation apart down to the state changes, which [known]
    settles in their closed form, and the single updates, left to [prim]. *)
Ltac keeps_by known prim :=
  repeat (intros; first
    [ solve [known]
    | match goal with
      | |- Reflexive _ => exact _
      | |- Transitive _ => exact _
      end
    | apply keeps_ret | apply keeps_throw | apply keeps_gets | apply keeps_logDebug
    | apply keeps_bind | apply keeps_try_catch | apply keeps_forEach
    | apply keeps_modify; intros; prim
    | match goal with
      | |- keeps _ (match ?x with _ => _ end) => destruct x
      | |- keeps _ (let _ := _ in _) => cbv zeta
      end
    | match goal with
      | |- keeps _ ?m => let h := head_of m in progress unfold h
      end ]).

#[global] Instance forgets_refl l : Reflexive (forgets l).
Proof. intros w H. split; [exact H|apply extends_refl]. Qed.

#[global] Instance forgets_trans l : Transitive (forgets l).
Proof.
  intros a b c Hab Hbc Ha. destruct (Hab Ha) as [Hb E1].
  destruct (Hbc Hb) as [Hc E2]. split; [exact Hc|eapply extends_trans; eassumption].
Qed.

Ltac forgets_prim :=
  idtac;
  match goal with
  | |- forgets _ ?w _ =>
      let H := fresh in
      intros H; destruct w; cbn in *; repeat case_match;
      (split;
       [ first [ exact H
               | (intros [?|?%list_elem_of_singleton]%elem_of_app; [contradiction|congruence])
               | (intros [? ?]%list_elem_of_filter; contradiction) ]
       | first [ apply extends_same; reflexivity
               | eapply extends_one; [cbn; reflexivity | reflexivity] ] ])
  end.

#[global] Instance stays_tidy_refl : Reflexive stays_tidy.
Proof. intros w H. exact H. Qed.

#[global] Instance stays_tidy_trans : Transitive stays_tidy.
Proof. intros a b c Hab Hbc Ha. auto. Qed.

Ltac tidy_prim :=
  idtac;
  match goal with
  | |- stays_tidy ?w _ =>
      let H := fresh in
      intros H; destruct w; repeat case_match; exact H
  end.

(** ** Dispatch at the edges *)

Section MoreDispatch.
Variable env : Env.

Lemma unreadable_parse text : unreadable text = true -> JSON.parse text = None.
Proof.
  unfold unreadable. intros [H|H]%orb_true_iff.
  - now apply JSONFacts.begins_no_value_parse.
  - apply String.eqb_eq in H. subst text. vm_compute. reflexivity.
Qed.

Lemma undefined_not_inherited : "undefined" ∉ inherited.
Proof. apply not_inherited. vm_compute. reflexivity. Qed.

(** A frame that begins no JSON value, that is null, or whose payload,
    read as a string, begins no JSON value or is an object (a missing
    payload reads as "undefined") calls no callback, throws nothing and
    changes nothing. *)
Theorem malformed_frame_is_dropped data w :
  undeliverable data -> onmessage env data w = (inl tt, w).
Proof.
  intros [H|(message & Hparse & H)];
    unfold onmessage, try_catch, bind at 1, JSON_parse.
  - now rewrite (JSONFacts.begins_no_value_parse _ H).
  - rewrite Hparse. unfold ret at 1.
    destruct H as [->|H]; [reflexivity|]. apply unreadable_parse in H.
    assert (forall topic : option Json,
              (let (r, w') :=
                 (specific <- spread_listeners (ToString_value topic) ;;
                  wildcard <- spread_listeners TOPIC_ALL ;;
                  let ls := specific ++ wildcard in
                  if (0 <? length ls)%nat
                  then
                    payload <- ret (payload_of message) ;;
                    match JSON.parse (ToString_value payload) with
                    | None => logDebug "Failed to parse message payload"
                    | Some parsedPayload =>
                        forEach ls (fun callback =>
                          try_catch (call_callback env callback topic parsedPayload)
                                    (fun error => logDebug "Error in message callback"))
                    end
                  else ret tt) w in
               match r with
               | inl a => (inl a, w')
               | inr e => logDebug "Error processing WebSocket message" w'
               end) = (inl tt, w)) as Hrest.
    { intros topic. unfold bind at 1.
      destruct (read_slot (listeners w) (ToString_value topic)) eqn:Hslot.
      - rewrite (spread_listeners_eq _ w) by (rewrite Hslot; discriminate).
        unfold bind at 1.
        rewrite (spread_listeners_eq TOPIC_ALL w
                   (read_slot_named _ _ wildcard_not_inherited)).
        cbv zeta. destruct (0 <? length _)%nat; [|reflexivity].
        unfold bind, ret. now rewrite H.
      - destruct (spread_listeners_throws _ w Hslot) as [e ->]. reflexivity.
      - rewrite (spread_listeners_eq _ w) by (rewrite Hslot; discriminate).
        unfold bind at 1.
        rewrite (spread_listeners_eq TOPIC_ALL w
                   (read_slot_named _ _ wildcard_not_inherited)).
        cbv zeta. destruct (0 <? length _)%nat; [|reflexivity].
        unfold bind, ret. now rewrite H. }
    destruct message; try reflexivity;
      unfold bind at 1, get_property at 1, ret at 1; try apply Hrest.
Qed.

(** A message whose topic is the wildcard name itself reaches every
    wildcard callback twice. *)
Theorem wildcard_topic_calls_twice data payload w :
  envelope data (Some (JStr TOPIC_ALL)) payload ->
  let wildcard := default [] (listeners w !! TOPIC_ALL) in
  exists new,
    trace (snd (onmessage env data w)) = trace w ++ new
    /\ new = map (called (Some (JStr TOPIC_ALL)) payload) (wildcard ++ wildcard)
    /\ invoked new = wildcard ++ wildcard.
Proof.
  intros Henv wildcard.
  rewrite (onmessage_envelope env _ _ _ _ Henv)
    by apply read_slot_named, wildcard_not_inherited.
  cbn [snd trace set_trace]. eexists. split; [reflexivity|].
  unfold listeners_for. cbn [ToString_value ToString]. fold wildcard.
  split; [reflexivity|]. apply invoked_called.
Qed.

(** A message without a topic is looked up under the key "undefined": the
    callbacks subscribed to a topic of that name receive it, then the
    wildcard callbacks, all with an undefined topic. *)
Theorem missing_topic_reads_undefined data payload w :
  envelope data None payload ->
  exists new,
    trace (snd (onmessage env data w)) = trace w ++ new
    /\ new = map (called None payload)
               (default [] (listeners w !! "undefined")
                ++ default [] (listeners w !! TOPIC_ALL)).
Proof.
  intros Henv.
  rewrite (onmessage_envelope env _ _ _ _ Henv)
    by apply read_slot_named, undefined_not_inherited.
  cbn [snd trace set_trace]. eexists. split; reflexivity.
Qed.

(** When the wildcard name is among the topics given to subscribe, the
    callback is registered once, under the wildcard name only; an empty
    array registers nothing. *)
Theorem subscribe_wildcard_absorbs result callback topics w :
  let w' := exec (subscribe_resume result callback (topic_array topics) Fulfilled) w in
  (TOPIC_ALL ∈ named topics ->
   listeners w'
   = <[TOPIC_ALL := default [] (listeners w !! TOPIC_ALL) ++ [callback]]> (listeners w))
  /\ (named topics = [] -> listeners w' = listeners w).
Proof.
  cbv zeta. unfold exec. rewrite subscribe_resume_registers.
  unfold topic_array. fold (named topics). split.
  - intros Hin. rewrite bool_decide_eq_true_2 by exact Hin.
    assert (pushed (listeners w) [TOPIC_ALL] = [TOPIC_ALL]) as ->; [|reflexivity].
    apply all_pushed_eq. intros t ->%list_elem_of_singleton.
    apply read_slot_named, wildcard_not_inherited.
  - intros ->. rewrite bool_decide_eq_false_2 by apply not_elem_of_nil. reflexivity.
Qed.

(** After unsubscribe, a message for the topic calls what is left of the
    topic's callbacks, in their order, and then the wildcard callbacks. *)
Theorem unsubscribed_callback_not_called data t payload callback w :
  t ∉ inherited -> t <> TOPIC_ALL ->
  envelope data (Some (JStr t)) payload ->
  let w1 := exec (unsubscribe t callback) w in
  let kept := match callback with
              | Some cb => filter (fun c => c <> cb) (default [] (listeners w !! t))
              | None => []
              end in
  exists new,
    trace (snd (onmessage env data w1)) = trace w1 ++ new
    /\ invoked new = kept ++ default [] (listeners w !! TOPIC_ALL).
Proof.
  intros Hnamed Hne Henv w1 kept.
  rewrite (onmessage_envelope env _ _ _ _ Henv) by now apply read_slot_named.
  cbn [snd trace set_trace]. eexists. split; [reflexivity|].
  rewrite invoked_called. unfold listeners_for. cbn [ToString_value ToString].
  subst w1. unfold exec. rewrite unsubscribe_eq. cbn [snd listeners set_listeners].
  unfold unsubscribed. subst kept.
  destruct (listeners w !! t) as [cbs|] eqn:Ht.
  - cbn [default]. unfold id. destruct callback as [cb|].
    + cbv zeta. destruct (Nat.eqb_spec (length (filter (fun c => c <> cb) cbs)) 0) as [Hz|Hz].
      * rewrite lookup_delete_eq, lookup_delete_ne by congruence.
        apply length_zero_iff_nil in Hz. unfold id. cbn [default]. now rewrite Hz.
      * rewrite lookup_insert_eq, lookup_insert_ne by congruence. reflexivity.
    + rewrite lookup_delete_eq, lookup_delete_ne by congruence. reflexivity.
  - rewrite Ht. destruct callback; reflexivity.
Qed.

End MoreDispatch.

(** ** The topic registry *)

Section Registry.

Lemma registered_cons callback t ts regs :
  registered callback (t :: ts) regs
  = registered callback ts (<[t := default [] (regs !! t) ++ [callback]]> regs).
Proof. reflexivity. Qed.

Lemma registered_lookup callback ts : forall regs t,
  (t ∉ ts -> registered callback ts regs !! t = regs !! t)
  /\ (t ∈ ts -> exists n, registered callback ts regs !! t
                          = Some (default [] (regs !! t) ++ repeat callback (S n))).
Proof.
  induction ts as [|t0 ts IH]; intros regs t.
  - split; [reflexivity|]. intros H. now apply elem_of_nil in H.
  - rewrite registered_cons.
    destruct (IH (<[t0 := default [] (regs !! t0) ++ [callback]]> regs) t) as [IH1 IH2].
    split.
    + intros Hn. apply not_elem_of_cons in Hn as [Hne Hn].
      rewrite (IH1 Hn). now rewrite lookup_insert_ne by congruence.
    + intros Hin. destruct (decide (t ∈ ts)) as [Hts|Hts].
      * destruct (IH2 Hts) as [n ->].
        destruct (decide (t0 = t)) as [->|Hne].
        -- rewrite lookup_insert_eq. exists (S n). cbn.
           rewrite <- app_assoc. reflexivity.
        -- rewrite lookup_insert_ne by exact Hne. now exists n.
      * rewrite (IH1 Hts). apply elem_of_cons in Hin as [->|Hin]; [|contradiction].
        rewrite lookup_insert_eq. now exists 0%nat.
Qed.

Lemma unsubscribed_lookup callback t0 regs t :
  unsubscribed t0 (Some callback) regs !! t
  = if decide (t = t0) then cleaned callback (regs !! t) else regs !! t.
Proof.
  unfold unsubscribed, cleaned. destruct (decide (t = t0)) as [->|Hne].
  - destruct (regs !! t0) as [l|] eqn:Hl; [|exact Hl]. cbv zeta.
    destruct (filter _ l) eqn:Hf; cbn [length Nat.eqb].
    + apply lookup_delete_eq.
    + apply lookup_insert_eq.
  - destruct (regs !! t0) as [l|]; [|reflexivity]. cbv zeta.
    destruct (length _ =? 0)%nat.
    + now rewrite lookup_delete_ne by congruence.
    + now rewrite lookup_insert_ne by congruence.
Qed.

Lemma cleaned_idem callback cbs : cleaned callback (cleaned callback cbs) = cleaned callback cbs.
Proof.
  destruct cbs as [l|]; [|reflexivity]. cbn [cleaned].
  destruct (filter _ l) as [|c kept] eqn:Hf; [reflexivity|]. cbn [cleaned].
  assert (filter (fun c => c <> callback) (c :: kept) = c :: kept) as ->; [|reflexivity].
  rewrite <- Hf, list_filter_filter. apply list_filter_iff. intros x. tauto.
Qed.

Lemma unsubscribed_all_lookup callback ts : forall regs t,
  fold_left (fun regs t => unsubscribed t (Some callback) regs) ts regs !! t
  = if decide (t ∈ ts) then cleaned callback (regs !! t) else regs !! t.
Proof.
  induction ts as [|t0 ts IH]; intros regs t; cbn [fold_left].
  - destruct (decide (t ∈ [])) as [H|_]; [now apply elem_of_nil in H|reflexivity].
  - rewrite IH, unsubscribed_lookup.
    destruct (decide (t ∈ ts)) as [Hts|Hts], (decide (t = t0)) as [->|Hne];
      destruct (decide (_ ∈ _ :: _)) as [Hin|Hin]; try reflexivity.
    + apply cleaned_idem.
    + exfalso. apply Hin. now right.
    + exfalso. apply Hin. now right.
    + exfalso. apply Hin. now left.
    + exfalso. apply elem_of_cons in Hin as [?|?]; contradiction.
Qed.

Lemma filter_other (callback : Callback) (l : list Callback) :
  callback ∉ l -> filter (fun c => c <> callback) l = l.
Proof.
  induction l as [|c l IHl]; [reflexivity|]. intros Hl.
  apply not_elem_of_cons in Hl as [Hc Hl].
  rewrite filter_cons_True by congruence. now rewrite IHl.
Qed.

Lemma cleaned_appended callback (regs : gmap string (list Callback)) t n :
  callback ∉ default [] (regs !! t) -> regs !! t <> Some [] ->
  cleaned callback (Some (default [] (regs !! t) ++ repeat callback n)) = regs !! t.
Proof.
  intros Hnot Hne. cbn [cleaned]. rewrite filter_app.
  assert (filter (fun c => c <> callback) (repeat callback n) = []) as ->.
  { induction n as [|n IHn]; [reflexivity|]. cbn [repeat].
    rewrite filter_cons_False by (intros H; now apply H). exact IHn. }
  rewrite app_nil_r.
  assert (filter (fun c => c <> callback) (default [] (regs !! t)) = default [] (regs !! t)) as ->.
  { now apply filter_other. }
  destruct (regs !! t) as [[|c l]|]; [congruence|reflexivity|reflexivity].
Qed.

Lemma cleaned_same callback (regs : gmap string (list Callback)) t :
  callback ∉ default [] (regs !! t) -> regs !! t <> Some [] ->
  cleaned callback (regs !! t) = regs !! t.
Proof.
  intros Hnot Hne. pose proof (cleaned_appended callback regs t 0 Hnot Hne) as H.
  cbn [repeat] in H. rewrite app_nil_r in H.
  destruct (regs !! t) as [l|] eqn:Hl; [exact H|reflexivity].
Qed.

Lemma subscribe_resume_returns result callback topicArray o w :
  fst (subscribe_resume result callback topicArray o w) = inl tt.
Proof.
  destruct o; cbn [subscribe_resume]; try reflexivity.
  all: unfold try_catch, bind;
    destruct (forEach topicArray (add_listener callback) w) as [[[]|e] w']; reflexivity.
Qed.

Lemma forEach_unsubscribe_named callback (l : list string) : forall w,
  (forall t, t ∈ l -> t ∉ inherited) ->
  forEach l (fun t => unsubscribe t (Some callback)) w
  = (inl tt,
     set_listeners
       (fold_left (fun regs t => unsubscribed t (Some callback) regs) l (listeners w)) w).
Proof.
  induction l as [|t l IH]; intros w Hl; cbn [forEach fold_left].
  - cbn. now rewrite set_listeners_same.
  - unfold bind.
    rewrite unsubscribe_returns by (apply read_slot_named, Hl, list_elem_of_here).
    rewrite IH by (intros t' Ht'; apply Hl; now right). reflexivity.
Qed.

(** Unsubscribing a callback from the topics it was subscribed to gives the
    registry back, when the callback was not registered for them before. *)
Theorem unsubscribe_undoes_subscribe result callback topics w :
  (forall t, t ∈ named topics -> t ∉ inherited) ->
  (forall t, t ∈ named topics ->
     (callback ∉ default [] (listeners w !! t)) /\ listeners w !! t <> Some []) ->
  listeners
    (exec (subscribe_resume result callback (topic_array topics) Fulfilled ;;
           forEach (named topics) (fun t => unsubscribe t (Some callback))) w)
  = listeners w.
Proof.
  intros Hnamed Hfresh. unfold exec, bind at 1.
  pose proof (subscribe_resume_registers result callback (topic_array topics) w) as Hw1.
  assert (all_pushed (listeners w) (topic_array topics)) as Hall.
  { intros t Ht. apply read_slot_named. revert Ht. unfold topic_array. fold (named topics).
    case_bool_decide as Hin.
    - intros ->%list_elem_of_singleton. apply wildcard_not_inherited.
    - apply Hnamed. }
  apply all_pushed_eq in Hall. rewrite Hall in Hw1. clear Hall.
  pose proof (subscribe_resume_returns result callback (topic_array topics) Fulfilled w) as Hr.
  destruct (subscribe_resume result callback (topic_array topics) Fulfilled w) as [res w1].
  cbn [fst snd] in Hw1, Hr. subst res.
  rewrite (forEach_unsubscribe_named callback (named topics) w1 Hnamed).
  cbn [snd listeners set_listeners].
  rewrite Hw1. apply map_eq. intros t.
  rewrite unsubscribed_all_lookup.
  unfold topic_array. fold (named topics).
  destruct (decide (TOPIC_ALL ∈ named topics)) as [Hall|Hall].
  - rewrite bool_decide_eq_true_2 by exact Hall.
    destruct (registered_lookup callback [TOPIC_ALL] (listeners w) t) as [R1 R2].
    destruct (decide (t ∈ named topics)) as [Hin|Hin].
    + destruct (Hfresh t Hin) as [Hnot Hne].
      destruct (decide (t = TOPIC_ALL)) as [->|Hta].
      * destruct R2 as [n ->]; [apply list_elem_of_here|].
        now apply cleaned_appended.
      * rewrite R1 by (intros H; apply list_elem_of_singleton in H; contradiction).
        now apply cleaned_same.
    + apply R1. intros H. apply list_elem_of_singleton in H. congruence.
  - rewrite bool_decide_eq_false_2 by exact Hall.
    destruct (registered_lookup callback (named topics) (listeners w) t) as [R1 R2].
    destruct (decide (t ∈ named topics)) as [Hin|Hin].
    + destruct (Hfresh t Hin) as [Hnot Hne]. destruct (R2 Hin) as [n ->].
      now apply cleaned_appended.
    + now apply R1.
Qed.

End Registry.

Section Tidy.
Variable env : Env.

Lemma tidy_unsubscribe topic callback : keeps stays_tidy (unsubscribe topic callback).
Proof.
  intros w. unfold keeps_at. rewrite unsubscribe_eq. cbn [snd].
  intros H t. cbn [listeners set_listeners]. unfold unsubscribed.
  destruct (listeners w !! topic) as [cbs|]; [|apply H].
  destruct callback as [cb|].
  - cbv zeta. destruct (Nat.eqb_spec (length (filter (fun c => c <> cb) cbs)) 0) as [Hz|Hz].
    + destruct (decide (t = topic)) as [->|Hne].
      * now rewrite lookup_delete_eq.
      * rewrite lookup_delete_ne by congruence. apply H.
    + destruct (decide (t = topic)) as [->|Hne].
      * rewrite lookup_insert_eq. intros [= Hnil]. now rewrite Hnil in Hz.
      * rewrite lookup_insert_ne by congruence. apply H.
  - destruct (decide (t = topic)) as [->|Hne].
    + now rewrite lookup_delete_eq.
    + rewrite lookup_delete_ne by congruence. apply H.
Qed.

Lemma tidy_add_listener callback topic : keeps stays_tidy (add_listener callback topic).
Proof.
  intros w H t. unfold add_listener, bind, gets, modify, throw. cbv beta iota.
  destruct (read_slot (listeners w) topic); cbn [snd listeners set_listeners];
    try apply H.
  all: destruct (decide (t = topic)) as [->|Hne];
    [rewrite lookup_insert_eq; intros [= Hnil]; now apply app_eq_nil in Hnil as [_ ?]
    |rewrite lookup_insert_ne by congruence; apply H].
Qed.

Lemma tidy_attemptReconnect r : keeps stays_tidy (attemptReconnect env r).
Proof. keeps_all tidy_prim. Qed.

Lemma tidy_connect r : keeps stays_tidy (connect env r).
Proof. keeps_all tidy_prim. Qed.

Lemma tidy_reconnect_timer r : keeps stays_tidy (reconnect_timer env r).
Proof.
  unfold reconnect_timer.
  keeps_go ltac:(apply tidy_connect) tidy_prim.
Qed.

Lemma tidy_handle e : keeps stays_tidy (handle env e).
Proof.
  destruct e; cbn [handle];
    keeps_go ltac:(first [apply tidy_unsubscribe | apply tidy_add_listener
                         | apply tidy_attemptReconnect | apply tidy_connect
                         | apply tidy_reconnect_timer]) tidy_prim.
Qed.

(** Whatever happens, no topic is left in the registry with an empty list
    of callbacks. *)
Theorem registry_has_no_empty_topic es :
  tidy (listeners (run env es initial)).
Proof.
  assert (forall w, tidy (listeners w) -> tidy (listeners (run env es w))) as H.
  { induction es as [|e es' IH]; intros w Hw; [exact Hw|].
    cbn [run fold_left]. apply IH. apply (tidy_handle e w Hw). }
  apply H. intros t. cbn. now rewrite lookup_empty.
Qed.

End Tidy.

(** ** State-change listeners *)

Section Listeners.
Variable env : Env.



Lemma forgets_updateState l r st : keeps (forgets l) (updateState env r st).
Proof.
  intros w H. unfold keeps_at. rewrite updateState_eq. cbn [snd]. split.
  - now destruct r, w.
  - exists (O_state r st :: notified st r w). split; [now destruct r, w|].
    cbn [forallb not_to andb]. unfold notified.
    induction (stateChangeListeners w) as [|l' ls IH]; [reflexivity|].
    apply not_elem_of_cons in H as [Hne Hls]. cbn [map forallb not_to].
    rewrite bool_decide_eq_false_2 by congruence. cbn. now apply IH.
Qed.

Lemma forgets_handle l e : e <> E_onStateChange l -> keeps (forgets l) (handle env e).
Proof.
  intros He. destruct e; cbn [handle];
    keeps_by ltac:(apply forgets_updateState) forgets_prim.
Qed.

(** Once the function that onStateChange returned has run, the listener
    is registered nowhere, however often it was added, and no later event
    calls it, until it is added again. *)
Theorem removed_listener_never_called l es w :
  Forall (fun e => e <> E_onStateChange l) es ->
  let w0 := step env w (E_removeStateChangeListener l) in
  let w' := run env es w0 in
  stateChangeListeners w0 = filter (fun l' => l' <> l) (stateChangeListeners w)
  /\ (l ∉ stateChangeListeners w')
  /\ exists new, trace w' = trace w0 ++ new
                 /\ forall st r, O_listener l st r ∉ new.
Proof.
  intros Hes w0 w'. split; [reflexivity|].
  assert (l ∉ stateChangeListeners w0) as H0.
  { subst w0. cbn. intros [? ?]%list_elem_of_filter. contradiction. }
  assert (forall u, l ∉ stateChangeListeners u -> forgets l u (run env es u)) as Hrun.
  { clear w0 w' H0. induction Hes as [|e es He Hes IH]; intros u Hu; [reflexivity|].
    cbn [run fold_left]. etransitivity; [apply (forgets_handle l e He u)|].
    apply IH. now apply (forgets_handle l e He u). }
  destruct (Hrun w0 H0 H0) as [H1 (new & Hnew & Hq)]. split; [exact H1|].
  exists new. split; [exact Hnew|]. intros st r Hin.
  rewrite forallb_forall in Hq. apply list_elem_of_In in Hin. specialize (Hq _ Hin).
  cbn in Hq. now rewrite bool_decide_eq_true_2 in Hq.
Qed.

End Listeners.

(** ** The state that the getters return *)

#[global] Instance stays_announced_refl : Reflexive stays_announced.
Proof. intros w H. exact H. Qed.

#[global] Instance stays_announced_trans : Transitive stays_announced.
Proof. intros a b c Hab Hbc Ha. auto. Qed.

Lemma last_state_app r tr o :
  last_state r (tr ++ [o])
  = match o with
    | O_state r' st => if decide (r' = r) then Some st else last_state r tr
    | _ => last_state r tr
    end.
Proof. unfold last_state. rewrite fold_left_app. reflexivity. Qed.

Lemma last_state_notified r tr st r' ls :
  last_state r (tr ++ map (fun l => O_listener l st r') ls) = last_state r tr.
Proof.
  unfold last_state. rewrite fold_left_app.
  generalize (fold_left
    (fun acc o => match o with
                  | O_state r'0 st0 => if decide (r'0 = r) then Some st0 else acc
                  | _ => acc
                  end) tr None).
  induction ls as [|l ls IH]; intros acc; [reflexivity|]. cbn. apply IH.
Qed.

Ltac announced_prim :=
  idtac;
  match goal with
  | |- stays_announced ?w _ =>
      let H := fresh in let r := fresh "r" in
      intros H r; specialize (H r); destruct w, r;
      repeat match goal with r' : Role |- _ => destruct r' end;
      cbn in *; repeat case_match; cbn in *;
      rewrite ?fold_left_app; cbn; exact H
  end.

Section Announced.
Variable env : Env.

Lemma announced_updateState r st : keeps stays_announced (updateState env r st).
Proof.
  intros w H r'. unfold keeps_at. rewrite updateState_eq. cbn [snd].
  specialize (H r').
  assert (trace (updated r st w)
          = (trace w ++ [O_state r st])
              ++ map (fun l => O_listener l st r) (stateChangeListeners w)) as ->
    by (rewrite <- app_assoc; now destruct r, w).
  rewrite last_state_notified, last_state_app.
  destruct (decide (r = r')) as [->|Hne].
  - cbn. apply state_updated.
  - rewrite <- H. destruct r, r', w; try congruence; reflexivity.
Qed.

Lemma announced_handle e : keeps stays_announced (handle env e).
Proof.
  destruct e; cbn [handle];
    keeps_by ltac:(apply announced_updateState) announced_prim.
Qed.

(** Whatever happens, the state that getPublisherState or
    getSubscriberState returns is the state that was announced last for the
    role, and DISCONNECTED before the first announcement. *)
Theorem reported_state_is_last_announced es r :
  let w := run env es initial in
  state (conn r w) = default (Some DISCONNECTED) (last_state r (trace w)).
Proof.
  cbv zeta. revert r. change (announced (run env es initial)).
  assert (forall w, announced w -> announced (run env es w)) as H.
  { induction es as [|e es' IH]; intros w Hw; [exact Hw|].
    cbn [run fold_left]. apply IH. apply (announced_handle e w Hw). }
  apply H. intros []; reflexivity.
Qed.

End Announced.

(** ** Without autoReconnect *)

#[global] Instance stays_retry_free_refl : Reflexive stays_retry_free.
Proof. intros w H. exact H. Qed.

#[global] Instance stays_retry_free_trans : Transitive stays_retry_free.
Proof. intros a b c Hab Hbc Ha. auto. Qed.

Ltac retry_free_close :=
  try assumption; try reflexivity;
  try (intros [?|?%list_elem_of_singleton]%elem_of_app; [contradiction|congruence]);
  try (intros ?%list_elem_of_delete_inv; contradiction).

Ltac retry_free_prim :=
  idtac;
  match goal with
  | |- stays_retry_free ?w _ =>
      let H1 := fresh in let H2 := fresh in let H3 := fresh in let H4 := fresh in
      intros (H1 & H2 & H3 & H4); destruct w;
      repeat match goal with r' : Role |- _ => destruct r' end;
      cbn in *; repeat case_match;
      (split; [let r0 := fresh "r" in intros r0; specialize (H1 r0)
              |split; [let p0 := fresh "p" in let r0 := fresh "r" in
                       intros p0 r0; specialize (H2 p0 r0)
                      |split; [let r0 := fresh "r" in intros r0; specialize (H3 r0)
                              |let r0 := fresh "r" in intros r0; specialize (H4 r0)]]]);
      repeat match goal with r' : Role |- _ => destruct r' end;
      intros; cbn in *; repeat case_match; cbn in *; retry_free_close
  end.

Section NoAutoReconnect.
Variable env : Env.
Hypothesis manual : autoReconnect env = false.

Lemma retry_free_updateState r st :
  st <> Some RECONNECTING -> keeps stays_retry_free (updateState env r st).
Proof.
  intros Hst w (H1 & H2 & H3 & H4). unfold keeps_at. rewrite updateState_eq. cbn [snd].
  split; [|split; [|split]].
  - intros r0. specialize (H1 r0). now destruct r, w.
  - intros p0 r0. specialize (H2 p0 r0). now destruct r, w.
  - intros r0. specialize (H3 r0). now destruct r, r0, w.
  - intros r0. specialize (H4 r0).
    assert (trace (updated r st w) = trace w ++ O_state r st :: notified st r w) as ->
      by now destruct r, w.
    intros [Hin|Hin]%elem_of_app; [contradiction|].
    apply elem_of_cons in Hin as [Heq|Hin]; [congruence|].
    unfold notified in Hin. apply list_elem_of_fmap in Hin as (l & Hl & _). discriminate.
Qed.

Ltac retry_free_known :=
  apply retry_free_updateState; cbn; discriminate.

Lemma retry_free_onclose r p message :
  keeps stays_retry_free (onclose env r p message).
Proof.
  unfold onclose. rewrite manual.
  apply keeps_bind; try exact _; [apply keeps_gets; exact _|]. intros st.
  rewrite andb_false_r. cbn [andb].
  keeps_by retry_free_known retry_free_prim.
Qed.

Lemma retry_free_handle e w :
  keeps_at stays_retry_free (handle env e) w.
Proof.
  destruct e; cbn [handle].
  1-6, 8-10:
    revert w; change (keeps stays_retry_free ?m) with (keeps stays_retry_free m);
    unfold socket_event;
    keeps_by ltac:(first [apply retry_free_onclose | retry_free_known]) retry_free_prim.
  - (* open *)
    revert w; change (keeps stays_retry_free ?m) with (keeps stays_retry_free m).
    unfold socket_event.
    keeps_by ltac:(first [apply retry_free_onclose | retry_free_known]) retry_free_prim.
  - (* a timer *)
    intros Hw. generalize Hw. change (keeps_at stays_retry_free
      (t <- gets (fun w => timers w !! i) ;;
       match t with
       | Some t => modify (fun w => set_timers (delete i (timers w)) w) ;; run_timer env t
       | None => ret tt
       end) w).
    apply keeps_at_gets.
    destruct (timers w !! i) as [t|] eqn:Ht; [|apply keeps_ret; exact _].
    destruct t as [r|r c].
    { exfalso. destruct Hw as (H1 & _). apply (H1 r).
      eapply list_elem_of_lookup_2. eassumption. }
    revert w Hw Ht. intros w _ _. revert w.
    change (keeps stays_retry_free ?m) with (keeps stays_retry_free m).
    keeps_by retry_free_known retry_free_prim.
  - (* a continuation *)
    intros Hw. generalize Hw. change (keeps_at stays_retry_free
      (rk <- gets (fun w => reactions w !! i) ;;
       match rk with
       | Some (p, k) =>
           st <- gets (fun w => promises w !! p) ;;
           match st with
           | Some Pending | None => ret tt
           | Some outcome =>
               modify (fun w => set_reactions (delete i (reactions w)) w) ;;
               run_reaction env k outcome
           end
       | None => ret tt
       end) w).
    apply keeps_at_gets.
    destruct (reactions w !! i) as [[p k]|] eqn:Hr; [|apply keeps_ret; exact _].
    assert (forall r, k <> K_reconnect_catch r) as Hk.
    { intros r ->. destruct Hw as (_ & H2 & _). apply (H2 p r).
      eapply list_elem_of_lookup_2. eassumption. }
    revert w Hw Hr. intros w _ _. revert w.
    change (keeps stays_retry_free ?m) with (keeps stays_retry_free m).
    destruct k as [q t pl|q cb ta|r|q|q]; [| |now destruct (Hk r)| |];
      keeps_by retry_free_known retry_free_prim.
Qed.

(** With autoReconnect off the client never retries: whatever happens, no
    reconnect timer is set, RECONNECTING is never announced and the retry
    counters stay 0. *)
Theorem no_retry_without_autoReconnect es :
  let w := run env es initial in
  (forall r, T_reconnect r ∉ timers w)
  /\ (forall r, reconnectAttempts (conn r w) = 0)
  /\ (forall r, O_state r (Some RECONNECTING) ∉ trace w).
Proof.
  cbv zeta.
  assert (forall w, retry_free w -> retry_free (run env es w)) as H.
  { induction es as [|e es' IH]; intros w Hw; [exact Hw|].
    cbn [run fold_left]. apply IH. apply (retry_free_handle e w Hw). }
  destruct (H initial) as (H1 & _ & H3 & H4).
  - repeat split; intros; try apply not_elem_of_nil. now destruct r.
  - auto.
Qed.

End NoAutoReconnect.

(** ** The life of a connection *)

#[global] Instance stays_settled_refl c : Reflexive (stays_settled c).
Proof. intros w H. exact H. Qed.

#[global] Instance stays_settled_trans c : Transitive (stays_settled c).
Proof. intros a b d Hab Hbd Ha. auto. Qed.

#[global] Instance untouched_sockets_refl : Reflexive untouched_sockets.
Proof. intros w. reflexivity. Qed.

#[global] Instance untouched_sockets_trans : Transitive untouched_sockets.
Proof. intros a b c Hab Hbc. unfold untouched_sockets in *. congruence. Qed.

Lemma keeps_if (R : World -> World -> Prop) {A} (c : bool) (a b : M A) :
  keeps R a -> keeps R b -> keeps R (if c then a else b).
Proof. now destruct c. Qed.

Section Lifecycle.
Variable env : Env.

Lemma step_close s sk p m w :
  sockets w !! s = Some sk -> s_handlers sk = Some p ->
  let r := s_role sk in
  let wasConnected := bool_decide (state (conn r w) = Some CONNECTED) in
  step env w (E_close s m)
  = exec (set_connectPromise r None ;;
          (if wasConnected && autoReconnect env && negb (isDisconnecting w)
           then attemptReconnect env r else ret tt) ;;
          (if negb wasConnected
           then reject p ("WebSocket error: " +:+ or_default m "Denied")
           else ret tt) ;;
          forEach (s_closeListeners sk) (close_listener r))
         (updated r (Some DISCONNECTED)
            (set_sockets
               (alter (fun sk => mkSocket (s_role sk) 3 (s_handlers sk)
                                          (s_closeListeners sk)) s (sockets w)) w)).
Proof.
  intros Hs Hp r wasConnected. unfold step, exec. cbn [handle].
  unfold socket_event, bind at 1 2 3, gets at 1. cbv beta iota. rewrite Hs.
  unfold update_socket at 1, modify at 1. cbv beta iota. rewrite Hp.
  unfold onclose, bind at 1, gets at 1. cbv beta iota.
  set (w1 := set_sockets _ w).
  assert (state (conn r w1) = state (conn r w)) as Hst1 by now destruct r, w.
  fold r. rewrite Hst1.
  change (ConnectionState_get "CONNECTED") with (Some CONNECTED).
  change (ConnectionState_get "DISCONNECTED") with (Some DISCONNECTED).
  fold wasConnected.
  unfold bind at 1. rewrite updateState_eq. cbv beta iota.
  unfold logDebug at 1, bind at 1, ret at 1. cbv beta iota.
  unfold bind at 1 5, set_connectPromise, modify. cbv beta iota.
  set (w2 := set_conn r _ _).
  assert (isDisconnecting w2 = isDisconnecting w) as Hd by (subst w2 w1; now destruct r, w).
  unfold bind at 1, gets at 1. cbv beta iota. rewrite Hd.
  unfold bind at 1 3.
  set (c1 := if wasConnected && autoReconnect env && negb (isDisconnecting w)
             then attemptReconnect env r else ret tt).
  assert (keeps untouched_sockets c1) as K1.
  { subst c1. apply keeps_if; [|apply keeps_ret; exact _].
    keeps_all ltac:(idtac; unfold untouched_sockets; repeat case_match;
                    repeat match goal with r' : Role |- _ => destruct r' end;
                    reflexivity). }
  specialize (K1 w2). unfold keeps_at, untouched_sockets in K1.
  destruct (c1 w2) as [[[]|e1] w3]; cbn [snd] in K1; [|reflexivity].
  unfold bind at 1 2.
  set (c2 := if negb wasConnected then reject p _ else ret tt).
  assert (keeps untouched_sockets c2) as K2.
  { subst c2. apply keeps_if; [|apply keeps_ret; exact _].
    keeps_all ltac:(idtac; unfold untouched_sockets; repeat case_match; reflexivity). }
  specialize (K2 w3). unfold keeps_at, untouched_sockets in K2.
  destruct (c2 w3) as [[[]|e2] w4]; cbn [snd] in K2; [|reflexivity].
  unfold bind, gets. cbv beta iota.
  assert (sockets w4 !! s
          = Some (mkSocket (s_role sk) 3 (s_handlers sk) (s_closeListeners sk))) as ->.
  { rewrite K2, K1. subst w2 w1.
    assert (forall u c, sockets (set_conn r c u) = sockets u) as Hsc
      by (intros u c; now destruct r, u).
    rewrite Hsc.
    assert (forall u st, sockets (updated r st u) = sockets u) as Hsu
      by (intros u st; now destruct r, u).
    rewrite Hsu. cbn [sockets set_sockets]. rewrite list_lookup_alter, Hs.
    now rewrite decide_True. }
  reflexivity.
Qed.

Lemma rests_if (c : bool) (a b : M unit) :
  keeps rests a -> keeps rests b -> keeps rests (if c then a else b).
Proof. apply keeps_if. Qed.

Lemma rests_close_tail r p e (c : bool) l :
  keeps rests ((if c then reject p e else ret tt) ;; forEach l (close_listener r)).
Proof.
  apply keeps_bind; try exact _.
  - apply keeps_if; [apply rests_reject|apply keeps_ret; exact _].
  - intros _. apply keeps_forEach; try exact _. intros c'. apply rests_close_listener.
Qed.

(** When a socket closes whose role was CONNECTED, with autoReconnect on
    and no disconnect under way, a retry is scheduled and RECONNECTING is
    announced after DISCONNECTED, unless the retries are used up: then the
    role stays DISCONNECTED. *)
Theorem close_of_connected_socket s sk p m w :
  sockets w !! s = Some sk -> s_handlers sk = Some p ->
  state (conn (s_role sk) w) = Some CONNECTED ->
  autoReconnect env = true -> isDisconnecting w = false ->
  let r := s_role sk in
  let attempts := reconnectAttempts (conn r w) in
  let w' := step env w (E_close s m) in
  let closed := O_state r (Some DISCONNECTED) :: notified (Some DISCONNECTED) r w in
  if at_least attempts (maxReconnectAttempts env)
  then timers w' = timers w
       /\ reconnectAttempts (conn r w') = attempts
       /\ state (conn r w') = Some DISCONNECTED
       /\ trace w' = trace w ++ closed
  else timers w' = timers w ++ [T_reconnect r]
       /\ reconnectAttempts (conn r w') = attempts + 1
       /\ state (conn r w') = Some RECONNECTING
       /\ trace w' = trace w ++ closed
                       ++ O_state r (Some RECONNECTING)
                          :: notified (Some RECONNECTING) r w.
Proof.
  intros Hs Hp Hst Hauto Hdis r attempts w' closed. subst w'.
  rewrite (step_close s sk p m w Hs Hp). cbv zeta. fold r.
  fold r in Hst. rewrite Hst, Hauto, Hdis.
  rewrite bool_decide_eq_true_2 by reflexivity. cbn [andb negb].
  set (w1 := updated r _ _).
  set (w2 := set_conn r (with_connectPromise None (conn r w1)) w1).
  set (w3 := if at_least attempts (maxReconnectAttempts env) then w2 else reconnecting r w2).
  set (tail := ret tt ;; forEach (s_closeListeners sk) (close_listener r)).
  assert (exec (set_connectPromise r None ;; attemptReconnect env r ;; tail) w1
          = exec tail w3) as ->.
  { unfold exec, bind at 1, set_connectPromise, modify. cbv beta iota. fold w2.
    unfold bind at 1. rewrite attemptReconnect_eq. cbv beta iota.
    assert (isDisconnecting w2 = false) as ->
      by (subst w2 w1; rewrite <- Hdis; now destruct r, w).
    assert (reconnectAttempts (conn r w2) = attempts) as ->
      by (subst w2 w1 attempts; now destruct r, w).
    rewrite orb_false_r. reflexivity. }
  pose proof (rests_close_tail r p "" false (s_closeListeners sk) w3) as (R1 & R2 & R3).
  subst tail. cbv iota in R1, R2, R3. unfold exec. rewrite R1, R2. destruct (R3 r) as [-> ->].
  subst w3 w2 w1 closed attempts.
  destruct (at_least (reconnectAttempts (conn r w)) (maxReconnectAttempts env)).
  - destruct r, w; cbn; repeat split; reflexivity.
  - unfold reconnecting. destruct r, w; cbn; repeat split; try reflexivity;
      now rewrite <- app_assoc.
Qed.

Lemma close_listener_settles r c u :
  fst (close_listener r c u) = inl tt
  /\ promises (snd (close_listener r c u)) !! c <> Some Pending.
Proof.
  unfold close_listener, bind, gets, update_socket, resolve, settle, modify, ret.
  cbv beta iota.
  destruct (socket (conn r u)); cbn [fst snd]; (split; [reflexivity|]);
    cbn [promises set_sockets];
    (destruct (promises u !! c) as [[| |e]|] eqn:Hc; cbn [promises set_promises set_sockets];
     rewrite ?Hc; try discriminate;
     rewrite list_lookup_insert_eq by (eapply lookup_lt_Some; eassumption); discriminate).
Qed.

Lemma settled_settle c c' st : st <> Pending -> keeps (stays_settled c) (settle c' st).
Proof.
  intros Hst. apply keeps_modify. intros w Hc.
  destruct (promises w !! c') as [[| |e]|] eqn:Hc'; try exact Hc.
  cbn [promises set_promises]. destruct (decide (c = c')) as [->|Hne].
  - rewrite list_lookup_insert_eq by (eapply lookup_lt_Some; eassumption). congruence.
  - now rewrite list_lookup_insert_ne by congruence.
Qed.

Lemma settled_close_listener c r c' : keeps (stays_settled c) (close_listener r c').
Proof.
  unfold close_listener, resolve.
  keeps_go ltac:(apply settled_settle; discriminate)
           ltac:(idtac; unfold stays_settled; intros Hc; exact Hc).
Qed.

Lemma close_listeners_settle r c : forall l u,
  c ∈ l -> promises (exec (forEach l (close_listener r)) u) !! c <> Some Pending.
Proof.
  induction l as [|c' l IH]; intros u Hin; [now apply elem_of_nil in Hin|].
  unfold exec. cbn [forEach]. unfold bind.
  destruct (close_listener_settles r c' u) as [Hok Hset].
  destruct (close_listener r c' u) as [[[]|e] u']; cbn [fst snd] in *; [|discriminate].
  destruct (decide (c = c')) as [->|Hne].
  - apply (keeps_forEach (stays_settled c') l (close_listener r)
             (settled_close_listener c' r) u'). exact Hset.
  - apply elem_of_cons in Hin as [?|Hin]; [contradiction|]. now apply IH.
Qed.

(** While a disconnect is under way, the close event of a socket leaves
    its role DISCONNECTED, schedules no retry, and settles every promise
    that disconnect waits for on that socket. *)
Theorem close_while_disconnecting s sk p m w :
  sockets w !! s = Some sk -> s_handlers sk = Some p ->
  isDisconnecting w = true ->
  let r := s_role sk in
  let w' := step env w (E_close s m) in
  state (conn r w') = Some DISCONNECTED
  /\ timers w' = timers w
  /\ (forall r', reconnectAttempts (conn r' w') = reconnectAttempts (conn r' w))
  /\ forall c, c ∈ s_closeListeners sk -> promises w' !! c <> Some Pending.
Proof.
  intros Hs Hp Hdis r w'. subst w'.
  rewrite (step_close s sk p m w Hs Hp). cbv zeta. fold r.
  rewrite Hdis. cbn [negb]. rewrite andb_false_r. cbv iota.
  set (w1 := updated r _ _).
  set (w2 := set_conn r (with_connectPromise None (conn r w1)) w1).
  set (c := negb _). set (e := "WebSocket error: " +:+ _).
  assert (forall tail : M unit,
            exec (set_connectPromise r None ;; ret tt ;; tail) w1 = exec tail w2) as ->
    by reflexivity.
  pose proof (rests_close_tail r p e c (s_closeListeners sk) w2) as (R1 & R2 & R3).
  unfold exec.
  split; [destruct (R3 r) as [_ ->]; subst w2 w1; now destruct r, w|].
  split; [rewrite R1; subst w2 w1; now destruct r, w|].
  split; [intros r'; destruct (R3 r') as [-> _]; subst w2 w1; now destruct r, r', w|].
  intros c0 Hin. unfold bind.
  destruct ((if c then reject p e else ret tt) w2) as [[[]|err] w3] eqn:Hc.
  - now apply close_listeners_settle.
  - exfalso. destruct c; cbn in Hc; discriminate.
Qed.

Lemma rests_timers_connect r w : timers (snd (connect env r w)) = timers w.
Proof.
  assert (keeps (fun u u' => timers u' = timers u) (connect env r)) as H.
  { assert (Reflexive (fun u u' : World => timers u' = timers u)) by (intros u; reflexivity).
    assert (Transitive (fun u u' : World => timers u' = timers u))
      by (intros a b c Hab Hbc; congruence).
    keeps_all ltac:(idtac; repeat case_match;
                    repeat match goal with r' : Role |- _ => destruct r' end;
                    reflexivity). }
  apply H.
Qed.

Lemma step_open s sk p w :
  sockets w !! s = Some sk -> s_handlers sk = Some p ->
  let r := s_role sk in
  step env w (E_open s)
  = exec (set_reconnectAttempts r 0 ;; resolve p ;; set_connectPromise r None)
         (updated r (Some CONNECTED)
            (set_sockets
               (alter (fun sk0 => mkSocket (s_role sk0) 1 (s_handlers sk0)
                                           (s_closeListeners sk0))
                      s (sockets w)) w)).
Proof.
  intros Hs Hp r. unfold step, exec. cbn [handle]. unfold socket_event, bind, gets.
  cbv beta iota. rewrite Hs, Hp. unfold update_socket, modify. cbv beta iota.
  unfold onopen, bind. rewrite updateState_eq. cbv beta iota.
  unfold logDebug, ret. cbv beta iota. fold r. reflexivity.
Qed.

(** When a socket opens whose attempt is pending, the attempt is
    fulfilled, the role is CONNECTED and announced so, its retry counter is
    0 and its promise field is clear; nothing else of the role or of the
    other role changes. *)
Theorem open_fulfils_attempt s sk p w :
  sockets w !! s = Some sk -> s_handlers sk = Some p ->
  promises w !! p = Some Pending ->
  let r := s_role sk in
  let w' := step env w (E_open s) in
  promises w' = <[p := Fulfilled]> (promises w)
  /\ sockets w' = <[s := mkSocket r 1 (Some p) (s_closeListeners sk)]> (sockets w)
  /\ conn r w' = mkConn (socket (conn r w)) (Some CONNECTED) 0 None
  /\ (forall r', r' <> r -> conn r' w' = conn r' w)
  /\ trace w' = trace w ++ O_state r (Some CONNECTED) :: notified (Some CONNECTED) r w
  /\ timers w' = timers w
  /\ reactions w' = reactions w
  /\ listeners w' = listeners w.
Proof.
  intros Hs Hp Hpend r w'. subst w'. rewrite (step_open s sk p w Hs Hp). fold r.
  assert (alter (fun sk0 => mkSocket (s_role sk0) 1 (s_handlers sk0) (s_closeListeners sk0))
                s (sockets w)
          = <[s := mkSocket r 1 (Some p) (s_closeListeners sk)]> (sockets w)) as ->.
  { apply list_eq. intros i. rewrite list_lookup_alter.
    destruct (decide (i = s)) as [->|Hne].
    - rewrite decide_True by reflexivity. rewrite Hs. cbn. rewrite Hp.
      now rewrite list_lookup_insert_eq by (eapply lookup_lt_Some; eassumption).
    - rewrite decide_False by congruence.
      now rewrite list_lookup_insert_ne by congruence. }
  unfold exec, bind, set_reconnectAttempts, resolve, settle, set_connectPromise, modify.
  cbn [fst snd]. clearbody r.
  assert (promises (set_conn r (with_reconnectAttempts 0
            (conn r (updated r (Some CONNECTED)
               (set_sockets (<[s := mkSocket r 1 (Some p) (s_closeListeners sk)]> (sockets w)) w))))
            (updated r (Some CONNECTED)
               (set_sockets (<[s := mkSocket r 1 (Some p) (s_closeListeners sk)]> (sockets w)) w)))
          !! p = Some Pending) as ->.
  { rewrite <- Hpend. destruct r, w; reflexivity. }
  unfold updated, notified.
  destruct r, w; cbn; repeat split; try reflexivity;
    try (intros [] ?; try congruence; reflexivity).
Qed.

Lemma publish_resume_fulfilled q topic payload u s :
  pubSocket u = Some s -> can_send u -> promises u !! q = Some Pending ->
  publish_resume q topic payload Fulfilled u
  = (inl tt,
     set_promises (<[q := Fulfilled]> (promises u))
       (set_trace (trace u ++ [O_send s (JSON.stringify (publish_message topic payload))]) u)).
Proof.
  intros Hs Hcan Hq. unfold publish_resume, try_catch, bind at 1, gets at 1.
  cbv beta iota zeta. rewrite Hs. unfold bind.
  rewrite socket_send_eq by (intros sk; now apply Hcan).
  unfold resolve, settle, modify. cbv beta iota.
  cbn [promises set_trace]. now rewrite Hq.
Qed.

(** publish on a role whose socket is open constructs nothing and
    announces nothing: it waits for a promise that is already fulfilled,
    and its continuation sends one frame on that socket. *)
Theorem publish_on_open_socket topic payload s sk w :
  pubConnectPromise w = None -> pubSocket w = Some s ->
  sockets w !! s = Some sk -> readyState sk = 1 ->
  let q := length (promises w) in
  let w1 := step env w (E_publish topic payload) in
  let w2 := step env w1 (E_react (length (reactions w))) in
  ctor_calls w1 = ctor_calls w
  /\ sockets w1 = sockets w
  /\ trace w1 = trace w
  /\ promises w1 = promises w ++ [Pending; Fulfilled]
  /\ reactions w1 = reactions w ++ [(S q, K_publish q topic payload)]
  /\ trace w2 = trace w ++ [O_send s (JSON.stringify (publish_message topic payload))]
  /\ promises w2 = promises w ++ [Fulfilled; Fulfilled]
  /\ reactions w2 = reactions w.
Proof.
  intros Hp Hs Hsk Hready q w1 w2.
  assert (w1 = set_reactions (reactions w ++ [(S q, K_publish q topic payload)])
                 (set_promises (promises w ++ [Pending; Fulfilled]) w)) as Hw1.
  { subst w1 q. unfold step, exec. cbn [handle].
    unfold publish, connectPublisher, connect, new_promise, await, bind, gets, modify, ret.
    cbv beta iota. unfold pubConnectPromise, pubSocket in *.
    destruct w as [pb sb ls scl dis sks ps rs ts n tr]. cbn in *.
    rewrite Hp. unfold isSocketConnected. cbn. rewrite Hs, Hsk, Hready. cbn.
    rewrite length_app, Nat.add_1_r, <- app_assoc. reflexivity. }
  assert (w2 = step env w1 (E_react (length (reactions w)))) as Hw2 by reflexivity.
  clearbody w1 w2.
  assert (reactions w1 !! length (reactions w) = Some (S q, K_publish q topic payload)) as Hr.
  { rewrite Hw1. cbn [reactions set_reactions]. now apply list_lookup_middle. }
  assert (promises w1 !! S q = Some Fulfilled) as Hf.
  { rewrite Hw1. cbn [promises set_reactions set_promises]. subst q.
    rewrite lookup_app_r by lia.
    now replace (S (length (promises w)) - length (promises w))%nat with 1%nat by lia. }
  rewrite (react_settled env _ _ _ _ _ Hr Hf) in Hw2 by discriminate.
  cbn [run_reaction] in Hw2.
  assert (forall (l : list (PromiseId * Kont)) x, delete (length l) (l ++ [x]) = l) as Hdel.
  { induction l as [|y l IH]; intros x; [reflexivity|]. cbn. now rewrite IH. }
  rewrite (publish_resume_fulfilled q topic payload _ s) in Hw2;
    [ | rewrite Hw1; now destruct w
      | rewrite Hw1; intros s' sk' Hs' Hsk';
        unfold pubSocket in *; destruct w; cbn in *;
        assert (s' = s) as -> by congruence;
        assert (sk' = sk) as -> by congruence;
        lia
      | rewrite Hw1; cbn [promises set_reactions set_promises]; subst q;
        now apply list_lookup_middle ].
  subst w2 w1. cbn [snd].
  cbn [trace promises reactions set_trace set_promises set_reactions]. rewrite Hdel.
  subst q. rewrite insert_app_r_alt by lia. rewrite Nat.sub_diag. cbn [insert list_insert].
  destruct w; repeat split; reflexivity.
Qed.

(** disconnect on a client without sockets resolves at once and announces
    nothing; the client is left disconnecting. *)
Theorem disconnect_without_sockets w :
  pubSocket w = None -> subSocket w = None ->
  let w' := step env w E_disconnect in
  isDisconnecting w' = true
  /\ promises w' = promises w ++ [Fulfilled]
  /\ trace w' = trace w
  /\ timers w' = timers w
  /\ sockets w' = sockets w
  /\ reactions w' = reactions w
  /\ (forall r, state (conn r w') = state (conn r w)
                /\ connectPromise (conn r w') = None).
Proof.
  intros Hp Hs w'. subst w'. unfold step, exec. cbn [handle].
  unfold disconnect, disconnect_pub, disconnect_sub, disconnect_close, disconnect_finish.
  unfold new_promise, set_connectPromise, resolve, settle, logDebug, bind, gets, modify, ret.
  cbv beta iota. unfold pubSocket, subSocket in *.
  destruct w as [pb sb ls scl dis sks ps rs ts n tr]. cbn in *.
  rewrite Hp. cbn. rewrite Hs. cbn.
  rewrite list_lookup_middle by reflexivity. cbn.
  rewrite insert_app_r_alt by lia. rewrite Nat.sub_diag. cbn.
  repeat split; try reflexivity; now destruct r.
Qed.


(** When the timer of a retry fires on a role with no attempt in flight
    and no open socket, a new attempt starts as a first one does: a socket
    is constructed, CONNECTING is announced, and the handler that schedules
    the next retry waits for the attempt.  During a disconnect the timer
    does nothing. *)
Theorem reconnect_timer_starts_attempt i r w :
  timers w !! i = Some (T_reconnect r) ->
  let p := length (promises w) in
  let s := length (sockets w) in
  let w' := step env w (E_timer i) in
  timers w' = delete i (timers w)
  /\ (isDisconnecting w = true ->
      w' = set_timers (delete i (timers w)) w)
  /\ (idle r w -> ctor_throws env (ctor_calls w) = None ->
      ctor_calls w' = S (ctor_calls w)
      /\ sockets w' = sockets w ++ [mkSocket r 0 (Some p) []]
      /\ socket (conn r w') = Some s
      /\ state (conn r w') = Some CONNECTING
      /\ connectPromise (conn r w') = Some p
      /\ promises w' = promises w ++ [Pending]
      /\ reactions w' = reactions w ++ [(p, K_reconnect_catch r)]).
Proof.
  intros Hi p s w'.
  assert (w' = exec (reconnect_timer env r) (set_timers (delete i (timers w)) w)) as ->.
  { subst w'. unfold step, exec. cbn [handle]. unfold bind at 1, gets at 1.
    cbv beta iota. rewrite Hi. reflexivity. }
  set (w0 := set_timers (delete i (timers w)) w).
  split.
  { destruct (connect_returns env r w0) as [q Hq].
    pose proof (rests_timers_connect r w0) as Hc.
    unfold exec, reconnect_timer, bind, gets, await, modify. cbv beta iota.
    destruct (isDisconnecting w0); cbn [negb]; [subst w0; now destruct w|].
    destruct (connect env r w0) as [[q'|err] w1]; cbn [fst snd] in *;
      (transitivity (timers w1); [now destruct w1|rewrite Hc; subst w0; now destruct w]). }
  split.
  { intros Hd. unfold exec, reconnect_timer, bind, gets. cbv beta iota.
    assert (isDisconnecting w0 = true) as -> by (subst w0; now destruct w). reflexivity. }
  intros Hidle Hok.
  assert (idle r w0) as Hidle0 by (subst w0; destruct w, r; exact Hidle).
  assert (ctor_throws env (ctor_calls w0) = None) as Hok0 by (subst w0; now destruct w).
  destruct (connect_constructs env r w0 Hidle0 Hok0)
    as (H1 & H2 & H3 & H4 & H5 & H6 & H7 & H8 & H9).
  assert (exec (reconnect_timer env r) w0
          = set_reactions (reactions (snd (connect env r w0)) ++ [(p, K_reconnect_catch r)])
              (snd (connect env r w0))) as ->.
  { unfold exec, reconnect_timer, bind, gets, await, modify. cbv beta iota.
    destruct Hidle0 as (_ & _ & ->). cbn [negb].
    destruct (connect env r w0) as [[q|err] w1]; cbn [fst snd] in *; [|discriminate].
    injection H1 as ->. subst w0 p. now destruct w. }
  set (w1 := snd (connect env r w0)) in *.
  assert (forall l, conn r (set_reactions l w1) = conn r w1) as Hconn
    by (intros l; now destruct w1, r).
  rewrite !Hconn. cbn [ctor_calls sockets promises reactions set_reactions].
  rewrite H2, H3, H4, H5, H6, H7, H8. subst w0 p s.
  destruct w; repeat split; reflexivity.
Qed.

(** When a retry fails, the next one is scheduled, and RECONNECTING is
    announced again, until the counter has reached the maximum or a
    disconnect is under way: then nothing more happens. *)
Theorem failed_retry_schedules_next i p r e w :
  reactions w !! i = Some (p, K_reconnect_catch r) ->
  promises w !! p = Some (Rejected e) ->
  let w0 := set_reactions (delete i (reactions w)) w in
  step env w (E_react i)
  = if at_least (reconnectAttempts (conn r w)) (maxReconnectAttempts env)
       || isDisconnecting w
    then w0
    else set_timers (timers w ++ [T_reconnect r])
           (set_conn r (with_reconnectAttempts (reconnectAttempts (conn r w) + 1)
                          (with_state (Some RECONNECTING) (conn r w)))
              (set_trace (trace w ++ O_state r (Some RECONNECTING)
                                     :: notified (Some RECONNECTING) r w) w0)).
Proof.
  intros Hi Hp w0.
  rewrite (react_settled env w i p (K_reconnect_catch r) (Rejected e) Hi Hp) by discriminate.
  fold w0. cbn [run_reaction reconnect_catch]. unfold bind, logDebug, ret.
  rewrite attemptReconnect_eq. cbn [snd].
  assert (reconnectAttempts (conn r w0) = reconnectAttempts (conn r w)) as ->
    by (subst w0; now destruct w, r).
  assert (isDisconnecting w0 = isDisconnecting w) as -> by (subst w0; now destruct w).
  destruct (_ || _); [reflexivity|].
  unfold reconnecting, updated, notified. subst w0. now destruct w, r.
Qed.

End Lifecycle.

(** * The configuration *)

Module ConfigFacts.
Import Config.
Import Config.Fields.

(** ** Objects *)

Section Objects.
Context {A : Type}.
Implicit Types (o : list (string * A)) (k : string) (v : A).

Lemma assoc_set_property_eq k v o : assoc k (set_property k v o) = Some v.
Proof.
  induction o as [|[k' v'] o IH]; cbn; [now rewrite String.eqb_refl|].
  destruct (String.eqb_spec k k') as [->|Hne]; cbn.
  - now rewrite String.eqb_refl.
  - destruct (String.eqb_spec k k'); [contradiction|exact IH].
Qed.

Lemma assoc_set_property_ne k k' v o :
  k' <> k -> assoc k' (set_property k v o) = assoc k' o.
Proof.
  intros Hne. induction o as [|[k0 v0] o IH]; cbn.
  - destruct (String.eqb_spec k' k); [contradiction|reflexivity].
  - destruct (String.eqb_spec k k0) as [->|Hk]; cbn.
    + destruct (String.eqb_spec k' k0); [contradiction|reflexivity].
    + destruct (String.eqb_spec k' k0); [reflexivity|exact IH].
Qed.

Lemma assoc_None k o : assoc k o = None <-> k ∉ map fst o.
Proof.
  induction o as [|[k' v'] o IH]; cbn.
  - split; [intros _; apply not_elem_of_nil|reflexivity].
  - destruct (String.eqb_spec k k') as [->|Hne].
    + split; [discriminate|]. intros H. exfalso. apply H. apply list_elem_of_here.
    + rewrite IH. rewrite not_elem_of_cons. tauto.
Qed.

Lemma assoc_Some k v o :
  NoDup (map fst o) -> (assoc k o = Some v <-> (k, v) ∈ o).
Proof.
  induction o as [|[k' v'] o IH]; cbn; intros Hnd.
  - split; [discriminate|]. intros H. now apply elem_of_nil in H.
  - apply NoDup_cons in Hnd as [Hk' Hnd].
    destruct (String.eqb_spec k k') as [->|Hne].
    + split.
      * intros [= ->]. apply list_elem_of_here.
      * intros [[= ->]|Hin]%elem_of_cons; [reflexivity|].
        exfalso. apply Hk'. apply list_elem_of_fmap. now exists (k', v).
    + rewrite (IH Hnd). rewrite elem_of_cons. split; [tauto|].
      intros [[= -> _]|H]; [contradiction|exact H].
Qed.

Lemma assoc_Permutation k o o' :
  NoDup (map fst o) -> o ≡ₚ o' -> assoc k o = assoc k o'.
Proof.
  intros Hnd Hp.
  assert (NoDup (map fst o')) as Hnd' by now rewrite <- Hp.
  destruct (assoc k o) as [v|] eqn:Ho.
  - symmetry. apply (assoc_Some _ _ _ Hnd'). rewrite <- Hp. now apply assoc_Some.
  - symmetry. apply assoc_None. rewrite <- Hp. now apply assoc_None.
Qed.

Lemma insert_indexed_Permutation n (kv : string * A) l :
  insert_indexed n kv l ≡ₚ (n, kv) :: l.
Proof.
  induction l as [|[m kv'] l IH]; cbn; [reflexivity|].
  destruct (n <? m)%N; [reflexivity|]. rewrite IH. apply perm_swap.
Qed.

Lemma entries_Permutation o : entries o ≡ₚ o.
Proof.
  unfold entries.
  assert (forall acc,
            map snd (fold_left (fun acc kv =>
                                  match array_index (fst kv) with
                                  | Some n => insert_indexed n kv acc
                                  | None => acc
                                  end) o acc)
            ≡ₚ map snd acc ++ filter (fun kv => ~ array_index (fst kv) = None) o) as H.
  { induction o as [|kv o IH]; intros acc; cbn [fold_left].
    - now rewrite filter_nil, app_nil_r.
    - rewrite IH. destruct (array_index (fst kv)) as [n|] eqn:Hn.
      + rewrite filter_cons_True by congruence.
        rewrite insert_indexed_Permutation. cbn [map snd app].
        apply Permutation_middle.
      + rewrite filter_cons_False by tauto. reflexivity. }
  rewrite H. cbn [map app].
  rewrite (Permutation_app_comm (filter _ o)).
  apply filter_app_complement.
Qed.

Lemma set_property_fresh k v o :
  k ∉ map fst o -> set_property k v o = o ++ [(k, v)].
Proof.
  induction o as [|[k' v'] o IH]; cbn; [reflexivity|]. intros Hn.
  apply not_elem_of_cons in Hn as [Hne Hn].
  destruct (String.eqb_spec k k'); [contradiction|]. now rewrite IH.
Qed.

Lemma fold_set_property (l : list (string * A)) : forall acc,
  NoDup (map fst (acc ++ l)) ->
  fold_left (fun acc kv => set_property (fst kv) (snd kv) acc) l acc = acc ++ l.
Proof.
  induction l as [|[k v] l IH]; intros acc Hnd; cbn [fold_left].
  - now rewrite app_nil_r.
  - cbn [fst snd]. rewrite set_property_fresh.
    + rewrite IH; rewrite <- app_assoc; [reflexivity|exact Hnd].
    + rewrite map_app in Hnd. apply NoDup_app in Hnd as (_ & Hd & _).
      intros Hin. apply (Hd k Hin). cbn. apply list_elem_of_here.
Qed.

Lemma spread_entries o : NoDup (map fst o) -> spread o = entries o.
Proof.
  intros Hnd. unfold spread. apply fold_set_property. cbn [app].
  now rewrite entries_Permutation.
Qed.

Lemma assoc_spread k o : NoDup (map fst o) -> assoc k (spread o) = assoc k o.
Proof.
  intros Hnd. rewrite (spread_entries o Hnd).
  apply assoc_Permutation; [now rewrite entries_Permutation|apply entries_Permutation].
Qed.

End Objects.

(** ** The Authorization header *)

Lemma prefix_append p s : String.prefix p (p +:+ s) = true.
Proof.
  induction p as [|a p IH]; [now destruct s|].
  change (String.prefix (String a p) (String a (p +:+ s)) = true).
  cbn [String.prefix]. destruct (ascii_dec a a); [exact IH|contradiction].
Qed.

Lemma prefix_bearer token : String.prefix "Bearer " (bearer token) = true.
Proof.
  unfold bearer. destruct (String.prefix "Bearer " token) eqn:H; [exact H|].
  apply prefix_append.
Qed.

Lemma bearer_twice token : bearer (bearer token) = bearer token.
Proof. unfold bearer at 1. now rewrite prefix_bearer. Qed.

Lemma truthy_bearer token : truthy (Some (bearer token)) = true.
Proof.
  pose proof (prefix_bearer token) as H. cbn.
  destruct (bearer token); [discriminate H|reflexivity].
Qed.

Lemma map_fst_set_property {A} k (v : A) o :
  map fst (set_property k v o)
  = if bool_decide (k ∈ map fst o) then map fst o else map fst o ++ [k].
Proof.
  induction o as [|[k' v'] o IH]; cbn; [reflexivity|].
  destruct (String.eqb_spec k k') as [->|Hne]; cbn.
  - rewrite bool_decide_eq_true_2 by apply list_elem_of_here. reflexivity.
  - rewrite IH. destruct (decide (k ∈ map fst o)) as [Hin|Hin].
    + rewrite !bool_decide_eq_true_2; [reflexivity|now right|exact Hin].
    + rewrite !bool_decide_eq_false_2; [reflexivity| |exact Hin].
      intros [?|?]%elem_of_cons; contradiction.
Qed.

Lemma NoDup_set_property {A} k (v : A) o :
  NoDup (map fst o) -> NoDup (map fst (set_property k v o)).
Proof.
  intros Hnd. rewrite map_fst_set_property.
  destruct (decide (k ∈ map fst o)) as [Hin|Hin].
  - now rewrite bool_decide_eq_true_2.
  - rewrite bool_decide_eq_false_2 by exact Hin.
    apply NoDup_app. split; [exact Hnd|]. split; [|apply NoDup_singleton].
    intros x Hx ->%list_elem_of_singleton. contradiction.
Qed.

(** The Authorization header of a new client is the one given in the
    options when that is not empty, and otherwise the token with one Bearer
    prefix; it is never empty, and the other headers are those given. *)
Theorem constructor_authorization options :
  let given := default [] (Options.headers options) in
  NoDup (map fst given) ->
  let c := constructor options in
  assoc "Authorization" (headers c)
  = Some (if truthy (assoc "Authorization" given)
          then default "" (assoc "Authorization" given)
          else bearer (Options.authToken options))
  /\ truthy (assoc "Authorization" (headers c)) = true
  /\ NoDup (map fst (headers c))
  /\ forall k, k <> "Authorization" -> assoc k (headers c) = assoc k given.
Proof.
  intros given Hnd c. subst c. unfold constructor. cbn [headers]. fold given.
  rewrite (assoc_spread "Authorization" given Hnd).
  destruct (truthy (assoc "Authorization" given)) eqn:Ht; cbn [negb].
  - rewrite (assoc_spread _ given Hnd).
    split; [destruct (assoc "Authorization" given); [reflexivity|discriminate Ht]|].
    split; [exact Ht|].
    split; [rewrite (spread_entries given Hnd); now rewrite entries_Permutation|].
    intros k _. apply assoc_spread. exact Hnd.
  - rewrite assoc_set_property_eq. split; [reflexivity|].
    split; [apply truthy_bearer|].
    split.
    + apply NoDup_set_property. rewrite (spread_entries given Hnd).
      now rewrite entries_Permutation.
    + intros k Hk. rewrite assoc_set_property_ne by exact Hk. now apply assoc_spread.
Qed.

(** rotateToken fails on an answer that is not ok, or whose body cannot be
    read, and then changes nothing.  Otherwise a token in the answer becomes
    the token of the client and, with one Bearer prefix, its Authorization
    header, whatever that header was; no other header changes. *)
Theorem rotateToken_outcome response c :
  let out := rotateToken response c in
  (ok response = false -> out = (inr (http_error response), c))
  /\ (forall e, ok response = true -> json response = inr e -> out = (inr e, c))
  /\ (forall account,
        ok response = true -> json response = inl account ->
        fst out = inl account
        /\ (truthy (Account.token account) = false -> snd out = c)
        /\ (forall token,
              Account.token account = Some token -> token <> "" ->
              authToken (snd out) = token
              /\ assoc "Authorization" (headers (snd out)) = Some (bearer token)
              /\ String.prefix "Bearer " (bearer token) = true
              /\ (forall k, k <> "Authorization" ->
                    assoc k (headers (snd out)) = assoc k (headers c))
              /\ baseUrl (snd out) = baseUrl c /\ channel (snd out) = channel c
              /\ rootTopics (snd out) = rootTopics c)).
Proof.
  cbv zeta. unfold rotateToken. split; [intros ->; reflexivity|].
  split; [intros e -> ->; reflexivity|].
  intros account -> ->. cbn [negb fst snd]. split; [reflexivity|]. split.
  - destruct (Account.token account) as [t|]; [|reflexivity]. cbn.
    destruct (String.eqb t ""); [reflexivity|discriminate].
  - intros token -> Hne. destruct (String.eqb_spec token ""); [contradiction|].
    cbn [negb]. unfold updateAuthToken. cbn [authToken headers baseUrl channel rootTopics].
    split; [reflexivity|]. split.
    + rewrite assoc_set_property_eq. unfold bearer.
      now destruct (String.prefix "Bearer " token).
    + split; [apply prefix_bearer|].
      split; [intros k Hk; now apply assoc_set_property_ne|].
      repeat split; reflexivity.
Qed.

(** ** The base URL of the sockets *)

Lemma replace_unfold pattern replacement s :
  replace pattern replacement s
  = if String.prefix pattern s
    then replacement
         +:+ String.substring (String.length pattern)
                              (String.length s - String.length pattern) s
    else match s with
         | EmptyString => EmptyString
         | String c r => String c (replace pattern replacement r)
         end.
Proof. destruct s; reflexivity. Qed.

Lemma substring_all s : String.substring 0 (String.length s) s = s.
Proof. induction s as [|a s IH]; [reflexivity|]. cbn. now rewrite IH. Qed.

Lemma substring_after p s :
  String.substring (String.length p) (String.length (p +:+ s) - String.length p) (p +:+ s)
  = s.
Proof.
  induction p as [|a p IH].
  - change ("" +:+ s) with s. cbn [String.length]. rewrite Nat.sub_0_r. apply substring_all.
  - change (String a p +:+ s) with (String a (p +:+ s)). cbn. exact IH.
Qed.

Lemma replace_prefix pattern replacement s :
  replace pattern replacement (pattern +:+ s) = replacement +:+ s.
Proof.
  rewrite replace_unfold, prefix_append. now rewrite substring_after.
Qed.

(** An https base URL gives a wss URL with the same rest, an http one a ws
    URL, and a base without either scheme gets ws:// in front; the base URL
    of the class being fixed, every client connects to the same wss host,
    whatever its options. *)
Theorem websocket_base_url c rest :
  (baseUrl c = "https://" +:+ rest -> getWebSocketBaseUrl c = "wss://" +:+ rest)
  /\ (baseUrl c = "http://" +:+ rest -> getWebSocketBaseUrl c = "ws://" +:+ rest)
  /\ (String.prefix "https://" (baseUrl c) = false ->
      String.prefix "http://" (baseUrl c) = false ->
      getWebSocketBaseUrl c = "ws://" +:+ baseUrl c)
  /\ forall options,
       getWebSocketBaseUrl (constructor options)
       = "wss://chanban-112482603531.us-east4.run.app".
Proof.
  unfold getWebSocketBaseUrl. split; [|split; [|split]].
  - intros ->. rewrite prefix_append. apply replace_prefix.
  - intros ->.
    assert (String.prefix "https://" ("http://" +:+ rest) = false) as ->.
    { change ("http://" +:+ rest) with (String "h" (String "t" (String "t" (String "p"
        (String ":" (String "/" (String "/" rest))))))).
      cbn. reflexivity. }
    rewrite prefix_append. apply replace_prefix.
  - intros -> ->. reflexivity.
  - intros options. reflexivity.
Qed.

(** ** Numbers in the environment *)

Lemma uint_value_pos d : forall p, uint_value (N.pos p) d = N.pos (Pos.of_uint_acc d p).
Proof.
  induction d; intros p; cbn [uint_value Pos.of_uint_acc]; [reflexivity|..];
    match goal with
    | |- uint_value ?a _ = N.pos (Pos.of_uint_acc _ ?q) =>
        replace a with (N.pos q) by lia; apply IHd
    end.
Qed.

Lemma uint_value_0 d : uint_value 0 d = N.of_uint d.
Proof.
  unfold N.of_uint. induction d; cbn [uint_value Pos.of_uint]; [reflexivity|exact IHd|..];
    match goal with
    | |- uint_value ?a _ = N.pos (Pos.of_uint_acc _ ?q) =>
        replace a with (N.pos q) by lia; apply uint_value_pos
    end.
Qed.

Lemma leading_digits_chars d : forall a,
  leading_digits (Some a) (string_of_list_ascii (chars_of_uint d)) = Some (uint_value a d).
Proof.
  induction d; intros a; cbn [chars_of_uint string_of_list_ascii uint_value];
    [reflexivity|..]; cbn [leading_digits]; apply IHd.
Qed.

Lemma leading_digits_numeral n :
  leading_digits None (string_of_list_ascii (chars_of_uint (N.to_uint n))) = Some n.
Proof.
  rewrite <- (DecimalN.Unsigned.of_to n) at 2. rewrite <- uint_value_0.
  pose proof (JSONFacts.to_uint_not_nil n) as Hnil.
  destruct (N.to_uint n) as [|d|d|d|d|d|d|d|d|d|d]; [congruence|..];
    cbn [chars_of_uint string_of_list_ascii uint_value leading_digits];
    apply leading_digits_chars.
Qed.

Ltac white_known :=
  repeat match goal with
         | |- context [is_white ?c] =>
             let b := eval vm_compute in (is_white c) in
             change (is_white c) with b
         end.

Lemma parseInt_numeral z :
  parseInt (string_of_list_ascii (print_number z)) = to_number z.
Proof.
  unfold print_number. destruct (Z.ltb_spec z 0) as [Hneg|Hpos].
  - unfold parseInt. cbn [string_of_list_ascii trim_start]. white_known. cbv iota.
    rewrite leading_digits_numeral. f_equal. lia.
  - pose proof (leading_digits_numeral (Z.to_N z)) as H.
    pose proof (JSONFacts.to_uint_not_nil (Z.to_N z)) as Hnil.
    unfold parseInt.
    destruct (N.to_uint (Z.to_N z)) as [|d|d|d|d|d|d|d|d|d|d]; [congruence|..];
      cbn [chars_of_uint string_of_list_ascii] in *; cbn [trim_start];
      white_known; cbv iota; rewrite H; f_equal; lia.
Qed.

(** An integer below 2^53 in absolute value is a double. *)
Lemma to_number_safe z : Z.abs z < 2 ^ 53 -> to_number z = Int z.
Proof.
  intros H. unfold to_number, round_natural. cbv zeta.
  destruct (Z.ltb_spec (Z.abs z) (2 ^ 53)) as [_|H']; [|lia].
  assert (2 ^ 53 < 2 ^ 1024) as Hpow by (apply Z.pow_lt_mono_r; lia).
  destruct (Z.leb_spec (2 ^ 1024) (Z.abs z)) as [Hbig|_]; [lia|].
  destruct (Z.ltb_spec z 0); f_equal; lia.
Qed.

(** Beyond 2^53 the odd integers are not doubles: a tie goes to the even
    significand, and a numeral of four hundred digits reads as Infinity. *)
Lemma to_number_rounds :
  to_number (2 ^ 53 + 1) = Int (2 ^ 53)
  /\ to_number (2 ^ 53 + 3) = Int (2 ^ 53 + 4)
  /\ to_number (- (2 ^ 53 + 1)) = Int (- 2 ^ 53)
  /\ to_number (10 ^ 400) = Infinity false.
Proof. vm_compute. repeat split; reflexivity. Qed.

Lemma numeral_not_empty z : numeral z <> "".
Proof.
  unfold numeral, print_number. destruct (z <? 0); [discriminate|].
  pose proof (JSONFacts.to_uint_not_nil (Z.to_N z)) as Hnil.
  destruct (N.to_uint (Z.to_N z)); [congruence|..]; discriminate.
Qed.

Lemma or_default_Some text fallback : text <> "" -> or_default (Some text) fallback = text.
Proof. intros H. cbn. destruct (String.eqb_spec text ""); [contradiction|reflexivity]. Qed.

Lemma truthy_Some text : truthy (Some text) = true <-> text <> "".
Proof. cbn. destruct (String.eqb_spec text ""); cbn; split; congruence. Qed.

(** loadFromEnv fails when the token or the channel is unset or empty,
    the token being looked at first, and otherwise returns them. *)
Theorem loadFromEnv_required env :
  (truthy (env !! "MCAST_AUTH_TOKEN") = false ->
   loadFromEnv env = inr "MCAST_AUTH_TOKEN environment variable is required")
  /\ (truthy (env !! "MCAST_AUTH_TOKEN") = true ->
      truthy (env !! "MCAST_CHANNEL") = false ->
      loadFromEnv env = inr "MCAST_CHANNEL environment variable is required")
  /\ (truthy (env !! "MCAST_AUTH_TOKEN") = true ->
      truthy (env !! "MCAST_CHANNEL") = true ->
      exists options,
        loadFromEnv env = inl options
        /\ env !! "MCAST_AUTH_TOKEN" = Some (Options.authToken options)
        /\ env !! "MCAST_CHANNEL" = Some (Options.channel options)
        /\ Options.topics options = None
        /\ Options.headers options = None).
Proof.
  unfold loadFromEnv. split; [intros ->; reflexivity|].
  split; [intros -> ->; reflexivity|].
  intros Ht Hc. rewrite Ht, Hc. cbn [negb]. eexists. split; [reflexivity|].
  cbn [Options.authToken Options.channel Options.topics Options.headers].
  destruct (env !! "MCAST_AUTH_TOKEN"); [|discriminate Ht].
  destruct (env !! "MCAST_CHANNEL"); [|discriminate Hc].
  repeat split; reflexivity.
Qed.

(** A client made of the environment: the token is sent with one Bearer
    prefix as the only header, no root topic is set, and the numbers are
    read with parseInt: 5 retries and 3000 ms when unset or empty, whatever
    parseInt makes of any other text, which for the numeral of an integer is
    the double nearest to it, the integer itself when it is below 2^53 in
    absolute value; the defaults of the constructor never apply. *)
Theorem client_from_environment env token chan :
  env !! "MCAST_AUTH_TOKEN" = Some token -> token <> "" ->
  env !! "MCAST_CHANNEL" = Some chan -> chan <> "" ->
  exists options,
    loadFromEnv env = inl options
    /\ let c := constructor options in
       authToken c = token
       /\ channel c = chan
       /\ headers c = [("Authorization", bearer token)]
       /\ rootTopics c = []
       /\ debug c = bool_decide (env !! "MCAST_DEBUG" = Some "true")
       /\ autoReconnect c
          = negb (bool_decide (env !! "MCAST_AUTO_RECONNECT" = Some "false"))
       /\ (truthy (env !! "MCAST_MAX_RECONNECT_ATTEMPTS") = false ->
           maxReconnectAttempts c = Int 5)
       /\ (truthy (env !! "MCAST_RECONNECT_DELAY") = false ->
           reconnectDelay c = Int 3000)
       /\ (forall text, env !! "MCAST_MAX_RECONNECT_ATTEMPTS" = Some text -> text <> "" ->
             maxReconnectAttempts c = parseInt text)
       /\ (forall text, env !! "MCAST_RECONNECT_DELAY" = Some text -> text <> "" ->
             reconnectDelay c = parseInt text)
       /\ (forall z, env !! "MCAST_MAX_RECONNECT_ATTEMPTS" = Some (numeral z) ->
             maxReconnectAttempts c = to_number z
             /\ (Z.abs z < 2 ^ 53 -> maxReconnectAttempts c = Int z))
       /\ (forall z, env !! "MCAST_RECONNECT_DELAY" = Some (numeral z) ->
             reconnectDelay c = to_number z
             /\ (Z.abs z < 2 ^ 53 -> reconnectDelay c = Int z)).
Proof.
  intros Ht Htne Hc Hcne. unfold loadFromEnv. rewrite Ht, Hc.
  rewrite (proj2 (truthy_Some token) Htne), (proj2 (truthy_Some chan) Hcne).
  cbn [negb]. eexists. split; [reflexivity|]. cbv zeta.
  unfold constructor.
  cbn [Options.authToken Options.channel Options.topics Options.headers
       Options.autoReconnect Options.maxReconnectAttempts Options.reconnectDelay
       Options.debug authToken channel headers rootTopics debug autoReconnect
       maxReconnectAttempts reconnectDelay default from_option id].
  split; [reflexivity|]. split; [reflexivity|]. split; [reflexivity|].
  split; [reflexivity|]. split; [reflexivity|]. split; [reflexivity|].
  assert (forall x fallback, truthy x = false -> or_default x fallback = fallback) as Hdef.
  { intros [s|] fallback; cbn; [|reflexivity]. now destruct (String.eqb s ""). }
  split; [intros H; now rewrite (Hdef _ _ H)|].
  split; [intros H; now rewrite (Hdef _ _ H)|].
  split; [intros text -> Hne; now rewrite or_default_Some|].
  split; [intros text -> Hne; now rewrite or_default_Some|].
  split; intros z ->; rewrite or_default_Some by apply numeral_not_empty;
    (split; [apply parseInt_numeral|]);
    intros Hsafe; unfold numeral; rewrite parseInt_numeral; now apply to_number_safe.
Qed.

(** ** Requests over HTTP *)

Lemma assoc_fold_set_property {A} k (l : list (string * A)) : forall acc,
  NoDup (map fst l) ->
  assoc k (fold_left (fun acc kv => set_property (fst kv) (snd kv) acc) l acc)
  = match assoc k l with
    | Some v => Some v
    | None => assoc k acc
    end.
Proof.
  induction l as [|[k0 v0] l IH]; intros acc Hnd; cbn [fold_left fst snd]; [reflexivity|].
  cbn [map fst] in Hnd. apply NoDup_cons in Hnd as [Hk0 Hnd].
  rewrite (IH _ Hnd). cbn [assoc].
  destruct (String.eqb_spec k k0) as [->|Hne].
  - rewrite (proj2 (assoc_None k0 l) Hk0). apply assoc_set_property_eq.
  - rewrite assoc_set_property_ne by exact Hne. reflexivity.
Qed.

Lemma assoc_post_headers k c :
  NoDup (map fst (headers c)) ->
  assoc k (post_headers c)
  = match assoc k (headers c) with
    | Some v => Some v
    | None => assoc k [("Content-Type", "application/json")]
    end.
Proof.
  intros Hnd. unfold post_headers.
  rewrite assoc_fold_set_property by now rewrite entries_Permutation.
  rewrite (assoc_Permutation k (entries (headers c)) (headers c));
    [reflexivity|now rewrite entries_Permutation|apply entries_Permutation].
Qed.

(** publishHttp posts the frame that publish sends over the socket, from
    which the topic and a payload equal to the original are read back; the
    request carries the headers of the client, Content-Type being
    application/json unless the client has one of its own.  An answer that
    is not ok is an error that names its status. *)
Theorem publishHttp_posts_the_envelope topic payload c {A} (response : Response A) :
  NoDup (map fst (headers c)) -> serializable payload = true ->
  let request := publishHttp_request topic payload c in
  method request = "POST"
  /\ body request = JSON.stringify (publish_message topic payload)
  /\ envelope (body request) (Some (JStr topic)) payload
  /\ (forall k, k <> "Content-Type" ->
        assoc k (request_headers request) = assoc k (headers c))
  /\ assoc "Content-Type" (request_headers request)
     = Some (default "application/json" (assoc "Content-Type" (headers c)))
  /\ publishHttp response
     = if ok response then json response
       else inr ("HTTP error: " +:+ numeral (status response)
                 +:+ " " +:+ statusText response).
Proof.
  intros Hnd Hser request. subst request. cbn [method body request_headers publishHttp_request].
  split; [reflexivity|]. split; [reflexivity|].
  split; [now apply publish_frame_envelope|].
  split.
  { intros k Hk. rewrite (assoc_post_headers k c Hnd).
    destruct (assoc k (headers c)); [reflexivity|]. cbn.
    destruct (String.eqb_spec k "Content-Type"); [contradiction|reflexivity]. }
  split.
  { rewrite (assoc_post_headers _ c Hnd). now destruct (assoc "Content-Type" (headers c)). }
  unfold publishHttp. now destruct (ok response).
Qed.

(** ** The URLs of the sockets *)

Lemma encode_unit_written c : forallb written (encode_unit c) = true.
Proof. destruct c as [[] [] [] [] [] [] [] []]; vm_compute; reflexivity. Qed.

Lemma all_chars_of_list P l :
  all_chars P (string_of_list_ascii l) = forallb P l.
Proof. induction l as [|c l IH]; [reflexivity|]. cbn. now rewrite IH. Qed.

Lemma encodeURIComponent_written s : all_chars written (encodeURIComponent s) = true.
Proof.
  unfold encodeURIComponent. rewrite all_chars_of_list.
  induction (list_ascii_of_string s) as [|c l IH]; [reflexivity|].
  cbn [flat_map]. rewrite forallb_app, IH, encode_unit_written. reflexivity.
Qed.

Lemma all_chars_append P a b :
  all_chars P (a +:+ b) = all_chars P a && all_chars P b.
Proof.
  induction a as [|c a IH]; [reflexivity|].
  change (String c a +:+ b) with (String c (a +:+ b)). cbn. now rewrite IH, andb_assoc.
Qed.

Lemma all_chars_weaken (P Q : ascii -> bool) s :
  (forall c, P c = true -> Q c = true) -> all_chars P s = true -> all_chars Q s = true.
Proof.
  intros H. induction s as [|c s IH]; [reflexivity|]. cbn.
  intros [Hc Hs]%andb_true_iff. now rewrite (H c Hc), IH.
Qed.

Lemma split_on_whole sep s : all_chars (other_than sep) s = true -> split_on sep s = [s].
Proof.
  induction s as [|c s IH]; [reflexivity|]. cbn. unfold other_than at 1.
  intros [Hc Hs]%andb_true_iff. apply negb_true_iff in Hc. rewrite Hc, (IH Hs). reflexivity.
Qed.

Lemma split_on_append sep a b :
  all_chars (other_than sep) a = true ->
  split_on sep (a +:+ String sep b) = a :: split_on sep b.
Proof.
  induction a as [|c a IH].
  - intros _. change ("" +:+ String sep b) with (String sep b). cbn.
    now rewrite Ascii.eqb_refl.
  - change (String c a +:+ String sep b) with (String c (a +:+ String sep b)). cbn.
    unfold other_than at 1. intros [Hc Ha]%andb_true_iff. apply negb_true_iff in Hc.
    rewrite Hc, (IH Ha). reflexivity.
Qed.

Lemma split_on_join sep l :
  l <> [] -> Forall (fun x => all_chars (other_than sep) x = true) l ->
  split_on sep (join (String sep "") l) = l.
Proof.
  intros Hne Hall. induction Hall as [|x l Hx Hall IH]; [congruence|].
  destruct l as [|y l]; [now apply split_on_whole|].
  change (join (String sep "") (x :: y :: l))
    with (x +:+ String sep "" +:+ join (String sep "") (y :: l)).
  change (String sep "" +:+ join (String sep "") (y :: l))
    with (String sep (join (String sep "") (y :: l))).
  rewrite split_on_append by exact Hx. now rewrite IH.
Qed.

Lemma written_other_than sep :
  written sep = false -> forall c, written c = true -> other_than sep c = true.
Proof.
  intros Hsep c Hc. unfold other_than. apply negb_true_iff.
  destruct (Ascii.eqb_spec c sep) as [->|]; [congruence|reflexivity].
Qed.

Lemma append_empty (a : string) : a +:+ "" = a.
Proof.
  induction a as [|x a IH]; [reflexivity|].
  change (String x a +:+ "") with (String x (a +:+ "")). now rewrite IH.
Qed.

Lemma append_assoc (a b c : string) : (a +:+ b) +:+ c = a +:+ b +:+ c.
Proof.
  induction a as [|x a IH]; [reflexivity|].
  change ((String x a +:+ b) +:+ c) with (String x ((a +:+ b) +:+ c)). now rewrite IH.
Qed.

Lemma join_snoc sep l x : l <> [] -> join sep l +:+ sep +:+ x = join sep (l ++ [x]).
Proof.
  induction l as [|y l IH]; [congruence|]. intros _.
  destruct l as [|z l]; [reflexivity|].
  change (join sep (y :: z :: l)) with (y +:+ sep +:+ join sep (z :: l)).
  change (join sep ((y :: z :: l) ++ [x])) with (y +:+ sep +:+ join sep ((z :: l) ++ [x])).
  rewrite <- IH by discriminate. now rewrite !append_assoc.
Qed.

Section Urls.
Variable c : McastClient.


Lemma param_apart kv : all_chars (other_than "&") (header_param kv) = true.
Proof.
  unfold header_param. rewrite !all_chars_append.
  rewrite !(all_chars_weaken written (other_than "&") _
              (written_other_than "&" eq_refl) (encodeURIComponent_written _)).
  reflexivity.
Qed.

Lemma chan_apart : all_chars (other_than "&") (channel_param c) = true.
Proof.
  unfold channel_param. rewrite all_chars_append.
  rewrite (all_chars_weaken written (other_than "&") _
             (written_other_than "&" eq_refl) (encodeURIComponent_written _)).
  reflexivity.
Qed.

Lemma topics_apart ts :
  all_chars (other_than "&") ("topics=" +:+ join "," (map encodeURIComponent ts)) = true.
Proof.
  rewrite all_chars_append. cbn [all_chars other_than Ascii.eqb Bool.eqb negb andb].
  induction ts as [|t ts IH]; [reflexivity|].
  destruct ts as [|t' ts].
  - cbn [map join].
    apply (all_chars_weaken written (other_than "&") _
             (written_other_than "&" eq_refl) (encodeURIComponent_written _)).
  - change (join "," (map encodeURIComponent (t :: t' :: ts)))
      with (encodeURIComponent t +:+ "," +:+ join "," (map encodeURIComponent (t' :: ts))).
    rewrite !all_chars_append, IH.
    rewrite (all_chars_weaken written (other_than "&") _
               (written_other_than "&" eq_refl) (encodeURIComponent_written _)).
    reflexivity.
Qed.

(** In the URLs that the sockets open, the channel, every header and the
    root topics are parameters of their own: whatever characters they hold,
    cutting the query at its ampersands gives the channel, one name=value
    pair for each header, and for the subscriber the topics when there are
    any; cutting the topics at their commas gives one entry for each root
    topic. *)
Theorem urls_keep_parameters_apart :
  headers c <> [] ->
  exists publisher_query subscriber_query topics_value,
    publisher_url c = getWebSocketBaseUrl c +:+ "/pub-ws?" +:+ publisher_query
    /\ split_on "&" publisher_query = channel_param c :: map header_param (entries (headers c))
    /\ subscriber_url c = getWebSocketBaseUrl c +:+ "/sub?" +:+ subscriber_query
    /\ split_on "&" subscriber_query
       = channel_param c :: map header_param (entries (headers c))
              ++ match rootTopics c with
                 | [] => []
                 | _ :: _ => ["topics=" +:+ topics_value]
                 end
    /\ (rootTopics c <> [] ->
        split_on "," topics_value = map encodeURIComponent (rootTopics c)).
Proof.
  intros Hne.
  assert (entries (headers c) <> []) as Hent.
  { intros H. apply Hne. apply Permutation_nil. rewrite <- H.
    apply entries_Permutation. }
  set (params := map header_param (entries (headers c))).
  assert (params <> []) as Hparams by (subst params; now destruct (entries (headers c))).
  assert (Forall (fun x => all_chars (other_than "&") x = true) params) as Hall.
  { subst params. apply Forall_forall. intros x (kv & -> & _)%list_elem_of_fmap.
    apply param_apart. }
  assert (queryParams c = join "&" params) as Hq by reflexivity.
  exists (channel_param c +:+ "&" +:+ queryParams c).
  exists (channel_param c +:+ "&" +:+ queryParams c
          +:+ match rootTopics c with
              | [] => ""
              | _ :: _ => "&topics=" +:+ join "," (map encodeURIComponent (rootTopics c))
              end).
  exists (join "," (map encodeURIComponent (rootTopics c))).
  split.
  { unfold publisher_url, channel_param. rewrite (append_assoc "channel="). reflexivity. }
  split.
  { change (channel_param c +:+ "&" +:+ queryParams c)
      with (channel_param c +:+ String "&" (queryParams c)).
    rewrite split_on_append by apply chan_apart.
    rewrite Hq. now rewrite split_on_join. }
  split.
  { unfold subscriber_url, channel_param. destruct (rootTopics c) as [|t ts].
    - cbn [length Nat.ltb Nat.leb]. rewrite append_empty.
      rewrite (append_assoc "channel="). reflexivity.
    - cbn [length Nat.ltb Nat.leb]. rewrite (append_assoc "channel="). reflexivity. }
  split.
  { change (channel_param c +:+ "&" +:+ ?x) with (channel_param c +:+ String "&" x).
    rewrite split_on_append by apply chan_apart. f_equal.
    destruct (rootTopics c) as [|t ts] eqn:Hts.
    - rewrite append_empty, app_nil_r, Hq. now apply split_on_join.
    - rewrite Hq.
      change ("&topics=" +:+ ?x) with (String "&" ("topics=" +:+ x)).
      assert (join "&" params +:+ String "&" ("topics=" +:+ join "," (map encodeURIComponent (t :: ts)))
              = join "&" (params ++ ["topics=" +:+ join "," (map encodeURIComponent (t :: ts))])) as ->.
      { now apply (join_snoc "&"). }
      apply split_on_join; [now destruct params|].
      apply Forall_app. split; [exact Hall|]. apply Forall_singleton, topics_apart. }
  intros Hts. apply split_on_join; [now destruct (rootTopics c)|].
  apply Forall_forall. intros x (t & -> & _)%list_elem_of_fmap.
  apply (all_chars_weaken written (other_than ",") _
           (written_other_than "," eq_refl) (encodeURIComponent_written _)).
Qed.

End Urls.

(** ** The theorems at work *)

Lemma constructor_authorization_witness :
  NoDup (map fst (default [] (Options.headers some_options)))
  /\ assoc "Authorization" (headers (constructor some_options)) = Some "Bearer secret".
Proof.
  assert (NoDup (map fst (default [] (Options.headers some_options)))) as H
    by (cbn; apply NoDup_singleton).
  split; [exact H|].
  destruct (constructor_authorization some_options H) as [H1 _]. exact H1.
Defined.

Lemma client_from_environment_witness :
  exists options,
    loadFromEnv some_environment = inl options
    /\ maxReconnectAttempts (constructor options) = NaN
    /\ reconnectDelay (constructor options) = Int 3000.
Proof.
  destruct (client_from_environment some_environment "secret" "news")
    as (options & H0 & _ & _ & _ & _ & _ & _ & _ & H8 & H9 & _);
    [reflexivity|discriminate|reflexivity|discriminate|].
  exists options. split; [exact H0|]. split.
  - rewrite (H9 "many"); [reflexivity|reflexivity|discriminate].
  - apply H8. reflexivity.
Defined.

Lemma publishHttp_posts_the_envelope_witness :
  let c := constructor some_options in
  NoDup (map fst (headers c))
  /\ serializable a_payload = true
  /\ envelope (body (publishHttp_request "news" a_payload c)) (Some (JStr "news")) a_payload.
Proof.
  cbv zeta.
  assert (NoDup (map fst (headers (constructor some_options)))) as H.
  { cbn. apply NoDup_cons. split; [|apply NoDup_singleton].
    intros Hin. apply list_elem_of_singleton in Hin. discriminate Hin. }
  assert (serializable a_payload = true) as Hs by (vm_compute; reflexivity).
  split; [exact H|]. split; [exact Hs|].
  destruct (publishHttp_posts_the_envelope "news" a_payload (constructor some_options)
              (mkResponse (string + string) false 500 "Internal Server Error" (inr "")) H Hs)
    as (_ & _ & H3 & _).
  exact H3.
Defined.

Lemma urls_keep_parameters_apart_witness :
  let c := constructor some_options in
  headers c <> []
  /\ exists publisher_query,
       publisher_url c = getWebSocketBaseUrl c +:+ "/pub-ws?" +:+ publisher_query
       /\ split_on "&" publisher_query
          = ["channel=news%20%26%20views"; "X-Trace=1%3D2";
             "Authorization=Bearer%20secret"].
Proof.
  cbv zeta.
  assert (headers (constructor some_options) <> []) as H by (cbn; discriminate).
  split; [exact H|].
  destruct (urls_keep_parameters_apart (constructor some_options) H)
    as (pq & sq & tv & H1 & H2 & _).
  exists pq. split; [exact H1|]. rewrite H2. vm_compute. reflexivity.
Defined.

End ConfigFacts.

(** * The theorems at work on the runs above *)


Lemma shutdown_blocks_witness :
  let w := run example_env (connected_publisher ++ [E_disconnect]) initial in
  isDisconnecting w = true
  /\ ctor_calls (run example_env [E_publish "late" a_payload; E_close 0 None;
                                  E_timer 0; E_subscribe 3 None] w)
     = ctor_calls w.
Proof.
  cbv zeta. split; [vm_compute; reflexivity|].
  destruct (shutdown_blocks example_env
              (run example_env (connected_publisher ++ [E_disconnect]) initial))
    as [_ H]; [vm_compute; reflexivity|].
  apply (H [E_publish "late" a_payload; E_close 0 None; E_timer 0; E_subscribe 3 None]).
Defined.

Lemma dispatch_order_witness :
  let w := run example_env three_subscribers initial in
  exists new,
    trace (snd (onmessage example_env
                  (JSON.stringify (publish_message "a" a_payload)) w))
    = trace w ++ new
    /\ new = map (called (Some (JStr "a")) a_payload) ([7; 8] ++ [9])%nat
    /\ invoked new = ([7; 8] ++ [9])%nat
    /\ forall cb,
         length (filter (fun c => c = cb) (invoked new))
         = (length (filter (fun c => c = cb) [7; 8]%nat)
            + length (filter (fun c => c = cb) [9]%nat))%nat.
Proof.
  cbv zeta.
  apply (dispatch_order example_env
           (run example_env three_subscribers initial)
           (JSON.stringify (publish_message "a" a_payload)) "a" a_payload).
  - discriminate.
  - apply publish_frame_envelope. vm_compute. reflexivity.
  - vm_compute. reflexivity.
  - vm_compute. reflexivity.
Defined.


Lemma envelope_round_trip_witness :
  serializable a_payload = true
  /\ (let w := run example_env three_subscribers initial in
      trace (snd (onmessage example_env
                    (JSON.stringify (publish_message "a" a_payload)) w))
      = trace w ++ map (called (Some (JStr "a")) a_payload)
                     (default [] (listeners w !! "a")
                      ++ default [] (listeners w !! TOPIC_ALL))).
Proof.
  assert (serializable a_payload = true) as Hser by (vm_compute; reflexivity).
  split; [exact Hser|]. cbv zeta.
  destruct (envelope_round_trip example_env "a" a_payload Hser) as (_ & H & _).
  apply H. apply not_inherited. vm_compute. reflexivity.
Defined.


Lemma handlers_clear_promise_witness :
  let w := run example_env [E_publish "news" a_payload] initial in
  connectPromise (conn publisher w) = Some 1%nat
  /\ connectPromise (conn publisher (step example_env w (E_error 0 None))) = None.
Proof.
  cbv zeta. split; [vm_compute; reflexivity|].
  apply (handlers_clear_promise example_env 0%nat (mkSocket publisher 0 (Some 1%nat) []) 1%nat
           (run example_env [E_publish "news" a_payload] initial) (E_error 0 None)).
  - vm_compute. reflexivity.
  - reflexivity.
  - exists None. right. right. reflexivity.
Defined.

Lemma close_after_error_witness :
  let w := run example_env connected_publisher initial in
  state (conn publisher w) = Some CONNECTED
  /\ timers (run example_env [E_error 0 None; E_close 0 None] w) = timers w.
Proof.
  cbv zeta. split; [vm_compute; reflexivity|].
  destruct (close_after_error example_env 0%nat (mkSocket publisher 1 (Some 1%nat) []) 1%nat
              None None (run example_env connected_publisher initial)) as [H _].
  - vm_compute. reflexivity.
  - reflexivity.
  - exact H.
Defined.

Lemma removed_listener_never_called_witness :
  let w := run example_env [E_onStateChange 3; E_onStateChange 3] initial in
  stateChangeListeners w = [3; 3]%nat
  /\ (3%nat ∉ stateChangeListeners
                (run example_env connected_publisher
                   (step example_env w (E_removeStateChangeListener 3)))).
Proof.
  cbv zeta. split; [vm_compute; reflexivity|].
  destruct (removed_listener_never_called example_env 3%nat connected_publisher
              (run example_env [E_onStateChange 3; E_onStateChange 3] initial))
    as (_ & H & _).
  - repeat constructor; discriminate.
  - exact H.
Defined.

Lemma unsubscribe_undoes_subscribe_witness :
  let w := run example_env three_subscribers initial in
  listeners
    (exec (subscribe_resume 0 5%nat (topic_array (Some (inr ["a"; "b"]))) Fulfilled ;;
           forEach ["a"; "b"] (fun t => unsubscribe t (Some 5%nat))) w)
  = listeners w.
Proof.
  cbv zeta.
  apply (unsubscribe_undoes_subscribe 0%nat 5%nat (Some (inr ["a"; "b"]))
           (run example_env three_subscribers initial)).
  { intros t Ht. cbn [named] in Ht.
    apply elem_of_cons in Ht as [->|Ht]; [|apply list_elem_of_singleton in Ht as ->];
      unfold inherited; intros H;
      repeat (apply elem_of_cons in H as [H|H]; [discriminate H|]);
      now apply elem_of_nil in H. }
  intros t Ht. cbn [named] in Ht.
  apply elem_of_cons in Ht as [->|Ht]; [|apply list_elem_of_singleton in Ht as ->].
  - vm_compute. split; [|discriminate].
    intros H. do 2 (apply elem_of_cons in H as [H|H]; [discriminate H|]).
    now apply elem_of_nil in H.
  - vm_compute. split; [|discriminate]. apply not_elem_of_nil.
Defined.

Lemma unsubscribed_callback_not_called_witness :
  let w := exec (unsubscribe "a" (Some 7%nat)) (run example_env three_subscribers initial) in
  exists new,
    trace (snd (onmessage example_env (JSON.stringify (publish_message "a" a_payload)) w))
    = trace w ++ new
    /\ invoked new = [8; 9]%nat.
Proof.
  cbv zeta.
  destruct (unsubscribed_callback_not_called example_env
              (JSON.stringify (publish_message "a" a_payload)) "a" a_payload (Some 7%nat)
              (run example_env three_subscribers initial)) as (new & H1 & H2).
  - unfold inherited. intros H.
    repeat (apply elem_of_cons in H as [H|H]; [discriminate H|]).
    now apply elem_of_nil in H.
  - discriminate.
  - apply publish_frame_envelope. vm_compute. reflexivity.
  - exists new. split; [exact H1|]. rewrite H2. vm_compute. reflexivity.
Defined.

Lemma malformed_frame_is_dropped_witness :
  let w := run example_env three_subscribers initial in
  undeliverable "not json"
  /\ undeliverable no_payload_frame
  /\ onmessage example_env "not json" w = (inl tt, w)
  /\ onmessage example_env no_payload_frame w = (inl tt, w).
Proof.
  cbv zeta.
  assert (undeliverable "not json") as H by (left; vm_compute; reflexivity).
  assert (undeliverable no_payload_frame) as H'.
  { right. exists (JObj [("topic", JStr "a")]).
    split; [vm_compute; reflexivity|]. right. vm_compute. reflexivity. }
  split; [exact H|]. split; [exact H'|].
  split; [apply (malformed_frame_is_dropped example_env _ _ H)
         |apply (malformed_frame_is_dropped example_env _ _ H')].
Defined.

Lemma wildcard_topic_calls_twice_witness :
  let w := run example_env three_subscribers initial in
  exists new,
    trace (snd (onmessage example_env
                  (JSON.stringify (publish_message TOPIC_ALL a_payload)) w))
    = trace w ++ new
    /\ invoked new = [9; 9]%nat.
Proof.
  cbv zeta.
  destruct (wildcard_topic_calls_twice example_env
              (JSON.stringify (publish_message TOPIC_ALL a_payload)) a_payload
              (run example_env three_subscribers initial)) as (new & H1 & _ & H3).
  - apply publish_frame_envelope. vm_compute. reflexivity.
  - exists new. split; [exact H1|]. rewrite H3. vm_compute. reflexivity.
Defined.

Lemma missing_topic_reads_undefined_witness :
  let w := run example_env
             [E_subscribe 4 (Some (inl "undefined")); E_subscribe 9 None;
              E_open 0; E_react 0; E_react 0] initial in
  exists new,
    trace (snd (onmessage example_env no_topic_frame w)) = trace w ++ new
    /\ new = map (called None a_payload) [4; 9]%nat.
Proof.
  cbv zeta.
  destruct (missing_topic_reads_undefined example_env no_topic_frame a_payload
              (run example_env
                 [E_subscribe 4 (Some (inl "undefined")); E_subscribe 9 None;
                  E_open 0; E_react 0; E_react 0] initial)) as (new & H1 & H2).
  - exists [("payload", JStr (JSON.stringify a_payload))], (JSON.stringify a_payload).
    repeat split; vm_compute; reflexivity.
  - exists new. split; [exact H1|]. rewrite H2. vm_compute. reflexivity.
Defined.

Lemma close_of_connected_socket_witness :
  let w := run example_env connected_publisher initial in
  state (conn publisher w) = Some CONNECTED
  /\ timers (step example_env w (E_close 0 None)) = timers w ++ [T_reconnect publisher].
Proof.
  cbv zeta. split; [vm_compute; reflexivity|].
  pose proof (close_of_connected_socket example_env 0%nat
                (mkSocket publisher 1 (Some 1%nat) []) 1%nat None
                (run example_env connected_publisher initial)) as H.
  cbv zeta in H.
  change (at_least
            (reconnectAttempts
               (conn (s_role (mkSocket publisher 1 (Some 1%nat) []))
                  (run example_env connected_publisher initial)))
            (maxReconnectAttempts example_env)) with false in H.
  cbv iota in H. apply H; vm_compute; reflexivity.
Defined.

Lemma close_while_disconnecting_witness :
  let w := run example_env (connected_publisher ++ [E_disconnect]) initial in
  isDisconnecting w = true
  /\ state (conn publisher (step example_env w (E_close 0 None))) = Some DISCONNECTED.
Proof.
  cbv zeta. split; [vm_compute; reflexivity|].
  destruct (close_while_disconnecting example_env 0%nat
              (mkSocket publisher 2 (Some 1%nat) [3%nat]) 1%nat None
              (run example_env (connected_publisher ++ [E_disconnect]) initial))
    as [H _].
  - vm_compute. reflexivity.
  - reflexivity.
  - vm_compute. reflexivity.
  - exact H.
Defined.

Lemma no_retry_without_autoReconnect_witness :
  autoReconnect manual_env = false
  /\ (T_reconnect publisher
        ∉ timers (run manual_env (connected_publisher ++ [E_close 0 None]) initial)).
Proof.
  assert (autoReconnect manual_env = false) as H by reflexivity.
  split; [exact H|].
  destruct (no_retry_without_autoReconnect manual_env H
              (connected_publisher ++ [E_close 0 None])) as [H1 _].
  apply H1.
Defined.

Lemma open_fulfils_attempt_witness :
  let w := run example_env [E_publish "news" a_payload] initial in
  promises w !! 1%nat = Some Pending
  /\ promises (step example_env w (E_open 0)) !! 1%nat = Some Fulfilled.
Proof.
  cbv zeta. split; [vm_compute; reflexivity|].
  destruct (open_fulfils_attempt example_env 0%nat (mkSocket publisher 0 (Some 1%nat) [])
              1%nat (run example_env [E_publish "news" a_payload] initial)) as [H _].
  - vm_compute. reflexivity.
  - reflexivity.
  - vm_compute. reflexivity.
  - rewrite H. vm_compute. reflexivity.
Defined.

Lemma publish_on_open_socket_witness :
  let w := run example_env connected_publisher initial in
  pubSocket w = Some 0%nat
  /\ ctor_calls (step example_env w (E_publish "again" a_payload)) = ctor_calls w.
Proof.
  cbv zeta. split; [vm_compute; reflexivity|].
  destruct (publish_on_open_socket example_env "again" a_payload 0%nat
              (mkSocket publisher 1 (Some 1%nat) [])
              (run example_env connected_publisher initial)) as [H _].
  - vm_compute. reflexivity.
  - vm_compute. reflexivity.
  - vm_compute. reflexivity.
  - reflexivity.
  - exact H.
Defined.

Lemma disconnect_without_sockets_witness :
  pubSocket initial = None /\ subSocket initial = None
  /\ promises (step example_env initial E_disconnect) = [Fulfilled].
Proof.
  split; [reflexivity|]. split; [reflexivity|].
  destruct (disconnect_without_sockets example_env initial) as (_ & H & _);
    [reflexivity|reflexivity|exact H].
Defined.


Lemma reconnect_timer_starts_attempt_witness :
  let w := run example_env (connected_publisher ++ [E_close 0 None]) initial in
  timers w = [T_reconnect publisher]
  /\ timers (step example_env w (E_timer 0)) = [].
Proof.
  cbv zeta. split; [vm_compute; reflexivity|].
  destruct (reconnect_timer_starts_attempt example_env 0%nat publisher
              (run example_env (connected_publisher ++ [E_close 0 None]) initial))
    as [H _].
  - vm_compute. reflexivity.
  - rewrite H. vm_compute. reflexivity.
Defined.

Lemma failed_retry_schedules_next_witness :
  let w := run example_env
             (connected_publisher ++ [E_close 0 None; E_timer 0; E_close 1 None]) initial in
  reactions w !! 0%nat = Some (2%nat, K_reconnect_catch publisher)
  /\ timers (step example_env w (E_react 0)) = [T_reconnect publisher].
Proof.
  cbv zeta. split; [vm_compute; reflexivity|].
  rewrite (failed_retry_schedules_next example_env 0%nat 2%nat publisher
             "WebSocket error: Denied"
             (run example_env
                (connected_publisher ++ [E_close 0 None; E_timer 0; E_close 1 None]) initial)).
  - vm_compute. reflexivity.
  - vm_compute. reflexivity.
  - vm_compute. reflexivity.
Defined.

